(** * PuppeteerSocial: discovery, deduplication and action orchestration

    A shallow embedding of [src/instagram-functions.js] and of the
    auto-comment loop of [src/bot.js].

    The page handle, the prior-action cache, the progress reporter and the
    text generator are external collaborators.  Each function of the
    embedding takes a record (its "world") holding, for every call the source
    makes to a collaborator, what that call answers: a value, or an
    exception.  The functions themselves run in a small monad that threads the
    module-level globals of [instagram-functions.js], records the collaborator
    calls that are made, and propagates exceptions the way JavaScript does. *)

From Stdlib Require Import ZArith Ascii String Bool Lia.
From stdpp Require Import base gmap sets list strings pretty.

Local Open Scope Z_scope.

#[local] Set Warnings "-clear-no-such-hyp".

(** String concatenation computes on literals. *)
#[local] Arguments String.append !_ _ / : simpl nomatch.

(* ------------------------------------------------------------------------- *)
(** ** JavaScript strings (ASCII fragment) *)
(* ------------------------------------------------------------------------- *)

Module Js.

(** [s.startsWith(p)] *)
Fixpoint startsWith (p s : string) : bool :=
  match p, s with
  | EmptyString, _ => true
  | String a p', String b s' => if Ascii.eqb a b then startsWith p' s' else false
  | String _ _, EmptyString => false
  end.

(** [s.includes(needle)] *)
Fixpoint includes (needle s : string) : bool :=
  startsWith needle s ||
  match s with
  | EmptyString => false
  | String _ s' => includes needle s'
  end.

(** The part of [s] before the first character satisfying [p], and the rest
    (which starts with that character when it is not empty). *)
Fixpoint break (p : ascii -> bool) (s : string) : string * string :=
  match s with
  | EmptyString => (EmptyString, EmptyString)
  | String c s' =>
      if p c then (EmptyString, s)
      else let '(a, b) := break p s' in (String c a, b)
  end.

Fixpoint all (p : ascii -> bool) (s : string) : bool :=
  match s with
  | EmptyString => true
  | String c s' => p c && all p s'
  end.

(** [s.replace(c, '')] with a one-character string pattern: only the first
    occurrence is removed. *)
Fixpoint remove_first (c : ascii) (s : string) : string :=
  match s with
  | EmptyString => EmptyString
  | String d s' => if Ascii.eqb c d then s' else String d (remove_first c s')
  end.

Definition lower_ascii (c : ascii) : ascii :=
  let n := N_of_ascii c in
  if ((65 <=? n) && (n <=? 90))%N then ascii_of_N (n + 32) else c.

(** [s.toLowerCase()] on ASCII letters. *)
Fixpoint toLowerCase (s : string) : string :=
  match s with
  | EmptyString => EmptyString
  | String c s' => String (lower_ascii c) (toLowerCase s')
  end.

(** The ASCII members of the class [\s]. *)
Definition is_space (c : ascii) : bool :=
  let n := N_of_ascii c in
  ((n =? 32) || ((9 <=? n) && (n <=? 13)))%N.

(** [s.split(/\s+/).filter(w => w.length > 0).length]: the number of maximal
    runs of non-space characters.  [in_word] tells whether the previous
    character belonged to a word. *)
Fixpoint count_words (in_word : bool) (s : string) : Z :=
  match s with
  | EmptyString => 0
  | String c s' =>
      if is_space c then count_words false s'
      else (if in_word then 0 else 1) + count_words true s'
  end.

(** Truthiness of an optional string ([undefined] and [''] are falsy). *)
Definition truthy (o : option string) : bool :=
  match o with
  | Some (String _ _) => true
  | _ => false
  end.

End Js.

(* ------------------------------------------------------------------------- *)
(** ** The platform's [URL] class *)
(* ------------------------------------------------------------------------- *)

(** [clean] relies on [new URL(u, base)], [url.origin] and [url.pathname].
    The model follows the URL parser on the structure of a URL: fragment,
    query, scheme, authority and path, with relative references resolved
    against the base.  Scheme and host are lower-cased and credentials are
    dropped.  The rewritings the platform applies inside one component
    (percent-encoding, dot segments, backslashes, surrounding blanks, IDNA,
    ports) are not modelled: components are kept as written, no host is
    rejected except an empty one, and [file:] is treated like any other
    scheme with an opaque origin. *)
Module Url.

Record t := mk {
  scheme : string;
  host : string;
  pathname : string;
  search : string;
  hash : string
}.

Definition is_alpha (c : ascii) : bool :=
  let n := N_of_ascii (Js.lower_ascii c) in ((97 <=? n) && (n <=? 122))%N.

Definition is_scheme_char (c : ascii) : bool :=
  let n := N_of_ascii c in
  is_alpha c || ((48 <=? n) && (n <=? 57))%N
  || Ascii.eqb c "+" || Ascii.eqb c "-" || Ascii.eqb c ".".

(** [scheme ":" rest], the scheme lower-cased. *)
Definition scheme_of (s : string) : option (string * string) :=
  match Js.break (fun c => negb (is_scheme_char c)) s with
  | (String a sch, String ":" rest) =>
      if is_alpha a then Some (Js.toLowerCase (String a sch), rest) else None
  | _ => None
  end.

Definition string_eqb (a b : string) : bool := bool_decide (a = b).

(** Schemes whose origin is the tuple (scheme, host, port); every other
    scheme has an opaque origin. *)
Definition tuple_scheme (s : string) : bool :=
  existsb (string_eqb s) ["ftp"; "http"; "https"; "ws"; "wss"].

Fixpoint drop_slashes (s : string) : string :=
  match s with
  | String "/" s' => drop_slashes s'
  | _ => s
  end.

Definition drop2 (s : string) : string :=
  match s with
  | String _ (String _ s') => s'
  | _ => EmptyString
  end.

Definition is_at (c : ascii) : bool := Ascii.eqb "@" c.
Definition is_slash (c : ascii) : bool := Ascii.eqb "/" c.
Definition is_hash (c : ascii) : bool := Ascii.eqb "#" c.
Definition is_qmark (c : ascii) : bool := Ascii.eqb "?" c.

(** [s] has no character satisfying [p]. *)
Definition lacks (p : ascii -> bool) (s : string) : bool :=
  Js.all (fun c => negb (p c)) s.

(** The part of an authority after its last ["@"]. *)
Fixpoint after_last_at (s : string) : string :=
  match s with
  | EmptyString => EmptyString
  | String c s' => if lacks is_at s then s else after_last_at s'
  end.

Definition host_of_authority (a : string) : string :=
  Js.toLowerCase (after_last_at a).

(** The path of a base up to and including its last ["/"]. *)
Fixpoint dirname (p : string) : string :=
  match p with
  | EmptyString => EmptyString
  | String c p' => if lacks is_slash p' then (if is_slash c then "/" else EmptyString)
                   else String c (dirname p')
  end.

(** [authority path].  With a tuple-origin scheme the slashes that precede
    the authority are skipped however many they are, the host must not be
    empty and an empty path is ["/"]; with another scheme exactly two slashes
    precede the authority. *)
Definition authority_path (sch rest q f : string) : option t :=
  let after := if tuple_scheme sch then drop_slashes rest else drop2 rest in
  let '(auth, path) := Js.break is_slash after in
  let h := host_of_authority auth in
  if tuple_scheme sch then
    if string_eqb h "" then None
    else Some (mk sch h (if string_eqb path "" then "/" else path) q f)
  else Some (mk sch h path q f).

(** A reference without a scheme, resolved against [b]. *)
Definition relative (b : t) (r q f : string) : option t :=
  if string_eqb (host b) "" && negb (Js.startsWith "/" (pathname b)) then
    None                                   (* the base has an opaque path *)
  else if Js.startsWith "//" r then
    authority_path (scheme b) r q f
  else if Js.startsWith "/" r then
    Some (mk (scheme b) (host b) r q f)
  else if string_eqb r "" then
    Some (mk (scheme b) (host b) (pathname b)
             (if string_eqb q "" then search b else q) f)
  else
    Some (mk (scheme b) (host b) (dirname (pathname b) +:+ r) q f).

(** The parser once query [q] and fragment [f] are split off [u]. *)
Definition parse3 (base : option t) (u q f : string) : option t :=
  match scheme_of u with
  | Some (sch, rest) =>
      if tuple_scheme sch then
        match base with
        | Some b =>
            if string_eqb (scheme b) sch && negb (Js.startsWith "//" rest)
            then relative b rest q f
            else authority_path sch rest q f
        | None => authority_path sch rest q f
        end
      else if Js.startsWith "//" rest then authority_path sch rest q f
      else Some (mk sch "" rest q f)
  | None =>
      match base with
      | Some b => relative b u q f
      | None => None
      end
  end.

Definition parse (base : option t) (u : string) : option t :=
  let '(u1, f) := Js.break is_hash u in
  let '(u2, q) := Js.break is_qmark u1 in
  parse3 base u2 q f.

(** [new URL(u, base)]: [None] when the constructor throws. *)
Definition new (u base : string) : option t :=
  match parse None base with
  | Some b => parse (Some b) u
  | None => None
  end.

(** [url.origin]: opaque origins serialise as ["null"]. *)
Definition origin (u : t) : string :=
  if tuple_scheme (scheme u) then scheme u +:+ "://" +:+ host u else "null".


End Url.

(** [clean] of [discoverInstagramPosts] and [ensurePermalinkView]:
    [try { const url = new URL(u, location.origin);
           return `${url.origin}${url.pathname}`; } catch { return null; }] *)
Definition clean (location_origin u : string) : option string :=
  match Url.new u location_origin with
  | Some url => Some (Url.origin url +:+ Url.pathname url)
  | None => None
  end.

(** The origin of the pages of the platform. *)
Definition ig : string := "https://www.instagram.com".




(* ------------------------------------------------------------------------- *)
(** ** Exceptions, module globals and collaborator calls *)
(* ------------------------------------------------------------------------- *)

(** What a collaborator answers to one call. *)
Inductive answer (A : Type) : Type :=
| Returns (a : A)         (* the call returns [a] *)
| Throws (msg : string).  (* the call throws [new Error(msg)] *)

Arguments Returns {A} a.
Arguments Throws {A} msg.

(** The result of running a function of the program. *)
Inductive outcome (A : Type) : Type :=
| Ok (a : A)              (* it returns [a] *)
| Throw (msg : string)    (* it throws [new Error(msg)] *)
| Pending.                (* a loop is still running when the scripted
                             observations of the page are used up *)

Arguments Ok {A} a.
Arguments Throw {A} msg.
Arguments Pending {A}.

(** The module-level variables of [instagram-functions.js]. *)
Record globals := mkGlobals {
  likedPosts : gset string;
  allDiscoveredPosts : gset string;
  isOnSearchPage : bool;
  currentSearchUrl : option string
}.

Definition initial_globals : globals := mkGlobals ∅ ∅ false None.

(** Calls to collaborators, in the order they are made.  [console.log]
    calls are left out. *)
Inductive event : Type :=
| Goto (url : string)                 (* page.goto *)
| WaitFor (selector : string)         (* page.waitForSelector *)
| Find (selector : string)            (* page.$, page.evaluateHandle *)
| Read (what : string)                (* page.evaluate reading the DOM *)
| Act (what : string)                 (* click, type, key press, scroll or
                                         fetch issued on the page *)
| Sleep (ms : Z)
| CacheLookup (username : option string) (postUrl : string)
                                      (* hasMyCommentAndCache *)
| Generate (postContent : string)     (* generateAIComment *)
| Report (status : string) (completed : Z).   (* reportProgress *)

(** The call goes through the page handle. *)
Definition touches_page (e : event) : bool :=
  match e with
  | Goto _ | WaitFor _ | Find _ | Read _ | Act _ => true
  | _ => false
  end.

(** The call navigates the page or acts on it. *)
Definition navigates_or_mutates (e : event) : bool :=
  match e with
  | Goto _ | Act _ => true
  | _ => false
  end.

(** State, exceptions and the trace of collaborator calls.  The state [S] is
    the globals for the functions of [instagram-functions.js], and the globals
    with the local counters of the loop for [runAction].  A thrown exception
    keeps the state reached and the calls made so far. *)
Definition M (S A : Type) : Type := S -> outcome A * S * list event.

Definition ret {S A} (a : A) : M S A := fun g => (Ok a, g, []).

Definition bind {S A B} (m : M S A) (k : A -> M S B) : M S B :=
  fun g =>
    match m g with
    | (Ok a, g1, t1) => let '(r, g2, t2) := k a g1 in (r, g2, t1 ++ t2)
    | (Throw msg, g1, t1) => (Throw msg, g1, t1)
    | (Pending, g1, t1) => (Pending, g1, t1)
    end.

Notation "'do' x <- m ; k" := (bind m (fun x => k))
  (at level 10, x name, m at level 100, k at level 200).
Notation "'do' ' p <- m ; k" := (bind m (fun p => k))
  (at level 10, p pattern, m at level 100, k at level 200).
Notation "'run' m ; k" := (bind m (fun _ => k))
  (at level 10, m at level 100, k at level 200).

(** [throw new Error(msg)] *)
Definition throw {S A} (msg : string) : M S A := fun g => (Throw msg, g, []).

(** A loop that has not finished on the observations supplied. *)
Definition pending {S A} : M S A := fun g => (Pending, g, []).

(** A call to a collaborator that answers [o]. *)
Definition perform {S A} (e : event) (o : answer A) : M S A :=
  fun g =>
    match o with
    | Returns a => (Ok a, g, [e])
    | Throws msg => (Throw msg, g, [e])
    end.

(** [await sleep(ms)] *)
Definition sleep {S} (ms : Z) : M S unit := fun g => (Ok tt, g, [Sleep ms]).

(** [try { m } catch (error) { h(error.message) }] *)
Definition try_catch {S A} (m : M S A) (h : string -> M S A) : M S A :=
  fun g =>
    match m g with
    | (Throw msg, g1, t1) => let '(r, g2, t2) := h msg g1 in (r, g2, t1 ++ t2)
    | other => other
    end.

Definition get {S} : M S S := fun g => (Ok g, g, []).
Definition put {S} (g : S) : M S unit := fun _ => (Ok tt, g, []).

Definition result_of {S A} (x : outcome A * S * list event) : outcome A := x.1.1.
Definition state_of {S A} (x : outcome A * S * list event) : S := x.1.2.
Definition trace_of {S A} (x : outcome A * S * list event) : list event := x.2.

(** The first selector of the list that the page finds; a selector whose
    lookup throws is passed over:
    [for (const selector of sels) { try { el = await page.$(selector);
       if (el) break; } catch (e) {} }] *)
Fixpoint find_first {S} (sels : list string) (found : string -> answer bool)
    : M S bool :=
  match sels with
  | [] => ret false
  | sel :: rest =>
      do hit <- try_catch (perform (Find sel) (found sel)) (fun _ => ret false);
      if hit then ret true else find_first rest found
  end.

(** [hoare P m Q]: from a state satisfying [P], whatever [m] yields and
    whatever state it leaves satisfy [Q]. *)
Definition hoare {S A} (P : S -> Prop) (m : M S A) (Q : outcome A -> S -> Prop) : Prop :=
  forall s r s' t, P s -> m s = (r, s', t) -> Q r s'.

(* ------------------------------------------------------------------------- *)
(** ** Discovery *)
(* ------------------------------------------------------------------------- *)

(** [resetDiscoveryState]: the liked set is not part of the discovery state
    and is kept. *)
Definition resetDiscoveryState : M globals unit :=
  do g <- get;
  put (mkGlobals (likedPosts g) ∅ false None).

(** [searchCriteria]: either field may be missing or empty. *)
Record criteria := mkCriteria {
  hashtag : option string;
  keywords : option string
}.

(** What the page shows during one round of the scan loop. *)
Record attempt := mkAttempt {
  at_origin : string;                 (* location.origin *)
  at_hrefs : answer (list string);    (* link.href || link.getAttribute('href')
                                         of the anchors whose href contains
                                         /p/ or /reel/, in document order *)
  at_scroll : answer unit;            (* window.scrollTo *)
  at_currentHeight : answer Z;        (* document.body.scrollHeight *)
  at_newHeight : answer Z             (* the same, two seconds later *)
}.

Record discover_world := mkDiscoverWorld {
  dw_goto : answer unit;              (* page.goto(searchUrl) *)
  dw_waitTabs : answer unit;          (* waitForSelector on the tab list *)
  dw_recentTabClicked : answer bool;  (* the evaluate that clicks "Recent" *)
  dw_needsLogin : answer bool;        (* the login-wall check *)
  dw_attempts : list attempt
}.

Definition tags_url (tag : string) : string :=
  "https://www.instagram.com/explore/tags/" +:+ Js.remove_first "#" tag +:+ "/".

(** The [searchUrl] of the criteria; [None] when the source throws. *)
Definition searchUrl_of (c : criteria) : option string :=
  match hashtag c, keywords c with
  | Some (String a h), _ => Some (tags_url (String a h))
  | _, Some (String a k) => Some (tags_url (String a k))
  | _, _ => None
  end.

(** The body of the [page.evaluate] that collects post links. *)
Definition extract_links (origin : string) (hrefs : list string) : list string :=
  take 80
    (List.filter (fun href => negb (Js.includes "/c/" href))
      (List.filter (fun href => negb (Js.includes "/liked_by/" href))
        (omap (fun u =>
                 match clean origin u with
                 | Some (String a href) =>
                     if Js.includes "/p/" (String a href)
                        || Js.includes "/reel/" (String a href)
                     then Some (String a href) else None
                 | _ => None
                 end) hrefs))).

(** [posts.includes(postUrl)] *)
Definition array_includes (x : string) (l : list string) : bool :=
  existsb (Url.string_eqb x) l.

(** [for (const postUrl of newPosts) { if (!posts.includes(postUrl) &&
      !allDiscoveredPosts.has(postUrl) && posts.length < maxPosts) {
      posts.push(postUrl); allDiscoveredPosts.add(postUrl); } }] *)
Fixpoint add_new_posts (maxPosts : Z) (newPosts posts : list string)
    (seen : gset string) : list string * gset string :=
  match newPosts with
  | [] => (posts, seen)
  | postUrl :: rest =>
      if negb (array_includes postUrl posts)
         && negb (bool_decide (postUrl ∈ seen))
         && (Z.of_nat (length posts) <? maxPosts)
      then add_new_posts maxPosts rest (posts ++ [postUrl]) ({[postUrl]} ∪ seen)
      else add_new_posts maxPosts rest posts seen
  end.

Definition maxConsecutiveFailedScrolls : Z := 10.

(** The local variables of the scan loop. *)
Record scan := mkScan {
  posts : list string;
  attempts : Z;
  consecutiveFailedScrolls : Z
}.

(** One round of the body of the scan loop; the flag tells whether the round
    ends in [break]. *)
Definition scan_round (maxPosts : Z) (a : attempt) (s : scan) : M globals (bool * scan) :=
  let attempts' := attempts s + 1 in
  do hrefs <- perform (Read "post links") (at_hrefs a);
  let newPosts := extract_links (at_origin a) hrefs in
  do g <- get;
  let '(posts', seen') :=
    add_new_posts maxPosts newPosts (posts s) (allDiscoveredPosts g) in
  run put (mkGlobals (likedPosts g) seen' (isOnSearchPage g) (currentSearchUrl g));
  if Z.of_nat (length posts') >=? maxPosts then
    ret (true, mkScan posts' attempts' (consecutiveFailedScrolls s))
  else
    run perform (Act "scroll to bottom") (at_scroll a);
    run sleep 3000;
    do currentHeight <- perform (Read "scrollHeight") (at_currentHeight a);
    run sleep 2000;
    do newHeight <- perform (Read "scrollHeight") (at_newHeight a);
    if currentHeight =? newHeight then
      let failed := consecutiveFailedScrolls s + 1 in
      ret (failed >=? maxConsecutiveFailedScrolls, mkScan posts' attempts' failed)
    else ret (false, mkScan posts' attempts' 0).

(** [while (posts.length < maxPosts) { ... }], one [attempt] of the page
    per round. *)
Fixpoint scan_loop (maxPosts : Z) (script : list attempt) (s : scan) : M globals scan :=
  if negb (Z.of_nat (length (posts s)) <? maxPosts) then ret s
  else
    match script with
    | [] => pending
    | a :: script' =>
        do '(stop, s') <- scan_round maxPosts a s;
        if (stop : bool) then ret s' else scan_loop maxPosts script' s'
    end.

Definition option_string_eqb (a b : option string) : bool := bool_decide (a = b).

(** What [discoverInstagramPosts] does up to the scan loop; returns [tt]
    when the loop is reached. *)
Definition discover_preamble (w : discover_world) (searchUrl : string) : M globals unit :=
  do g <- get;
  run (if negb (isOnSearchPage g)
          || negb (option_string_eqb (currentSearchUrl g) (Some searchUrl))
       then
         run perform (Goto searchUrl) (dw_goto w);
         run sleep 3000;
         do g1 <- get;
         put (mkGlobals (likedPosts g1) (allDiscoveredPosts g1) true (Some searchUrl))
       else ret tt);
  run try_catch
        (run perform (WaitFor "div[role=tablist] a, div[role=tablist] button")
               (dw_waitTabs w);
         do recentTabClicked <- perform (Act "click the Recent tab")
                                  (dw_recentTabClicked w);
         if recentTabClicked then sleep 3000 else ret tt)
        (fun _ => ret tt);
  do needsLogin <- perform (Read "login wall") (dw_needsLogin w);
  if needsLogin then throw "Instagram login required for post discovery"
  else ret tt.

Definition discover_scan (w : discover_world) (c : criteria) (maxPosts : Z) : M globals scan :=
  match searchUrl_of c with
  | None => throw "Either hashtag or keywords must be provided"
  | Some searchUrl =>
      run discover_preamble w searchUrl;
      scan_loop maxPosts (dw_attempts w) (mkScan [] 0 0)
  end.

(** [discoverInstagramPosts(page, searchCriteria, maxPosts)] *)
Definition discoverInstagramPosts (w : discover_world) (c : criteria)
    (maxPosts : Z) : M globals (list string) :=
  do s <- discover_scan w c maxPosts;
  ret (posts s).

(** A discovery session: successive calls with no reset in between, each on
    the page it finds.  A call that throws leaves the globals as they were
    when it threw. *)
Record call := mkCall {
  call_world : discover_world;
  call_criteria : criteria;
  call_maxPosts : Z
}.

Fixpoint discover_session (calls : list call) (g : globals)
    : list (outcome (list string)) * globals :=
  match calls with
  | [] => ([], g)
  | c :: rest =>
      let '(r, g1, _) :=
        discoverInstagramPosts (call_world c) (call_criteria c) (call_maxPosts c) g in
      let '(rs, g2) := discover_session rest g1 in
      (r :: rs, g2)
  end.

(** The item identifiers handed to the caller. *)
Definition emitted (r : outcome (list string)) : list string :=
  match r with
  | Ok l => l
  | _ => []
  end.

(** [k] consecutive rounds whose scroll did not change the page height, at
    the head of the script, every page call of which returns. *)
Fixpoint failed_scrolls (k : nat) (script : list attempt) : Prop :=
  match k with
  | O => True
  | S k' =>
      match script with
      | [] => False
      | a :: script' =>
          (exists hrefs h, at_hrefs a = Returns hrefs /\ at_scroll a = Returns tt /\
                           at_currentHeight a = Returns h /\ at_newHeight a = Returns h)
          /\ failed_scrolls k' script'
      end
  end.

(** Every page call of the round returns. *)
Definition attempt_returns (a : attempt) : Prop :=
  (exists hrefs, at_hrefs a = Returns hrefs) /\ at_scroll a = Returns tt /\
  (exists h, at_currentHeight a = Returns h) /\ (exists h, at_newHeight a = Returns h).

(** The script reaches ten consecutive failed scrolls: after some rounds
    that all return, ten rounds in a row leave the height unchanged. *)
Fixpoint exhausts (script : list attempt) : Prop :=
  failed_scrolls 10 script \/
  match script with
  | [] => False
  | a :: script' => attempt_returns a /\ exhausts script'
  end.

(** A listing page that always shows the same three anchors and whose height
    never changes, and a tag search on it. *)
Definition still_attempt : attempt :=
  mkAttempt ig
    (Returns ["https://www.instagram.com/p/A/?img_index=1"; "/p/B/"; "/p/A/";
         "/p/A/liked_by/"; "/explore/"])
    (Returns tt) (Returns 1000) (Returns 1000).

Definition still_world : discover_world :=
  mkDiscoverWorld (Returns tt) (Throws "waiting for selector failed") (Returns false)
    (Returns false) (replicate 10 still_attempt).

Definition cats : criteria := mkCriteria (Some "#cats") None.

(** A criterion with neither a hashtag nor keywords. *)
Definition no_criteria : criteria := mkCriteria None (Some "").

(* ------------------------------------------------------------------------- *)
(** ** Login *)
(* ------------------------------------------------------------------------- *)

(** What a [page.evaluate] callback can see of the document. *)
Record dom := mkDom {
  d_href : string;               (* location.href *)
  d_title : string;              (* document.title *)
  d_has : string -> bool;        (* document.querySelector(selector) !== null *)
  d_text : string -> string      (* its textContent.trim() *)
}.

(** Selectors are written without their inner quotes. *)
Definition loginIndicators : list string :=
  ["svg[aria-label=Home]"; "svg[aria-label=Search]"; "svg[aria-label=New post]";
   "svg[aria-label=Activity Feed]"; "svg[aria-label=Profile]";
   "[data-testid=user-avatar]"; "a[aria-label*=Profile]";
   "a[href*=/accounts/edit/]"; "nav[role=navigation]"; "[role=main]"].

Definition loginFormElements : list string :=
  ["input[name=username]"; "input[name=password]";
   "input[placeholder*=Phone number, username, or email]"].

(** The four signals of the initial check. *)
Definition hasLoginIndicators (d : dom) : bool :=
  (0 <? length (List.filter (d_has d) loginIndicators))%nat.
Definition hasLoginForm (d : dom) : bool :=
  (0 <? length (List.filter (d_has d) loginFormElements))%nat.
Definition onLoginPage (d : dom) : bool := Js.includes "/accounts/login/" (d_href d).
Definition titleIndicatesLogin (d : dom) : bool :=
  Js.includes "Login" (d_title d) || Js.includes "Sign up" (d_title d).

(** [initialLoginCheck.isLoggedIn] *)
Definition initialLoginCheck (d : dom) : bool :=
  if Js.includes "/accounts/login/" (d_href d) then false
  else hasLoginIndicators d && negb (hasLoginForm d) && negb (onLoginPage d)
       && negb (titleIndicatesLogin d).

Definition successIndicators : list string :=
  ["svg[aria-label=Home]"; "[data-testid=user-avatar]"; "a[aria-label*=Profile]";
   "svg[aria-label=Search]"; "svg[aria-label=New post]";
   "a[href*=/accounts/edit/]"; "nav[role=navigation]"; "[role=main]"].

Definition errorSelectors : list string :=
  ["#slfErrorAlert"; "[role=alert]"; "[data-testid=loginForm] div[role=alert]"].

Definition foundErrors (d : dom) : list string :=
  map (d_text d) (List.filter (d_has d) errorSelectors).

Definition stillOnLoginPage (d : dom) : bool :=
  Js.includes "/accounts/login/" (d_href d)
  || d_has d "input[name=username]" || d_has d "input[name=password]".

(** [loginCheckResult.success], the check made after the form is submitted. *)
Definition loginCheckResult (d : dom) : bool :=
  let hasErrors := (0 <? length (foundErrors d))%nat in
  let hasIndicators := (0 <? length (List.filter (d_has d) successIndicators))%nat in
  let notOnLoginPage := negb (stillOnLoginPage d) in
  (hasIndicators || notOnLoginPage) && negb hasErrors.

(** [foundErrors[0] || 'Login detection failed - no success indicators found'] *)
Definition errorText (d : dom) : string :=
  match foundErrors d with
  | String a e :: _ => String a e
  | _ => "Login detection failed - no success indicators found"
  end.

Record login_world := mkLoginWorld {
  lw_url : string;                       (* page.url() *)
  lw_goto_home : answer unit;
  lw_initial : answer dom;               (* the document at the first check *)
  lw_goto_login : answer unit;
  lw_wait_form : answer unit;
  lw_fill : string -> answer unit;       (* clicks and keystrokes on the form *)
  lw_after_submit : answer dom;          (* the document after submission *)
  lw_dismiss : answer unit               (* the "not now" evaluate *)
}.

(** [ensureInstagramLoggedIn(page, { username, password })] *)
Definition ensureInstagramLoggedIn (w : login_world)
    (username password : option string) : M globals bool :=
  try_catch
    (run (if negb (Js.includes "instagram.com" (lw_url w)) then
            run perform (Goto "https://www.instagram.com/") (lw_goto_home w);
            sleep 2000
          else ret tt);
     do d <- perform (Read "login status") (lw_initial w);
     if initialLoginCheck d then ret true
     else if negb (Js.truthy username) || negb (Js.truthy password) then
       throw "Instagram session missing and no credentials provided. Provide username/password or login headfully and save a session."
     else
       run perform (Goto "https://www.instagram.com/accounts/login/") (lw_goto_login w);
       run perform (WaitFor "input[name=username]") (lw_wait_form w);
       run perform (Act "click username") (lw_fill w "click username");
       run perform (Act "type username") (lw_fill w "type username");
       run sleep 300;
       run perform (Act "click password") (lw_fill w "click password");
       run perform (Act "type password") (lw_fill w "type password");
       run sleep 300;
       run perform (Act "click submit") (lw_fill w "click submit");
       run sleep 3000;
       do d' <- perform (Read "login result") (lw_after_submit w);
       if negb (loginCheckResult d') then
         throw ("Instagram login failed: " +:+ errorText d')
       else
         run sleep 1200;
         run perform (Act "click not now") (lw_dismiss w);
         run sleep 1200;
         run perform (Act "click not now") (lw_dismiss w);
         ret true)
    (fun msg => throw msg).

(** The document of a login page that already shows the navigation bar. *)
Definition half_logged_in : dom :=
  mkDom "https://www.instagram.com/accounts/login/" "Login • Instagram"
    (fun sel => Url.string_eqb sel "nav[role=navigation]"
                || Url.string_eqb sel "input[name=username]")
    (fun _ => "").

Definition logged_out : dom :=
  mkDom "https://www.instagram.com/" "Instagram"
    (fun sel => Url.string_eqb sel "input[name=username]") (fun _ => "").

Definition half_login_world : login_world :=
  mkLoginWorld "https://www.instagram.com/" (Returns tt) (Returns logged_out)
    (Returns tt) (Returns tt) (fun _ => Returns tt) (Returns half_logged_in)
    (Returns tt).

(* ------------------------------------------------------------------------- *)
(** ** The favorite action *)
(* ------------------------------------------------------------------------- *)

Record like_world := mkLikeWorld {
  kw_goto : answer unit;
  kw_mediaId : answer (option string);
  kw_alreadyLiked : answer bool;       (* an "Unlike" control is present *)
  kw_headers : answer string;          (* the CSRF token *)
  kw_api1 : answer bool;               (* response.ok of POST .../like/ *)
  kw_api2 : answer bool;               (* response.ok of the other endpoint *)
  kw_button : string -> answer bool;   (* page.$(selector) for the like button *)
  kw_click : answer unit;
  kw_isLiked : answer bool             (* "Unlike" present after the click *)
}.

(** [likedPosts.add(postUrl)] *)
Definition mark_liked (postUrl : string) : M globals unit :=
  do g <- get;
  put (mkGlobals ({[postUrl]} ∪ likedPosts g) (allDiscoveredPosts g)
         (isOnSearchPage g) (currentSearchUrl g)).

(** [a || await b] on element handles. *)
Definition or_else {S} (a : bool) (b : M S bool) : M S bool :=
  if a then ret true else b.

(** Method 3 of [instagramLike]: click the like button and check. *)
Definition like_by_click (w : like_world) (postUrl : string) : M globals bool :=
  try_catch
    (do b1 <- perform (Find "button[aria-label=Like]") (kw_button w "button[aria-label=Like]");
     do b2 <- or_else b1 (perform (Find "[data-testid=like-button]")
                            (kw_button w "[data-testid=like-button]"));
     do likeButton <- or_else b2 (perform (Find "svg[aria-label=Like]")
                                    (kw_button w "svg[aria-label=Like]"));
     if likeButton then
       run perform (Act "click like button") (kw_click w);
       run sleep 3000;
       do isLiked <- perform (Read "unlike control") (kw_isLiked w);
       if isLiked then run mark_liked postUrl; ret true else ret false
     else ret false)
    (fun _ => ret false).

(** [instagramLike(page, postUrl)] *)
Definition instagramLike (w : like_world) (postUrl : string) : M globals bool :=
  do g <- get;
  if bool_decide (postUrl ∈ likedPosts g) then ret true
  else
    try_catch
      (run perform (Goto postUrl) (kw_goto w);
       run sleep 2000;
       do mediaId <- perform (Read "media id") (kw_mediaId w);
       match mediaId with
       | Some (String a id) =>
           do alreadyLiked <- perform (Read "unlike control") (kw_alreadyLiked w);
           if alreadyLiked then run mark_liked postUrl; ret true
           else
             do headers <- perform (Read "csrf token") (kw_headers w);
             do ok1 <- try_catch
                         (perform (Act ("POST /web/likes/" +:+ String a id +:+ "/like/"))
                            (kw_api1 w))
                         (fun _ => ret false);
             if ok1 then run mark_liked postUrl; ret true
             else
               do ok2 <- try_catch
                           (perform (Act ("POST /web/likes/" +:+ String a id +:+ "/"))
                              (kw_api2 w))
                           (fun _ => ret false);
               if ok2 then run mark_liked postUrl; ret true
               else like_by_click w postUrl
       | _ => ret false
       end)
      (fun msg => throw msg).

(** A call that reports success leaves [url] in the liked set. *)
Definition liked_after (url : string) (r : outcome bool) (g : globals) : Prop :=
  r = Ok true -> url ∈ likedPosts g.

(** Requests and clicks that try to set the like. *)
Definition mutation_attempts (t : list event) : nat :=
  length (List.filter (fun e => match e with Act _ => true | _ => false end) t).

(** A post on which every method fails, and one on which the second
    endpoint accepts the request. *)
Definition blocked_like : like_world :=
  mkLikeWorld (Returns tt) (Returns (Some "Cabc")) (Returns false) (Returns "tok")
    (Returns false) (Returns false) (fun _ => Returns false) (Returns tt)
    (Returns false).

Definition second_endpoint_like : like_world :=
  mkLikeWorld (Returns tt) (Returns (Some "Cabc")) (Returns false) (Returns "tok")
    (Returns false) (Returns true) (fun _ => Returns false) (Returns tt)
    (Returns false).

(* ------------------------------------------------------------------------- *)
(** ** The reply action *)
(* ------------------------------------------------------------------------- *)

(** The object returned by [instagramComment]. *)
Record ActionOutcome := mkOutcome {
  success : bool;
  skipped : bool;
  reason : option string;
  postUrl : string
}.

Definition skip_outcome (url : string) : ActionOutcome :=
  mkOutcome false true (Some "Already commented on this post") url.
Definition failure_outcome (why url : string) : ActionOutcome :=
  mkOutcome false false (Some why) url.
Definition success_outcome (url : string) : ActionOutcome :=
  mkOutcome true false None url.

Definition commentSelectors : list string :=
  ["textarea[placeholder*=comment i]"; "textarea[aria-label*=comment i]";
   "textarea[placeholder*=Add a comment]"; "textarea[aria-label*=Add a comment]";
   "textarea"; "input[placeholder*=comment i]"; "input[aria-label*=comment i]"].

Definition additionalSelectors : list string :=
  ["button[type=submit]"; "button[data-testid=post-button]";
   "button[data-testid=comment-button]"; "button[aria-label*=Post]";
   "button[aria-label*=Comment]"; "div[role=button][aria-label*=Post]";
   "div[role=button][aria-label*=Comment]"].

Record comment_world := mkCommentWorld {
  cw_cache : answer bool;                  (* hasMyCommentAndCache *)
  cw_goto : answer unit;
  cw_loginWall : answer bool;
  cw_input : string -> answer bool;        (* page.$ for the input *)
  cw_scroll : answer unit;
  cw_input_scrolled : string -> answer bool;
  cw_focus : answer unit;                  (* commentInput.click() *)
  cw_clear : answer unit;
  cw_type : answer unit;
  cw_typedText : answer string;            (* the value read back *)
  cw_retype : answer unit;                 (* clear and type again *)
  cw_submit : answer bool;                 (* button[type=submit] *)
  cw_ariaPost : answer bool;
  cw_ariaComment : answer bool;
  cw_textButton : answer bool;             (* a button whose text has post/comment *)
  cw_availableButtons : answer unit;
  cw_additional : string -> answer bool;
  cw_nearInput : answer bool;              (* a visible button next to the input *)
  cw_pressEnter : answer unit;
  cw_postedAfterEnter : answer bool;
  cw_clickPost : answer unit;
  cw_posted : answer bool                  (* the reply text is among rendered
                                              content after the click *)
}.

(** Steps 3 and 4: locate the input (scrolling once if needed), type, read
    back and retype once on mismatch.  Returns whether an input was found. *)
Definition enter_comment (w : comment_world) (comment : string) : M globals bool :=
  do found <- find_first commentSelectors (cw_input w);
  do commentInput <-
    (if found then ret true
     else
       run perform (Act "scrollBy 500") (cw_scroll w);
       run sleep 1000;
       find_first commentSelectors (cw_input_scrolled w));
  if negb commentInput then ret false
  else
    run perform (Act "click comment input") (cw_focus w);
    run sleep 500;
    run perform (Act "clear comment input") (cw_clear w);
    run sleep 300;
    run perform (Act "type comment") (cw_type w);
    run sleep 1000;
    do typedText <- perform (Read "comment input value") (cw_typedText w);
    run (if negb (Url.string_eqb typedText comment) then
           run perform (Act "clear comment input") (cw_retype w);
           run sleep 300;
           run perform (Act "type comment") (cw_retype w);
           sleep 1000
         else ret tt);
    ret true.

(** Step 5 without the key press: is there a post button? *)
Definition find_post_button (w : comment_world) : M globals bool :=
  do b1 <- perform (Find "button[type=submit]") (cw_submit w);
  do b2 <- or_else b1 (perform (Find "button[aria-label*=Post]") (cw_ariaPost w));
  do b3 <- or_else b2 (perform (Find "button[aria-label*=Comment]") (cw_ariaComment w));
  do b4 <- or_else b3 (perform (Find "button with text post or comment")
                         (cw_textButton w));
  do b5 <- or_else b4
             (run perform (Read "available buttons") (cw_availableButtons w);
              find_first additionalSelectors (cw_additional w));
  or_else b5 (perform (Find "visible button near the comment input") (cw_nearInput w)).

(** The end of the function when a post button was found: click it, then
    look for the reply text among the rendered content. *)
Definition click_and_verify (w : comment_world) (url : string) : M globals ActionOutcome :=
  run perform (Act "click post button") (cw_clickPost w);
  run sleep 2000;
  do commentPosted <- perform (Read "reply text among rendered content")
                        (cw_posted w);
  if commentPosted then ret (success_outcome url)
  else (* "Comment verification failed, but assuming success" *)
    ret (success_outcome url).

(** The end of the function when no post button was found: press Enter and
    look for the reply text. *)
Definition press_enter_and_verify (w : comment_world) (url : string)
    : M globals ActionOutcome :=
  do posted <- try_catch
                 (run perform (Act "press Enter") (cw_pressEnter w);
                  run sleep 2000;
                  perform (Read "reply text among rendered content")
                    (cw_postedAfterEnter w))
                 (fun _ => ret false);
  if posted then ret (success_outcome url)
  else ret (failure_outcome "Post button not found" url).

(** The body of the [try] block of [instagramComment]. *)
Definition comment_body (w : comment_world) (url comment : string)
    (username : option string) (skipNavigation : bool) : M globals ActionOutcome :=
  do alreadyCommented <- perform (CacheLookup username url) (cw_cache w);
  if alreadyCommented then ret (skip_outcome url)
  else
    run (if negb skipNavigation then
           run perform (Goto url) (cw_goto w); sleep 3000
         else sleep 1000);
    do loginWall <- perform (Read "login wall") (cw_loginWall w);
    run sleep 2000;
    do commentInput <- enter_comment w comment;
    if negb commentInput then ret (failure_outcome "Comment input field not found" url)
    else
      do postButton <- find_post_button w;
      if negb postButton then press_enter_and_verify w url
      else click_and_verify w url.

(** [instagramComment(page, postUrl, comment, username, skipNavigation)],
    lines 674-975. *)
Definition instagramComment (w : comment_world) (url comment : string)
    (username : option string) (skipNavigation : bool) : M globals ActionOutcome :=
  try_catch (comment_body w url comment username skipNavigation)
    (fun msg => ret (failure_outcome msg url)).

(** The same world with another answer to the final verification. *)
Definition with_posted (w : comment_world) (a : answer bool) : comment_world :=
  mkCommentWorld (cw_cache w) (cw_goto w) (cw_loginWall w) (cw_input w)
    (cw_scroll w) (cw_input_scrolled w) (cw_focus w) (cw_clear w) (cw_type w)
    (cw_typedText w) (cw_retype w) (cw_submit w) (cw_ariaPost w)
    (cw_ariaComment w) (cw_textButton w) (cw_availableButtons w)
    (cw_additional w) (cw_nearInput w) (cw_pressEnter w)
    (cw_postedAfterEnter w) (cw_clickPost w) a.

(** A post page on which everything works, except that the reply never shows
    up among the rendered content. *)
Definition unverified_comment : comment_world :=
  mkCommentWorld (Returns false) (Returns tt) (Returns false)
    (fun sel => Returns (Url.string_eqb sel "textarea")) (Returns tt)
    (fun _ => Returns false) (Returns tt) (Returns tt) (Returns tt)
    (Returns "Nice shot") (Returns tt) (Returns true) (Returns false)
    (Returns false) (Returns false) (Returns tt) (fun _ => Returns false)
    (Returns false) (Returns tt) (Returns false) (Returns tt) (Returns false).

(** A post the account has already replied to. *)
Definition already_commented : comment_world :=
  mkCommentWorld (Returns true) (Returns tt) (Returns false)
    (fun _ => Returns true) (Returns tt) (fun _ => Returns true) (Returns tt)
    (Returns tt) (Returns tt) (Returns "Nice shot") (Returns tt) (Returns true)
    (Returns true) (Returns true) (Returns true) (Returns tt)
    (fun _ => Returns true) (Returns true) (Returns tt) (Returns true)
    (Returns tt) (Returns true).

(** *** The other listing of [instagramComment] (lines 1705-1946) *)
Module Legacy.

Record world := mkWorld {
  lc_cache : answer bool;
  lc_goto : answer unit;
  lc_loginWall : answer bool;
  lc_input : string -> answer bool;
  lc_scroll : answer unit;
  lc_input_scrolled : string -> answer bool;
  lc_focus : answer unit;
  lc_type : answer unit;
  lc_submit : answer bool;               (* button[type=submit] *)
  lc_clickSubmit : answer unit;
  lc_postByText : answer bool;           (* the evaluate that clicks "post" *)
  lc_pressEnter : answer unit;
  lc_verification : answer (bool * bool) (* inputCleared, commentFound *)
}.

(** [for (const selector of submitSelectors) { try { const submitBtn =
      await page.$(selector); if (submitBtn) { await submitBtn.click();
      submitted = true; break; } } catch (e) {} }] with its one selector. *)
Definition click_submit (w : world) : M globals bool :=
  try_catch
    (do submitBtn <- perform (Find "button[type=submit]") (lc_submit w);
     if submitBtn then
       run perform (Act "click submit button") (lc_clickSubmit w); ret true
     else ret false)
    (fun _ => ret false).

(** The verification that ends the function. *)
Definition verify (w : world) (url comment : string) : M globals ActionOutcome :=
  do '(inputCleared, commentFound) <-
    perform (Read "input cleared or reply text among comments") (lc_verification w);
  if inputCleared || commentFound then ret (mkOutcome true false None url)
  else throw "Comment verification failed - comment may not have been posted".

Definition body (w : world) (url comment : string)
    (username : option string) (skipNavigation : bool) : M globals ActionOutcome :=
  do alreadyCommented <- perform (CacheLookup username url) (lc_cache w);
  if alreadyCommented then ret (skip_outcome url)
  else
    run (if negb skipNavigation then
           run perform (Goto url) (lc_goto w); sleep 3000
         else sleep 1000);
    do loginWall <- perform (Read "login wall") (lc_loginWall w);
    run sleep 2000;
    do found <- find_first commentSelectors (lc_input w);
    do commentInput <-
      (if found then ret true
       else
         run perform (Act "scrollBy 500") (lc_scroll w);
         run sleep 2000;
         find_first commentSelectors (lc_input_scrolled w));
    if negb commentInput then throw "Comment input field not found"
    else
      run perform (Act "click comment input") (lc_focus w);
      run sleep 1000;
      run perform (Act "type comment") (lc_type w);
      run sleep 1000;
      do submitted <- click_submit w;
      do submitted' <- or_else submitted
                         (perform (Act "click the button whose text is post")
                            (lc_postByText w));
      run (if negb submitted' then perform (Act "press Enter") (lc_pressEnter w)
           else ret tt);
      run sleep 3000;
      verify w url comment.

(** [instagramComment] of the other listing: [catch (error) { throw error; }]. *)
Definition instagramComment (w : world) (url comment : string)
    (username : option string) (skipNavigation : bool) : M globals ActionOutcome :=
  try_catch (body w url comment username skipNavigation)
    (fun msg => throw msg).

(** Everything works, but neither verification signal is observed. *)
Definition legacy_unverified : world :=
  mkWorld (Returns false) (Returns tt) (Returns false)
    (fun sel => Returns (Url.string_eqb sel "textarea")) (Returns tt)
    (fun _ => Returns false) (Returns tt) (Returns tt) (Returns true)
    (Returns tt) (Returns false) (Returns tt) (Returns (false, false)).

(** Everything works and the input is found cleared afterwards. *)
Definition legacy_cleared : world :=
  mkWorld (Returns false) (Returns tt) (Returns false)
    (fun sel => Returns (Url.string_eqb sel "textarea")) (Returns tt)
    (fun _ => Returns false) (Returns tt) (Returns tt) (Returns true)
    (Returns tt) (Returns false) (Returns tt) (Returns (true, false)).

End Legacy.

(** The function returns an outcome, and an outcome that is not a success
    carries a reason. *)
Definition reasoned (r : outcome ActionOutcome) : Prop :=
  match r with
  | Ok res => success res = false -> is_Some (reason res)
  | _ => False
  end.

(** The computation does not stay pending. *)
Definition settles {A} (r : outcome A) : Prop :=
  match r with
  | Pending => False
  | _ => True
  end.

(* ------------------------------------------------------------------------- *)
(** ** The auto-comment loop of [runAction] *)
(* ------------------------------------------------------------------------- *)

(** The options of [runAction] that the loop reads. *)
Record options := mkOptions {
  maxPosts : Z;
  username : option string;
  comment : option string;
  useAI : bool;
  likePost : bool;
  finalSearchCriteria : criteria
}.

(** The globals of [instagram-functions.js] and the local counters of the
    loop. *)
Record run_state := mkRun {
  rs_globals : globals;
  successfulComments : Z;
  attempts_made : Z;                  (* [attempts] *)
  consecutiveEmptyBatches : Z
}.

(** A function of [instagram-functions.js] called from the loop. *)
Definition lift {A} (m : M globals A) : M run_state A :=
  fun st =>
    let '(r, g, t) := m (rs_globals st) in
    (r, mkRun g (successfulComments st) (attempts_made st)
          (consecutiveEmptyBatches st), t).

Definition set_successful (n : Z) : M run_state unit :=
  do st <- get;
  put (mkRun (rs_globals st) n (attempts_made st) (consecutiveEmptyBatches st)).
Definition set_attempts (n : Z) : M run_state unit :=
  do st <- get;
  put (mkRun (rs_globals st) (successfulComments st) n (consecutiveEmptyBatches st)).
Definition set_empty_batches (n : Z) : M run_state unit :=
  do st <- get;
  put (mkRun (rs_globals st) (successfulComments st) (attempts_made st) n).

(** What the collaborators answer while one post is processed. *)
Record item_world := mkItemWorld {
  iw_reportProcessing : answer unit;    (* reportProgress, status processing *)
  iw_content_goto : answer unit;        (* getPostContent: page.goto *)
  iw_content_text : answer string;      (* getPostContent: the text found *)
  iw_hasVideo : answer bool;
  iw_cache : answer bool;               (* hasMyCommentAndCache *)
  iw_ai : answer string;                (* generateAIComment *)
  iw_like : like_world;
  iw_comment : comment_world;
  iw_reportSuccess : answer unit;       (* reportProgress, status success *)
  iw_delay : Z                          (* Math.random() * 3000 + 2000 *)
}.

(** What one round of the [while] loop meets: the listing page, and the
    page of each post. *)
Record batch_world := mkBatchWorld {
  bw_discover : discover_world;
  bw_item : string -> item_world
}.

(** [getPostContent(page, postUrl, platform)]: any error yields ['']. *)
Definition getPostContent (iw : item_world) (url : string) : M globals string :=
  try_catch
    (run perform (Goto url) (iw_content_goto iw);
     run sleep 2000;
     perform (Read "post text") (iw_content_text iw))
    (fun _ => ret EmptyString).

Definition default_comment : string := "Great post! 👍".

(** [comment || 'Great post! ...'] *)
Definition manual_comment (o : options) : string :=
  match comment o with
  | Some (String a c) => String a c
  | _ => default_comment
  end.

Definition mentions_video (content : string) : bool :=
  let lower := Js.toLowerCase content in
  Js.includes "video" lower || Js.includes "watch" lower || Js.includes "play" lower.

(** What the body of the inner [try] decides for the [for] loop. *)
Inductive step := Continue | Break.

(** The body of the inner [try] of the [for] loop. *)
Definition item_body (o : options) (iw : item_world) (url : string) : M run_state step :=
  do instagramPostContent <- lift (getPostContent iw url);
  let wordCount := Js.count_words false instagramPostContent in
  if wordCount <? 3 then ret Continue
  else
    do hasVideo <- (if mentions_video instagramPostContent
                    then perform (Read "video element") (iw_hasVideo iw)
                    else ret false);
    if hasVideo then ret Continue
    else
      do alreadyCommented <- perform (CacheLookup (username o) url) (iw_cache iw);
      if alreadyCommented then ret Continue
      else
        do finalComment <-
          (if useAI o && (0 <? wordCount) then
             try_catch (perform (Generate instagramPostContent) (iw_ai iw))
               (fun _ => ret (manual_comment o))
           else ret (manual_comment o));
        do likedSuccessfully <-
          (if likePost o then
             try_catch (lift (instagramLike (iw_like iw) url)) (fun _ => ret false)
           else ret false);
        do commentResult <-
          lift (instagramComment (iw_comment iw) url finalComment (username o)
                  likedSuccessfully);
        if skipped commentResult then ret Continue
        else if negb (success commentResult) then ret Continue
        else
          do st <- get;
          run set_successful (successfulComments st + 1);
          run perform (Report "success" (successfulComments st + 1))
                (iw_reportSuccess iw);
          if successfulComments st + 1 >=? maxPosts o then ret Break
          else
            run sleep (iw_delay iw);
            ret Continue.

(** One iteration of the [for] loop, after its first line. *)
Definition process_item (o : options) (iw : item_world) (url : string) : M run_state step :=
  do st <- get;
  run set_attempts (attempts_made st + 1);
  run perform (Report "processing" (successfulComments st)) (iw_reportProcessing iw);
  try_catch (item_body o iw url) (fun _ => ret Continue).

(** [for (const postUrl of posts) { if (successfulComments >= maxPosts)
      break; ... }] *)
Fixpoint process_posts (o : options) (item : string -> item_world)
    (posts : list string) : M run_state unit :=
  match posts with
  | [] => ret tt
  | url :: rest =>
      do st <- get;
      if successfulComments st >=? maxPosts o then ret tt
      else
        do s <- process_item o (item url) url;
        match s with
        | Break => ret tt
        | Continue => process_posts o item rest
        end
  end.

Definition maxConsecutiveEmptyBatches : Z := 5.

(** [Math.min(10, maxPosts * 2)] *)
Definition batchSize (o : options) : Z := Z.min 10 (maxPosts o * 2).

(** The exit of the [while] loop that is taken. *)
Inductive stop_reason :=
| TargetReached                       (* successfulComments >= maxPosts *)
| ContentExhausted                    (* five consecutive empty batches *)
| BatchError (msg : string).          (* the [catch] of the outer [try] *)

(** The body of the outer [try]; [None] when the loop goes on. *)
Definition batch_body (o : options) (bw : batch_world) : M run_state (option stop_reason) :=
  do posts <- lift (discoverInstagramPosts (bw_discover bw) (finalSearchCriteria o)
                      (batchSize o));
  if (length posts =? 0)%nat then
    do st <- get;
    run set_empty_batches (consecutiveEmptyBatches st + 1);
    if consecutiveEmptyBatches st + 1 >=? maxConsecutiveEmptyBatches
    then ret (Some ContentExhausted)
    else ret None
  else
    run set_empty_batches 0;
    run process_posts o (bw_item bw) posts;
    do st <- get;
    if successfulComments st >=? maxPosts o then ret (Some TargetReached)
    else ret None.

(** One round of the [while] loop. *)
Definition batch_round (o : options) (bw : batch_world) : M run_state (option stop_reason) :=
  try_catch (batch_body o bw) (fun msg => ret (Some (BatchError msg))).

(** [while (successfulComments < maxPosts) { ... }], one [batch_world] per
    round. *)
Fixpoint batch_loop (o : options) (script : list batch_world) : M run_state stop_reason :=
  do st <- get;
  if negb (successfulComments st <? maxPosts o) then ret TargetReached
  else
    match script with
    | [] => pending
    | bw :: script' =>
        do r <- batch_round o bw;
        match r with
        | Some why => ret why
        | None => batch_loop o script'
        end
    end.

(** The [auto-comment] branch of [runAction], from [resetDiscoveryState] to
    the end of the loop. *)
Definition runAction_auto_comment (o : options) (report_start : answer unit)
    (script : list batch_world) : M run_state stop_reason :=
  run lift resetDiscoveryState;
  run perform (Report "searching" 0) report_start;
  run set_successful 0;
  run set_attempts 0;
  run set_empty_batches 0;
  batch_loop o script.

(** The state of a run that starts. *)
Definition initial_run : run_state := mkRun initial_globals 0 0 0.

(** The state reached after [n] successful replies. *)
Definition run_after (n : Z) : run_state := mkRun initial_globals n n 0.

(** A collaborator call of the round throws [msg] outside the per-item
    handler: the Discoverer, entered with globals [g], or the progress
    reporter when a post starts being processed. *)
Definition collaborator_throws (o : options) (bw : batch_world) (g : globals)
    (msg : string) : Prop :=
  result_of (discoverInstagramPosts (bw_discover bw) (finalSearchCriteria o)
               (batchSize o) g) = Throw msg
  \/ exists url, iw_reportProcessing (bw_item bw url) = Throws msg.

(** The Discoverer, entered with globals [g], hands out a non-empty batch. *)
Definition batch_not_empty (o : options) (bw : batch_world) (g : globals) : Prop :=
  exists url posts,
    result_of (discoverInstagramPosts (bw_discover bw) (finalSearchCriteria o)
                 (batchSize o) g) = Ok (url :: posts).

(** What justifies leaving the loop in state [st'] for the reason [why]. *)
Definition stop_justified (o : options) (script : list batch_world)
    (why : stop_reason) (st' : run_state) : Prop :=
  match why with
  | TargetReached => successfulComments st' = maxPosts o
  | ContentExhausted =>
      consecutiveEmptyBatches st' = 5 /\ successfulComments st' < maxPosts o
  | BatchError msg =>
      successfulComments st' < maxPosts o /\
      exists bw g, bw ∈ script /\ collaborator_throws o bw g msg
  end.

(** The reply to [url] was counted: the orchestrator's own cache lookup said
    no, and [instagramComment] returned a success that is not a skip. *)
Definition counted (o : options) (iw : item_world) (url : string) : Prop :=
  iw_cache iw = Returns false /\
  exists finalComment liked g res,
    result_of (instagramComment (iw_comment iw) url finalComment (username o)
                 liked g) = Ok res /\
    success res = true /\ skipped res = false.

(** What processing one post does to the counters, from [n] successes and
    [c] consecutive empty batches. *)
Definition item_post (o : options) (iw : item_world) (url : string) (n c : Z)
    (r : outcome step) (st' : run_state) : Prop :=
  consecutiveEmptyBatches st' = c /\
  (successfulComments st' = n \/
   (successfulComments st' = n + 1 /\ counted o iw url)) /\
  (r = Ok Break -> successfulComments st' = maxPosts o).

(** One iteration of the [for] loop: an exception that escapes it comes from
    the progress reporter and leaves the counters as they were. *)
Definition process_post (o : options) (iw : item_world) (url : string) (n c : Z)
    (r : outcome step) (st' : run_state) : Prop :=
  match r with
  | Throw msg =>
      iw_reportProcessing iw = Throws msg /\
      successfulComments st' = n /\ consecutiveEmptyBatches st' = c
  | _ => item_post o iw url n c r st'
  end.

(** The whole [for] loop over [posts], from [n] successes. *)
Definition posts_post (o : options) (item : string -> item_world)
    (posts : list string) (n c : Z) (r : outcome unit) (st' : run_state) : Prop :=
  consecutiveEmptyBatches st' = c /\
  n <= successfulComments st' <= maxPosts o /\
  (successfulComments st' <> n ->
   exists url, url ∈ posts /\ counted o (item url) url) /\
  (forall msg, r = Throw msg ->
     successfulComments st' < maxPosts o /\
     exists url, iw_reportProcessing (item url) = Throws msg).

(** One round of the [while] loop entered in state [st0]. *)
Definition round_post (o : options) (bw : batch_world) (st0 : run_state)
    (r : outcome (option stop_reason)) (st' : run_state) : Prop :=
  match r with
  | Ok None =>
      successfulComments st0 <= successfulComments st' < maxPosts o /\
      0 <= consecutiveEmptyBatches st' < 5
  | Ok (Some TargetReached) => successfulComments st' = maxPosts o
  | Ok (Some ContentExhausted) =>
      consecutiveEmptyBatches st' = 5 /\
      successfulComments st' = successfulComments st0 /\
      result_of (discoverInstagramPosts (bw_discover bw) (finalSearchCriteria o)
                   (batchSize o) (rs_globals st0)) = Ok []
  | Ok (Some (BatchError msg)) =>
      successfulComments st' < maxPosts o /\
      collaborator_throws o bw (rs_globals st0) msg
  | Throw _ => False
  | Pending => True
  end.

(** The same for the body of the outer [try]. *)
Definition body_post (o : options) (bw : batch_world) (st0 : run_state)
    (r : outcome (option stop_reason)) (st' : run_state) : Prop :=
  match r with
  | Ok (Some (BatchError _)) => False
  | Throw msg =>
      successfulComments st' < maxPosts o /\
      collaborator_throws o bw (rs_globals st0) msg
  | _ => round_post o bw st0 r st'
  end.

(** *** Sample runs *)

(** A listing that shows no post and never grows. *)
Definition empty_listing : discover_world :=
  mkDiscoverWorld (Returns tt) (Throws "waiting for selector failed") (Returns false)
    (Returns false)
    (replicate 10 (mkAttempt ig (Returns []) (Returns tt) (Returns 800) (Returns 800))).

(** A listing behind a login wall. *)
Definition walled_listing : discover_world :=
  mkDiscoverWorld (Returns tt) (Returns tt) (Returns false) (Returns true) [].

(** A listing that shows eight posts at once. *)
Definition wide_listing : discover_world :=
  mkDiscoverWorld (Returns tt) (Returns tt) (Returns true) (Returns false)
    [mkAttempt ig
       (Returns ["/p/1/"; "/p/2/"; "/p/3/"; "/p/4/"; "/p/5/"; "/p/6/"; "/p/7/"; "/p/8/"])
       (Returns tt) (Returns 900) (Returns 1800)].

(** A post with a caption, on which the reply goes through. *)
Definition good_item : item_world :=
  mkItemWorld (Returns tt) (Returns tt) (Returns "what a lovely sunset tonight")
    (Returns false) (Returns false) (Throws "OpenAI API key not configured")
    blocked_like unverified_comment (Returns tt) 2500.

(** A post without text: it is passed over. *)
Definition bare_item : item_world :=
  mkItemWorld (Returns tt) (Returns tt) (Returns "") (Returns false) (Returns false)
    (Throws "OpenAI API key not configured") blocked_like unverified_comment
    (Returns tt) 2500.

(** A post the account has already replied to, as [instagramComment] finds
    out. *)
Definition replied_item : item_world :=
  mkItemWorld (Returns tt) (Returns tt) (Returns "what a lovely sunset tonight")
    (Returns false) (Returns false) (Throws "OpenAI API key not configured")
    blocked_like already_commented (Returns tt) 2500.

Definition target (n : Z) : options :=
  mkOptions n (Some "me") (Some "Nice shot") false false cats.

Definition empty_batch : batch_world := mkBatchWorld empty_listing (fun _ => good_item).
Definition walled_batch : batch_world := mkBatchWorld walled_listing (fun _ => good_item).
Definition good_batch : batch_world := mkBatchWorld wide_listing (fun _ => good_item).
Definition bare_batch : batch_world := mkBatchWorld wide_listing (fun _ => bare_item).
(* ------------------------------------------------------------------------- *)
(** ** Specifications that mention the calls made *)
(* ------------------------------------------------------------------------- *)

(** [hoare_t P m Q]: [P] and [Q] also see the collaborator calls made so
    far, those made before [m] starts included. *)
Definition hoare_t {S A} (P : S -> list event -> Prop) (m : M S A)
    (Q : outcome A -> S -> list event -> Prop) : Prop :=
  forall s t0 r s' t, P s t0 -> m s = (r, s', t) -> Q r s' (t0 ++ t).

(** [preserves I m]: [I] holds when [m] ends, however it ends, if it held
    when [m] started. *)
Definition preserves {S A} (I : S -> list event -> Prop) (m : M S A) : Prop :=
  hoare_t I m (fun _ => I).

Definition is_goto (e : event) : bool :=
  match e with Goto _ => true | _ => false end.
Definition is_act (e : event) : bool :=
  match e with Act _ => true | _ => false end.
Definition is_cache_lookup (e : event) : bool :=
  match e with CacheLookup _ _ => true | _ => false end.
Definition is_generate (e : event) : bool :=
  match e with Generate _ => true | _ => false end.

(** The filters of the link collection, on a cleaned link. *)
Definition is_post_link (href : string) : bool :=
  (Js.includes "/p/" href || Js.includes "/reel/" href)
  && negb (Js.includes "/liked_by/" href) && negb (Js.includes "/c/" href).

(** Where the identifiers collected by the scan come from. *)
Definition from_listing (script : list attempt) (x : string) : Prop :=
  is_post_link x = true /\
  exists a hrefs href,
    a ∈ script /\ at_hrefs a = Returns hrefs /\ href ∈ hrefs /\
    clean (at_origin a) href = Some x.

(** The same listing with other answers around the tab list. *)
Definition with_tabs (w : discover_world) (waitTabs : answer unit)
    (recentTabClicked : answer bool) : discover_world :=
  mkDiscoverWorld (dw_goto w) waitTabs recentTabClicked (dw_needsLogin w)
    (dw_attempts w).

(** The body of the [page.evaluate] that clicks the "Recent" tab, on the
    [textContent] of the tabs in document order: the index of the tab that is
    clicked, if any.
    [for (const tab of tabs) { const text = (tab.textContent || '')
       .toLowerCase(); if (text.includes('recent') || text.includes('latest')
       || tabs.indexOf(tab) === 1) { tab.click(); return true; } }] *)
Fixpoint recent_tab_loop (i : nat) (tabs : list string) : option nat :=
  match tabs with
  | [] => None
  | tab :: rest =>
      let text := Js.toLowerCase tab in
      if Js.includes "recent" text || Js.includes "latest" text || (i =? 1)%nat
      then Some i
      else recent_tab_loop (S i) rest
  end.

(** The whole callback: after the loop,
    [if (tabs.length >= 2) { tabs[1].click(); return true; } return false;] *)
Definition recentTab (tabs : list string) : option nat :=
  match recent_tab_loop 0 tabs with
  | Some i => Some i
  | None => if (2 <=? length tabs)%nat then Some 1%nat else None
  end.

(** The options with another setting of [useAI] or of [likePost]. *)
Definition with_useAI (o : options) (b : bool) : options :=
  mkOptions (maxPosts o) (username o) (comment o) b (likePost o)
    (finalSearchCriteria o).
Definition with_likePost (o : options) (b : bool) : options :=
  mkOptions (maxPosts o) (username o) (comment o) (useAI o) b
    (finalSearchCriteria o).

(** The listing is the one the page is already on. *)
Definition on_listing (g : globals) (u : string) : bool :=
  isOnSearchPage g && option_string_eqb (currentSearchUrl g) (Some u).


(** The number of progress reports with the given status among the calls. *)
Definition reports (status : string) (t : list event) : Z :=
  Z.of_nat (length (List.filter
                      (fun e => match e with
                                | Report s _ => Url.string_eqb s status
                                | _ => false
                                end) t)).

(** The counters of the loop agree with the progress reports made. *)
Definition counters_match (st : run_state) (t : list event) : Prop :=
  attempts_made st = reports "processing" t /\
  successfulComments st = reports "success" t.



Definition is_report (e : event) : bool :=
  match e with Report _ _ => true | _ => false end.

(** [m] reports no progress: whatever holds of the calls made and is not
    affected by calls other than progress reports still holds after [m]. *)
Definition report_free {S A} (m : M S A) : Prop :=
  forall P : list event -> Prop,
    (forall e t, is_report e = false -> P t -> P (t ++ [e])) ->
    preserves (fun _ t => P t) m.

(** The invariant of the loop: the counters agree with the reports and no
    more replies are counted than posts were processed. *)
Definition loop_inv (st : run_state) (t : list event) : Prop :=
  counters_match st t /\ 0 <= successfulComments st <= attempts_made st.

(** The same while a post is being processed, before its reply is
    counted. *)
Definition item_inv (st : run_state) (t : list event) : Prop :=
  counters_match st t /\ 0 <= successfulComments st < attempts_made st.

(** The liked set is [L]. *)
Definition liked_is (L : gset string) (st : run_state) (t : list event) : Prop :=
  likedPosts (rs_globals st) = L.

(* ------------------------------------------------------------------------- *)
(** ** [bot.js]: sessions, the browser and the action runner *)
(* ------------------------------------------------------------------------- *)

(** [s.trimStart()], [s.trimEnd()] and [s.trim()] on ASCII blanks. *)
Fixpoint trimStart (s : string) : string :=
  match s with
  | EmptyString => EmptyString
  | String c s' => if Js.is_space c then trimStart s' else s
  end.

Fixpoint trimEnd (s : string) : string :=
  match s with
  | EmptyString => EmptyString
  | String c s' =>
      match trimEnd s' with
      | EmptyString => if Js.is_space c then EmptyString else String c EmptyString
      | rest => String c rest
      end
  end.

Definition trim (s : string) : string := trimEnd (trimStart s).

(** [s.substring(n)] *)
Fixpoint substring_from (n : nat) (s : string) : string :=
  match n, s with
  | O, _ => s
  | S n', String _ s' => substring_from n' s'
  | S _, EmptyString => EmptyString
  end.

(** *** The state of [bot.js] and of what it calls *)

(** What a session file holds. *)
Record session_data := mkSession {
  sd_cookies : list string;
  sd_localStorage : list (string * string);
  sd_sessionStorage : list (string * string);
  sd_assistantId : option string;          (* metadata.assistantId *)
  sd_savedAt : string;                     (* metadata.savedAt *)
  sd_platform : string                     (* metadata.platform *)
}.

(** The content of a file: the JSON text of a session, which [JSON.parse]
    turns back into the session that [JSON.stringify] was given, or a text
    that [JSON.parse] rejects. *)
Inductive file :=
| SessionFile (d : session_data)
| Unparsable.

(** Calls to the browser launcher, the file system and the OpenAI client. *)
Inductive bot_call :=
| Launch (headless : bool)            (* puppeteer.launch *)
| NewPage                             (* browser.newPage *)
| Setup (what : string)               (* setUserAgent, setViewport, ... *)
| CloseBrowser                        (* browser.close *)
| Mkdir (dir : string)
| ReadFile (path : string)
| WriteFile (path : string)
| Unlink (path : string)
| OpenAI (what : string).

(** The module globals of [instagram-functions.js] and of [bot.js], the
    session files, and the calls of the kinds above made so far, in order. *)
Record bot_state := mkBot {
  bs_ig : globals;
  globalBrowser : bool;                    (* globalBrowser !== null *)
  files : gmap string file;
  calls : list bot_call
}.

(** A function of [instagram-functions.js] called from [bot.js]. *)
Definition on_page {A} (m : M globals A) : M bot_state A :=
  fun s =>
    let '(r, g, t) := m (bs_ig s) in
    (r, mkBot g (globalBrowser s) (files s) (calls s), t).

(** A call [c] that answers [o]. *)
Definition external {A} (c : bot_call) (o : answer A) : M bot_state A :=
  fun s =>
    let s' := mkBot (bs_ig s) (globalBrowser s) (files s) (calls s ++ [c]) in
    match o with
    | Returns a => (Ok a, s', [])
    | Throws msg => (Throw msg, s', [])
    end.

(** [try { m } catch ... finally { f }] after the [catch]: [f] runs however
    [m] ended, and an exception of [f] replaces the result of [m]. *)
Definition finally {S A} (m : M S A) (f : M S unit) : M S A :=
  fun s =>
    let '(r, s1, t1) := m s in
    match r with
    | Pending => (Pending, s1, t1)
    | _ =>
        let '(rf, s2, t2) := f s1 in
        (match rf with
         | Ok _ => r
         | Throw msg => Throw msg
         | Pending => Pending
         end, s2, t1 ++ t2)
    end.

(** [fs.readFile(path, 'utf8')]: a missing file is an exception. *)
Definition readFile (path : string) : M bot_state file :=
  do s <- get;
  external (ReadFile path)
    (match files s !! path with
     | Some f => Returns f
     | None => Throws ("ENOENT: no such file or directory, open " +:+ path)
     end).

(** [JSON.parse(text)] *)
Definition parse (f : file) : M bot_state session_data :=
  match f with
  | SessionFile d => ret d
  | Unparsable => throw "Unexpected token in JSON"
  end.

(** [fs.writeFile(path, JSON.stringify(d, null, 2), 'utf8')], which answers
    [o]. *)
Definition writeFile (path : string) (d : session_data) (o : answer unit)
    : M bot_state unit :=
  run external (WriteFile path) o;
  do s <- get;
  put (mkBot (bs_ig s) (globalBrowser s) (<[path := SessionFile d]> (files s)) (calls s)).

(** [fs.unlink(path)]: a missing file is an exception. *)
Definition unlink (path : string) : M bot_state unit :=
  do s <- get;
  match files s !! path with
  | Some _ =>
      run external (Unlink path) (Returns tt);
      do s1 <- get;
      put (mkBot (bs_ig s1) (globalBrowser s1) (delete path (files s1)) (calls s1))
  | None =>
      external (Unlink path) (Throws ("ENOENT: no such file or directory, unlink " +:+ path))
  end.

Section Bot.

(** [path.join] and [__dirname]. *)
Variable path_join : string -> string -> string.
Variable bot_dirname : string.

(** *** Session files *)

Definition sessionsDir : string := path_join bot_dirname ".sessions".

(** [cleanSessionName] of [getSessionFilePath]. *)
Definition cleanSessionName (platform sessionName : string) : string :=
  if Js.includes "_" sessionName && Js.startsWith (platform +:+ "_") sessionName
  then substring_from (String.length platform + 1) sessionName
  else sessionName.

(** [getSessionFilePath(platform, sessionName)]: [sessionsDir] and
    [sessionPath]. *)
Definition getSessionFilePath (platform sessionName : string) : string * string :=
  (sessionsDir,
   path_join sessionsDir
     (platform +:+ "-" +:+ cleanSessionName platform sessionName +:+ ".json")).

Record save_world := mkSaveWorld {
  sv_mkdir : answer unit;
  sv_cookies : answer (list string);                    (* page.cookies() *)
  sv_storage : answer (list (string * string) * list (string * string));
  sv_now : string;                                      (* new Date().toISOString() *)
  sv_write : answer unit
}.

(** [saveSession(page, platform, sessionName, metadata)]; of [metadata] only
    [assistantId] is ever passed or read. *)
Definition saveSession (w : save_world) (platform sessionName : string)
    (assistantId : option string) : M bot_state unit :=
  let '(dir, sessionPath) := getSessionFilePath platform sessionName in
  run external (Mkdir dir) (sv_mkdir w);
  do cookies <- perform (Read "cookies") (sv_cookies w);
  do '(ls, ss) <- perform (Read "localStorage and sessionStorage") (sv_storage w);
  writeFile sessionPath (mkSession cookies ls ss assistantId (sv_now w) platform)
    (sv_write w).

(** [data.metadata?.assistantId || null] *)
Definition assistantId_of (data : session_data) : option string :=
  if Js.truthy (sd_assistantId data) then sd_assistantId data else None.

(** [getSessionAssistantId(platform, sessionName)] *)
Definition getSessionAssistantId (platform sessionName : string)
    : M bot_state (option string) :=
  try_catch
    (do f <- readFile (getSessionFilePath platform sessionName).2;
     do data <- parse f;
     ret (assistantId_of data))
    (fun _ => ret None).

Record load_world := mkLoadWorld {
  ld_setCookie : answer unit;
  ld_storage : answer unit               (* the evaluate that fills the storages *)
}.

(** [loadSession(page, platform, sessionName)]: the session, or [null]. *)
Definition loadSession (w : load_world) (platform sessionName : string)
    : M bot_state (option session_data) :=
  try_catch
    (do f <- readFile (getSessionFilePath platform sessionName).2;
     do data <- parse f;
     run (if (0 <? length (sd_cookies data))%nat
          then perform (Act "setCookie") (ld_setCookie w)
          else ret tt);
     run try_catch (perform (Act "restore storage") (ld_storage w)) (fun _ => ret tt);
     ret (Some data))
    (fun _ => ret None).

(** *** The browser *)

Record launch_world := mkLaunchWorld {
  lb_launch : answer unit;
  lb_newPage : answer unit
}.

(** [launchBrowser(headful, platform)]: a browser of its own when headful,
    the global one otherwise, launched on first use. *)
Definition launchBrowser (w : launch_world) (headful : bool) : M bot_state unit :=
  if headful then
    run external (Launch false) (lb_launch w);
    external NewPage (lb_newPage w)
  else
    do s <- get;
    run (if negb (globalBrowser s) then
           run external (Launch true) (lb_launch w);
           do s1 <- get;
           put (mkBot (bs_ig s1) true (files s1) (calls s1))
         else ret tt);
    external NewPage (lb_newPage w).

Record setup_world := mkSetupWorld {
  su_userAgent : answer unit;
  su_viewport : answer unit;
  su_interception : answer unit
}.

(** [setupPage(page, headful)] *)
Definition setupPage (w : setup_world) (headful : bool) : M bot_state unit :=
  run external (Setup "setUserAgent") (su_userAgent w);
  run (if negb headful then external (Setup "setViewport") (su_viewport w) else ret tt);
  external (Setup "setRequestInterception") (su_interception w).

(** *** Text generation *)

(** [process.env] as far as [bot.js] reads it. *)
Record environment := mkEnvironment {
  OPENAI_API_KEY : option string;
  OPENAI_ASSISTANT_ID : option string
}.

Record ai_world := mkAiWorld {
  ai_thread : answer unit;                 (* threads.create *)
  ai_message : answer unit;                (* threads.messages.create *)
  ai_run : answer string;                  (* run.status of runs.createAndPoll *)
  ai_messages : answer (list (string * option string))
                                           (* role and content[0]?.text?.value
                                              of the messages listed *)
}.

(** [messages.data.find(msg => msg.role === 'assistant')], its text. *)
Fixpoint assistantMessage (data : list (string * option string))
    : option (option string) :=
  match data with
  | [] => None
  | (role, text) :: rest =>
      if Url.string_eqb role "assistant" then Some text else assistantMessage rest
  end.

(** [generateAIComment(postContent, sessionAssistantId)] *)
Definition generateAIComment (env : environment) (w : ai_world) (postContent : string)
    (sessionAssistantId : option string) : M bot_state string :=
  if negb (Js.truthy (OPENAI_API_KEY env)) then throw "OpenAI API key not configured"
  else
    try_catch
      (let assistantId :=
         if Js.truthy sessionAssistantId then sessionAssistantId
         else OPENAI_ASSISTANT_ID env in
       match assistantId with
       | Some (String a id) =>
           run external (OpenAI "threads.create") (ai_thread w);
           run external (OpenAI "threads.messages.create") (ai_message w);
           do status <- external (OpenAI ("threads.runs.createAndPoll " +:+ String a id))
                          (ai_run w);
           do comment <-
             (if Url.string_eqb status "completed" then
                do messages <- external (OpenAI "threads.messages.list") (ai_messages w);
                match assistantMessage messages with
                | Some (Some (String c value)) => ret (Some (trim (String c value)))
                | _ => ret None
                end
              else ret None);
           match comment with
           | Some c => ret c
           | None => throw ("AI comment generation failed with status: " +:+ status)
           end
       | _ => throw "No OpenAI Assistant ID found in session or environment"
       end)
      (fun msg => throw msg).

(** *** The text of a post *)











(** *** The status of a session *)

Record session_status := mkStatus {
  isLoggedIn : bool;
  st_reason : string;
  st_error : option string;
  st_details : option (bool * bool * bool * bool * string)
    (* hasLoginIndicators, hasLoginForm, onLoginPage, titleIndicatesLogin,
       currentUrl *)
}.

Record status_world := mkStatusWorld {
  ss_goto : answer unit;
  ss_url : string;                       (* page.url() *)
  ss_indicators : answer dom;            (* the document at the first evaluate *)
  ss_visible : answer (string -> bool);  (* the selector matches an element
                                            that is displayed *)
  ss_title : answer string;              (* page.title() *)
  ss_title_logged : answer string        (* page.title() again, for the log *)
}.

(** [checkSessionStatus(page, platform, sessionName)] *)
Definition checkSessionStatus (w : status_world) (platform : string)
    : M bot_state session_status :=
  try_catch
    (if Url.string_eqb platform "instagram" then
       run perform (Goto "https://www.instagram.com/") (ss_goto w);
       run sleep 2000;
       let currentUrl := ss_url w in
       do d <- perform (Read "login indicators") (ss_indicators w);
       let hasLoginIndicators := existsb (d_has d) loginIndicators in
       do visible <- perform (Read "visible login form") (ss_visible w);
       let hasLoginForm := existsb visible ["input[name=username]"; "input[name=password]"] in
       let onLoginPage := Js.includes "/accounts/login/" currentUrl
                          || Js.includes "/accounts/emailsignup/" currentUrl in
       do title <- perform (Read "title") (ss_title w);
       let titleIndicatesLogin := Js.includes "login" (Js.toLowerCase title) in
       run perform (Read "title") (ss_title_logged w);
       let loggedIn := hasLoginIndicators && negb hasLoginForm && negb onLoginPage
                       && negb titleIndicatesLogin in
       ret (mkStatus loggedIn (if loggedIn then "logged-in" else "logged-out") None
              (Some (hasLoginIndicators, hasLoginForm, onLoginPage,
                     titleIndicatesLogin, currentUrl)))
     else ret (mkStatus false "unsupported-platform" None None))
    (fun msg => ret (mkStatus false "error" (Some msg) None)).

(** *** The result of an action *)

Record like_result := mkLikeResult {
  lr_url : string;
  lr_success : bool;
  lr_error : option string
}.

Inductive payload :=
| NoPayload
| Posts (posts : list string)
| Results (successful total : Z)
| LikeResults (results : list like_result)
| Status (status : session_status).

Record action_result := mkResult {
  ok : bool;
  message : string;
  details : payload
}.

Record logout_world := mkLogoutWorld {
  lo_goto : answer unit;
  lo_clear : answer unit;                (* the evaluate that clears the storages *)
  lo_cookies : answer (list string);
  lo_deleteCookie : answer unit
}.

(** [logout(page, platform, sessionName)] *)
Definition logout (w : logout_world) (platform sessionName : string)
    : M bot_state action_result :=
  try_catch
    (if Url.string_eqb platform "instagram" then
       run perform (Goto "https://www.instagram.com/") (lo_goto w);
       run sleep 2000;
       run perform (Act "clear localStorage and sessionStorage") (lo_clear w);
       do cookies <- perform (Read "cookies") (lo_cookies w);
       run perform (Act "deleteCookie") (lo_deleteCookie w);
       run try_catch (unlink (getSessionFilePath platform sessionName).2)
             (fun _ => ret tt);
       ret (mkResult true "Logged out successfully" NoPayload)
     else ret (mkResult false "Unsupported platform" NoPayload))
    (fun msg => ret (mkResult false msg NoPayload)).

(** *** [runAction] *)

(** The options of [runAction]; a field that is [None] is [undefined].  The
    [url] of the [comment] action is taken as given. *)
Record request := mkRequest {
  rq_action : string;
  rq_platform : option string;
  rq_username : option string;
  rq_password : option string;
  rq_sessionName : option string;
  rq_maxPosts : option Z;
  rq_hashtag : option string;
  rq_keywords : option string;
  rq_searchCriteria : option criteria;
  rq_comment : option string;
  rq_useAI : bool;
  rq_headful : bool;
  rq_likePost : bool;
  rq_assistantId : option string;
  rq_url : string
}.

(** The defaults of the destructuring. *)
Definition sessionName_of (rq : request) : string := default "default" (rq_sessionName rq).
Definition maxPosts_of (rq : request) : Z := default 5 (rq_maxPosts rq).

(** [searchCriteria || { hashtag, keywords }] *)
Definition finalSearchCriteria_of (rq : request) : criteria :=
  default (mkCriteria (rq_hashtag rq) (rq_keywords rq)) (rq_searchCriteria rq).

(** The options the auto-comment loop reads. *)
Definition loop_options (rq : request) : options :=
  mkOptions (maxPosts_of rq) (rq_username rq) (rq_comment rq) (rq_useAI rq)
    (rq_likePost rq) (finalSearchCriteria_of rq).

(** What the collaborators answer during one call of [runAction]. *)
Record action_world := mkActionWorld {
  aw_launch : launch_world;
  aw_setup : setup_world;
  aw_load : load_world;
  aw_login : login_world;
  aw_save : save_world;
  aw_discover : discover_world;
  aw_report_start : answer unit;         (* reportProgress, status searching *)
  aw_script : list batch_world;          (* the rounds of the auto-comment loop *)
  aw_report_done : answer unit;          (* reportProgress, status completed *)
  aw_like : string -> like_world;
  aw_like_delay : string -> Z;           (* Math.random() * 2000 + 1000 *)
  aw_content : item_world;               (* the page of the post to reply to *)
  aw_ai : ai_world;
  aw_comment : comment_world;
  aw_status : status_world;
  aw_logout : logout_world;
  aw_close : answer unit                 (* browser.close() *)
}.

(** The local counters of the auto-comment branch start at zero; the loop
    hands back its reason to stop and the counters. *)
Definition with_counters {A} (m : M run_state A) : M bot_state (A * Z * Z) :=
  fun s =>
    let '(r, st, t) := m (mkRun (bs_ig s) 0 0 0) in
    (match r with
     | Ok a => Ok (a, successfulComments st, attempts_made st)
     | Throw msg => Throw msg
     | Pending => Pending
     end,
     mkBot (rs_globals st) (globalBrowser s) (files s) (calls s), t).

(** The [for] loop of the [like] action. *)
Fixpoint like_each (w : action_world) (posts : list string)
    : M bot_state (list like_result) :=
  match posts with
  | [] => ret []
  | postUrl :: rest =>
      do r <- try_catch
                (run on_page (instagramLike (aw_like w postUrl) postUrl);
                 run sleep (aw_like_delay w postUrl);
                 ret (mkLikeResult postUrl true None))
                (fun msg => ret (mkLikeResult postUrl false (Some msg)));
      do results <- like_each w rest;
      ret (r :: results)
  end.

(** [results.filter(r => r.success).length] *)
Definition liked_count (results : list like_result) : nat :=
  length (List.filter lr_success results).

(** A text that the comment input does not hold: [instagramComment] called
    with an [undefined] comment finds [typedText !== comment] whatever was
    typed. *)
Definition undefined_comment (w : comment_world) : string :=
  match cw_typedText w with
  | Returns typedText => typedText +:+ "?"
  | Throws _ => EmptyString
  end.

(** [instagramComment(page, url, finalComment)] of the [comment] action:
    no username, no [skipNavigation]. *)
Definition comment_on (w : comment_world) (url : string) (finalComment : option string)
    : M globals ActionOutcome :=
  instagramComment w url (default (undefined_comment w) finalComment) None false.

Definition failed (msg : string) : action_result := mkResult false msg NoPayload.

(** The body of the outer [try] of [runAction], after [setupPage]. *)
Definition dispatch (env : environment) (w : action_world) (rq : request)
    : M bot_state action_result :=
  match rq_platform rq with
  | Some (String p latform) =>
      let platform := String p latform in
      if negb (Url.string_eqb platform "instagram")
      then ret (failed "Only Instagram platform is supported")
      else
        let sessionName := sessionName_of rq in
        let maxPosts := maxPosts_of rq in
        let finalSearchCriteria := finalSearchCriteria_of rq in
        run loadSession (aw_load w) platform sessionName;
        if Url.string_eqb (rq_action rq) "login" then
          try_catch
            (if Js.truthy (rq_assistantId rq) then
               run on_page (ensureInstagramLoggedIn (aw_login w) (rq_username rq)
                              (rq_password rq));
               run saveSession (aw_save w) platform sessionName (rq_assistantId rq);
               ret (mkResult true
                      "Instagram login successful and session saved with Assistant ID."
                      NoPayload)
             else ret (failed "Instagram login failed: Assistant ID is required."))
            (fun msg => ret (failed ("Instagram login failed: " +:+ msg)))
        else
          run on_page (ensureInstagramLoggedIn (aw_login w) (rq_username rq)
                         (rq_password rq));
          if Url.string_eqb (rq_action rq) "discover" then
            do posts <- on_page (discoverInstagramPosts (aw_discover w)
                                   finalSearchCriteria maxPosts);
            ret (mkResult true
                   ("Found " +:+ pretty (length posts) +:+ " Instagram posts")
                   (Posts posts))
          else if Url.string_eqb (rq_action rq) "auto-comment" then
            run on_page resetDiscoveryState;
            run perform (Report "searching" 0) (aw_report_start w);
            do sessionAssistantId <- getSessionAssistantId platform sessionName;
            do '(why, successfulComments, attempts) <-
              with_counters (batch_loop (loop_options rq) (aw_script w));
            run perform (Report "completed" successfulComments) (aw_report_done w);
            ret (mkResult true
                   ("Instagram auto-comment completed: " +:+ pretty successfulComments
                    +:+ "/" +:+ pretty maxPosts +:+ " successful comments")
                   (Results successfulComments attempts))
          else if Url.string_eqb (rq_action rq) "like" then
            do posts <- on_page (discoverInstagramPosts (aw_discover w)
                                   finalSearchCriteria maxPosts);
            do results <- like_each w posts;
            ret (mkResult true
                   ("Liked " +:+ pretty (liked_count results) +:+ " Instagram posts")
                   (LikeResults results))
          else if Url.string_eqb (rq_action rq) "comment" then
            do sessionAssistantId <- getSessionAssistantId platform sessionName;
            do finalComment <-
              (if rq_useAI rq then
                 do content <- on_page (getPostContent (aw_content w) (rq_url rq));
                 do text <- generateAIComment env (aw_ai w) content sessionAssistantId;
                 ret (Some text)
               else ret (rq_comment rq));
            run on_page (comment_on (aw_comment w) (rq_url rq) finalComment);
            ret (mkResult true "Comment posted successfully" NoPayload)
          else if Url.string_eqb (rq_action rq) "check-session" then
            try_catch
              (do status <- checkSessionStatus (aw_status w) platform;
               ret (mkResult true
                      (if isLoggedIn status then "Session is active"
                       else "Session is not active")
                      (Status status)))
              (fun msg => ret (failed ("Session check failed: " +:+ msg)))
          else if Url.string_eqb (rq_action rq) "logout" then
            logout (aw_logout w) platform sessionName
          else ret (failed "Unknown action")
  | _ => ret (failed "Only Instagram platform is supported")
  end.

(** [runAction(options)].  The [finally] block closes the browser when the
    run is headful and [launchBrowser] has returned one. *)
Definition runAction (env : environment) (w : action_world) (rq : request)
    : M bot_state action_result :=
  do launch_error <- try_catch
                       (run launchBrowser (aw_launch w) (rq_headful rq); ret None)
                       (fun msg => ret (Some msg));
  match launch_error with
  | Some msg => ret (failed msg)
  | None =>
      finally
        (try_catch
           (run setupPage (aw_setup w) (rq_headful rq);
            dispatch env w rq)
           (fun msg => ret (failed msg)))
        (if rq_headful rq then external CloseBrowser (aw_close w) else ret tt)
  end.

End Bot.

Example includes_ex : Js.includes "/p/" "https://x/p/abc" = true.
Proof. reflexivity. Qed.

Example remove_first_ex : Js.remove_first "#" "#a#b" = "a#b".
Proof. reflexivity. Qed.

Example count_words_ex : Js.count_words false "  nice  post here " = 3.
Proof. reflexivity. Qed.

Example clean_query : clean ig "https://x/p/abc?hl=en" = Some "https://x/p/abc".
Proof. vm_compute. reflexivity. Qed.

Example clean_plain : clean ig "https://x/p/abc" = Some "https://x/p/abc".
Proof. vm_compute. reflexivity. Qed.

Example clean_relative : clean ig "/p/abc/?img_index=1#x" = Some "https://www.instagram.com/p/abc/".
Proof. vm_compute. reflexivity. Qed.

Example clean_credentials : clean ig "HTTPS://me:pw@WWW.Instagram.com/reel/Q1/" = Some "https://www.instagram.com/reel/Q1/".
Proof. vm_compute. reflexivity. Qed.

Example clean_mailto : clean ig "mailto:a/p/b" = Some "nulla/p/b".
Proof. vm_compute. reflexivity. Qed.

Example clean_mailto_again : clean ig "nulla/p/b" = Some "https://www.instagram.com/nulla/p/b".
Proof. vm_compute. reflexivity. Qed.

Example clean_http_no_slashes : clean ig "http:x.org/p/1" = Some "http://x.org/p/1".
Proof. vm_compute. reflexivity. Qed.

Example clean_same_scheme_relative : clean ig "https:p/1" = Some "https://www.instagram.com/p/1".
Proof. vm_compute. reflexivity. Qed.

Example clean_file : clean ig "file:///p/abc" = Some "null/p/abc".
Proof. vm_compute. reflexivity. Qed.

Example clean_no_host : clean ig "https://" = None.
Proof. vm_compute. reflexivity. Qed.

(* ------------------------------------------------------------------------- *)
(** ** Facts about strings and URLs *)
(* ------------------------------------------------------------------------- *)

Section StringFacts.

Import Js Url.


Lemma all_ext p q s : (forall c, p c = q c) -> all p s = all q s.
Proof. intros E. induction s as [|c s IH]; simpl; [reflexivity|]. now rewrite E, IH. Qed.

Lemma break_app_eq p s : fst (break p s) +:+ snd (break p s) = s.
Proof.
  induction s as [|c s IH]; simpl; [reflexivity|].
  destruct (p c); simpl; [reflexivity|].
  destruct (break p s) as [a b]; simpl in *. now subst s.
Qed.







Lemma all_drop2 q s : all q s = true -> all q (drop2 s) = true.
Proof.
  destruct s as [|c [|d s]]; simpl; try reflexivity.
  intros [_ [_ H]%andb_true_iff]%andb_true_iff. exact H.
Qed.








Lemma toLowerCase_empty s : toLowerCase s = EmptyString -> s = EmptyString.
Proof. destruct s; [reflexivity|discriminate]. Qed.

Lemma string_eqb_true a b : string_eqb a b = true <-> a = b.
Proof. unfold string_eqb. apply bool_decide_eq_true. Qed.

Lemma string_eqb_false a b : string_eqb a b = false <-> a <> b.
Proof. unfold string_eqb. apply bool_decide_eq_false. Qed.






End StringFacts.

Section UrlFacts.

Import Js Url.



















End UrlFacts.

(* ------------------------------------------------------------------------- *)
(** ** Canonicalisation of item identifiers *)
(* ------------------------------------------------------------------------- *)




(* ------------------------------------------------------------------------- *)
(** ** Facts about discovery *)
(* ------------------------------------------------------------------------- *)

Section DiscoveryFacts.

Lemma array_includes_false x l : array_includes x l = false <-> x ∉ l.
Proof.
  unfold array_includes. induction l as [|y l IH]; cbn [existsb].
  - split; [intros _; apply not_elem_of_nil|reflexivity].
  - rewrite orb_false_iff, IH, string_eqb_false, not_elem_of_cons. reflexivity.
Qed.

(** The [for] loop appends identifiers that are new to the batch and to the
    session, records them, and never goes past [maxPosts]. *)
Lemma add_new_posts_spec maxPosts newPosts : forall posts seen posts' seen',
  add_new_posts maxPosts newPosts posts seen = (posts', seen') ->
  exists news,
    posts' = posts ++ news /\
    seen' = seen ∪ list_to_set news /\
    NoDup news /\
    (forall x, x ∈ news -> (x ∉ posts) /\ (x ∉ seen)) /\
    (Z.of_nat (length posts) <= Z.max 0 maxPosts ->
     Z.of_nat (length posts') <= Z.max 0 maxPosts).
Proof.
  induction newPosts as [|x rest IH]; intros posts seen posts' seen'; cbn [add_new_posts].
  - intros [= <- <-]. exists []. rewrite app_nil_r.
    repeat split; [set_solver|constructor|set_solver..|auto].
  - destruct (negb (array_includes x posts)) eqn:E1; cbn [andb];
      [destruct (negb (bool_decide (x ∈ seen))) eqn:E2; cbn [andb];
        [destruct (Z.of_nat (length posts) <? maxPosts) eqn:E3|]|].
    2-4: intros H; destruct (IH _ _ _ _ H) as (news & -> & -> & Hnd & Hnew & Hlen);
         exists news; repeat split; auto; now apply Hnew.
    apply negb_true_iff, array_includes_false in E1.
    apply negb_true_iff, bool_decide_eq_false in E2.
    apply Z.ltb_lt in E3.
    intros H. destruct (IH _ _ _ _ H) as (news & -> & -> & Hnd & Hnew & Hlen).
    exists (x :: news). repeat split.
    + now rewrite <- app_assoc.
    + set_solver.
    + constructor; [|exact Hnd]. intros Hin. destruct (Hnew _ Hin) as [Hx _].
      apply Hx. set_solver.
    + intros Hin. apply elem_of_cons in H0 as [->|Hin']; [now apply E1|].
      destruct (Hnew _ Hin') as [Hx _]. apply Hx. set_solver.
    + intros Hin. apply elem_of_cons in H0 as [->|Hin']; [now apply E2|].
      destruct (Hnew _ Hin') as [_ Hx]. apply Hx. set_solver.
    + intros _. apply Hlen. rewrite length_app. cbn [length]. lia.
Qed.

(** One round of the scan loop: the liked set and the listing key are left
    alone, the seen set grows by the identifiers appended to [posts]. *)
Lemma scan_round_spec maxPosts a s g r g' t :
  scan_round maxPosts a s g = (r, g', t) ->
  likedPosts g' = likedPosts g /\
  isOnSearchPage g' = isOnSearchPage g /\
  currentSearchUrl g' = currentSearchUrl g /\
  exists news,
    allDiscoveredPosts g' = allDiscoveredPosts g ∪ list_to_set news /\
    NoDup news /\
    (forall x, x ∈ news -> (x ∉ posts s) /\ (x ∉ allDiscoveredPosts g)) /\
    forall stop s', r = Ok (stop, s') ->
      posts s' = posts s ++ news /\
      (Z.of_nat (length (posts s)) <= Z.max 0 maxPosts ->
       Z.of_nat (length (posts s')) <= Z.max 0 maxPosts) /\
      (consecutiveFailedScrolls s < 10 ->
         if stop
         then Z.of_nat (length (posts s')) < maxPosts -> consecutiveFailedScrolls s' = 10
         else consecutiveFailedScrolls s' < 10).
Proof.
  unfold scan_round, bind, perform, get, put, sleep, ret.
  destruct (at_hrefs a) as [hrefs|msg].
  2: intros [= <- <- <-]; repeat split; exists [];
       repeat split; [set_solver|constructor|set_solver..|discriminate|discriminate|discriminate].
  destruct (add_new_posts _ _ _ _) as [posts' seen'] eqn:Ea.
  apply add_new_posts_spec in Ea as (news & -> & -> & Hnd & Hnew & Hlen).
  destruct (Z.of_nat (length (posts s ++ news)) >=? maxPosts) eqn:Et;
    [|destruct (at_scroll a) as [[]|?];
       [destruct (at_currentHeight a) as [h1|?];
         [destruct (at_newHeight a) as [h2|?];
           [destruct (h1 =? h2)|..]|..]|..]];
    cbn; intros [= <- <- <-]; (repeat split); exists news;
    (repeat split); auto; try (now apply Hnew); try discriminate.
  all: try match goal with H : Ok _ = Ok _ |- _ => injection H as <- <- end; cbn; auto.
  - rewrite Z.geb_leb in Et. apply Z.leb_le in Et. lia.
  - unfold maxConsecutiveFailedScrolls. rewrite Z.geb_leb.
    destruct (10 <=? consecutiveFailedScrolls s + 1) eqn:E;
      [apply Z.leb_le in E|apply Z.leb_gt in E]; lia.
  - lia.
Qed.

(** The scan loop: what holds of one round holds of the whole loop. *)
Lemma scan_loop_spec maxPosts script : forall s g r g' t,
  scan_loop maxPosts script s g = (r, g', t) ->
  likedPosts g' = likedPosts g /\
  isOnSearchPage g' = isOnSearchPage g /\
  currentSearchUrl g' = currentSearchUrl g /\
  exists news,
    allDiscoveredPosts g' = allDiscoveredPosts g ∪ list_to_set news /\
    NoDup news /\
    (forall x, x ∈ news -> (x ∉ posts s) /\ (x ∉ allDiscoveredPosts g)) /\
    forall s', r = Ok s' ->
      posts s' = posts s ++ news /\
      (Z.of_nat (length (posts s)) <= Z.max 0 maxPosts ->
       Z.of_nat (length (posts s')) <= Z.max 0 maxPosts) /\
      (consecutiveFailedScrolls s < 10 ->
       Z.of_nat (length (posts s')) < maxPosts -> consecutiveFailedScrolls s' = 10).
Proof.
  induction script as [|a script IH]; intros s g r g' t; cbn [scan_loop];
    destruct (negb (Z.of_nat (length (posts s)) <? maxPosts)) eqn:Ec.
  1,3: intros [= <- <- <-]; repeat split; exists []; rewrite app_nil_r;
       (repeat split); try solve [apply NoDup_nil_2 | set_solver];
       match goal with H : Ok _ = Ok _ |- _ => injection H as <- end; auto;
       apply negb_true_iff, Z.ltb_ge in Ec; intros; lia.
  - intros [= <- <- <-]. repeat split. exists [].
    repeat split; [set_solver|constructor|set_solver..|discriminate|discriminate|discriminate].
  - unfold bind at 1.
    destruct (scan_round maxPosts a s g) as [[r1 g1] t1] eqn:E1.
    apply scan_round_spec in E1 as (Hl1 & Hp1 & Hu1 & news1 & Hs1 & Hnd1 & Hnew1 & Hok1).
    destruct r1 as [[stop s1]|msg|].
    2,3: intros [= <- <- <-]; repeat split; auto; exists news1;
         repeat split; auto; try (now apply Hnew1); discriminate.
    destruct (Hok1 _ _ eq_refl) as (Hposts1 & Hlen1 & Hcfs1).
    destruct stop.
    + cbn. intros [= <- <- <-]. repeat split; auto. exists news1.
      repeat split; auto; try (now apply Hnew1);
        match goal with H : Ok _ = Ok _ |- _ => injection H as <- end; auto.
    + destruct (scan_loop maxPosts script s1 g1) as [[r2 g2] t2] eqn:E2.
      apply IH in E2 as (Hl2 & Hp2 & Hu2 & news2 & Hs2 & Hnd2 & Hnew2 & Hok2).
      intros [= <- <- <-]. repeat split; try congruence.
      exists (news1 ++ news2). repeat split.
      * rewrite Hs2, Hs1, list_to_set_app_L. set_solver.
      * apply NoDup_app. repeat split; auto.
        intros x Hx1 Hx2. destruct (Hnew2 _ Hx2) as [_ Hx]. apply Hx.
        rewrite Hs1. set_solver.
      * intros Hin. apply elem_of_app in H as [Hx|Hx]; [now apply Hnew1 in Hin|].
        destruct (Hnew2 _ Hx) as [Hx' _]. apply Hx'. rewrite Hposts1. set_solver.
      * intros Hin. apply elem_of_app in H as [Hx|Hx]; [now apply Hnew1 in Hin|].
        destruct (Hnew2 _ Hx) as [_ Hx']. apply Hx'. rewrite Hs1. set_solver.
      * destruct (Hok2 _ H) as (-> & _). rewrite Hposts1. now rewrite app_assoc.
      * intros Hle. destruct (Hok2 _ H) as (_ & Hlen2 & _). auto.
      * intros Hc Hlt. destruct (Hok2 _ H) as (_ & _ & Hcfs2). auto.
Qed.

(** Up to the scan loop only the listing key changes. *)
Lemma discover_preamble_frame w u g r g' t :
  discover_preamble w u g = (r, g', t) ->
  likedPosts g' = likedPosts g /\ allDiscoveredPosts g' = allDiscoveredPosts g.
Proof.
  unfold discover_preamble, bind, try_catch, perform, get, put, sleep, throw, ret.
  destruct (negb (isOnSearchPage g)
            || negb (option_string_eqb (currentSearchUrl g) (Some u)));
    [destruct (dw_goto w) as [[]|?]|];
    try (cbn; intros [= <- <- <-]; split; reflexivity);
    (destruct (dw_waitTabs w) as [[]|?];
      [destruct (dw_recentTabClicked w) as [[]|?]|..];
      destruct (dw_needsLogin w) as [[]|?]);
    cbn; intros [= <- <- <-]; split; reflexivity.
Qed.

(** One call: the liked set is untouched, the seen set grows by exactly the
    identifiers the call collected, which are pairwise distinct and were not
    seen before; a call that returns hands out exactly those. *)
Lemma discoverInstagramPosts_spec w c maxPosts g r g' t :
  discoverInstagramPosts w c maxPosts g = (r, g', t) ->
  likedPosts g' = likedPosts g /\
  exists news,
    allDiscoveredPosts g' = allDiscoveredPosts g ∪ list_to_set news /\
    NoDup news /\
    (forall x, x ∈ news -> x ∉ allDiscoveredPosts g) /\
    forall l, r = Ok l ->
      l = news /\ Z.of_nat (length l) <= Z.max 0 maxPosts.
Proof.
  assert (Hnil : likedPosts g = likedPosts g /\
    exists news, allDiscoveredPosts g = allDiscoveredPosts g ∪ list_to_set news /\
      NoDup news /\ (forall x, x ∈ news -> x ∉ allDiscoveredPosts g)).
  { split; [reflexivity|]. exists []. repeat split; [set_solver|apply NoDup_nil_2|set_solver]. }
  unfold discoverInstagramPosts, discover_scan.
  destruct (searchUrl_of c) as [u|].
  2:{ cbn. intros [= <- <- <-]. destruct Hnil as (? & news & ? & ? & ?).
      split; [auto|]. exists news. repeat split; auto; discriminate. }
  unfold bind at 1 2.
  destruct (discover_preamble w u g) as [[r0 g0] t0] eqn:E0.
  destruct (discover_preamble_frame _ _ _ _ _ _ E0) as [Hl0 Hs0].
  destruct r0 as [[]|?|].
  2,3: intros [= <- <- <-]; rewrite Hl0, Hs0;
       destruct Hnil as (? & news & ? & ? & ?);
       split; [auto|]; exists news; repeat split; auto; discriminate.
  destruct (scan_loop maxPosts (dw_attempts w) (mkScan [] 0 0) g0)
    as [[r1 g1] t1] eqn:E1.
  apply scan_loop_spec in E1 as (Hl1 & _ & _ & news & Hs1 & Hnd & Hnew & Hok).
  destruct r1 as [s1|?|]; cbn; intros [= <- <- <-];
    (split; [congruence|]); exists news; rewrite <- Hs0;
    (repeat split); auto; try (intros ?; now apply Hnew); try discriminate.
  - destruct (Hok _ eq_refl) as (Hp & _). cbn in Hp.
    match goal with H : Ok _ = Ok _ |- _ => injection H as <- end. exact Hp.
  - destruct (Hok _ eq_refl) as (_ & Hlen & _). cbn in Hlen.
    match goal with H : Ok _ = Ok _ |- _ => injection H as <- end. apply Hlen. lia.
Qed.

End DiscoveryFacts.

Section DiscoveryTermination.

Lemma discover_preamble_returns w u g :
  dw_goto w = Returns tt -> dw_needsLogin w = Returns false ->
  exists g' t, discover_preamble w u g = (Ok tt, g', t).
Proof.
  intros Hg Hn.
  unfold discover_preamble, bind, try_catch, perform, get, put, sleep, throw, ret.
  rewrite Hg, Hn.
  destruct (negb (isOnSearchPage g)
            || negb (option_string_eqb (currentSearchUrl g) (Some u)));
    (destruct (dw_waitTabs w) as [[]|?];
      [destruct (dw_recentTabClicked w) as [[]|?]|..]);
    cbn; eauto.
Qed.

Lemma scan_round_returns maxPosts a s g :
  attempt_returns a ->
  0 <= consecutiveFailedScrolls s < 10 ->
  exists stop s' g' t,
    scan_round maxPosts a s g = (Ok (stop, s'), g', t) /\
    (stop = false -> 0 <= consecutiveFailedScrolls s' < 10).
Proof.
  intros ((hrefs & Hh) & Hs & (h1 & H1) & (h2 & H2)) Hc.
  unfold scan_round, bind, perform, get, put, sleep, ret.
  rewrite Hh, Hs, H1, H2.
  destruct (add_new_posts _ _ _ _) as [posts' seen'].
  destruct (Z.of_nat (length posts') >=? maxPosts);
    [|destruct (h1 =? h2)]; cbn; do 4 eexists; (split; [reflexivity|]);
    cbn; try discriminate; try lia.
  unfold maxConsecutiveFailedScrolls. rewrite Z.geb_leb. intros E%Z.leb_gt. lia.
Qed.

Lemma scan_round_failed maxPosts a s g hrefs h :
  at_hrefs a = Returns hrefs -> at_scroll a = Returns tt ->
  at_currentHeight a = Returns h -> at_newHeight a = Returns h ->
  exists stop s' g' t,
    scan_round maxPosts a s g = (Ok (stop, s'), g', t) /\
    (stop = false ->
     consecutiveFailedScrolls s' = consecutiveFailedScrolls s + 1 /\
     consecutiveFailedScrolls s' < 10).
Proof.
  intros Hh Hs H1 H2.
  unfold scan_round, bind, perform, get, put, sleep, ret.
  rewrite Hh, Hs, H1, H2, Z.eqb_refl.
  destruct (add_new_posts _ _ _ _) as [posts' seen'].
  destruct (Z.of_nat (length posts') >=? maxPosts);
    cbn; do 4 eexists; (split; [reflexivity|]); cbn; try discriminate.
  unfold maxConsecutiveFailedScrolls. rewrite Z.geb_leb. intros E%Z.leb_gt. lia.
Qed.

(** Enough failed scrolls in a row end the loop. *)
Lemma failed_scrolls_terminate maxPosts k : forall script s g,
  failed_scrolls k script ->
  consecutiveFailedScrolls s < 10 ->
  10 <= consecutiveFailedScrolls s + Z.of_nat k ->
  exists s' g' t, scan_loop maxPosts script s g = (Ok s', g', t).
Proof.
  induction k as [|k IH]; intros script s g Hf Hc Hk; [lia|].
  destruct script as [|a script]; [destruct Hf|].
  destruct Hf as [(hrefs & h & Hh & Hs & H1 & H2) Hf].
  cbn [scan_loop].
  destruct (negb (Z.of_nat (length (posts s)) <? maxPosts)); [cbn; eauto|].
  destruct (scan_round_failed maxPosts a s g hrefs h Hh Hs H1 H2)
    as (stop & s1 & g1 & t1 & E1 & Hstop).
  unfold bind. rewrite E1. destruct stop; [cbn; eauto|].
  destruct (Hstop eq_refl) as [Hc1 Hlt1].
  destruct (IH script s1 g1 Hf Hlt1 ltac:(lia)) as (s2 & g2 & t2 & E2).
  rewrite E2. eauto.
Qed.

(** A script that reaches ten consecutive failed scrolls ends the loop. *)
Lemma scan_loop_terminates maxPosts script : forall s g,
  exhausts script ->
  0 <= consecutiveFailedScrolls s < 10 ->
  exists s' g' t, scan_loop maxPosts script s g = (Ok s', g', t).
Proof.
  induction script as [|a script IH]; intros s g He Hc.
  - destruct He as [[]|[]].
  - destruct He as [Hf|[Ha He]].
    + apply (failed_scrolls_terminate maxPosts 10); [exact Hf|lia|lia].
    + cbn [scan_loop].
      destruct (negb (Z.of_nat (length (posts s)) <? maxPosts)); [cbn; eauto|].
      destruct (scan_round_returns maxPosts a s g Ha Hc)
        as (stop & s1 & g1 & t1 & E1 & Hstop).
      unfold bind. rewrite E1. destruct stop; [cbn; eauto|].
      destruct (IH s1 g1 He (Hstop eq_refl)) as (s2 & g2 & t2 & E2).
      rewrite E2. eauto.
Qed.

End DiscoveryTermination.

(* ------------------------------------------------------------------------- *)
(** ** Claims about discovery *)
(* ------------------------------------------------------------------------- *)

(** C2: in a discovery session (successive calls of
    [discoverInstagramPosts], no [resetDiscoveryState] in between) the set of
    seen identifiers only grows, and the outputs of all the calls, put end to
    end, hold no identifier twice: none is handed out by two calls, nor twice
    by one.  Moreover no call hands out an identifier that was already seen
    when the session started. *)
Theorem C2_seen_grows_and_nothing_emitted_twice calls : forall g,
  allDiscoveredPosts g ⊆ allDiscoveredPosts (discover_session calls g).2 /\
  (size (allDiscoveredPosts g) <= size (allDiscoveredPosts (discover_session calls g).2))%nat /\
  NoDup (concat (map emitted (discover_session calls g).1)) /\
  (forall x, x ∈ concat (map emitted (discover_session calls g).1) ->
     (x ∉ allDiscoveredPosts g) /\
     (x ∈ allDiscoveredPosts (discover_session calls g).2)).
Proof.
  assert (Hmain : forall g,
    allDiscoveredPosts g ⊆ allDiscoveredPosts (discover_session calls g).2 /\
    NoDup (concat (map emitted (discover_session calls g).1)) /\
    (forall x, x ∈ concat (map emitted (discover_session calls g).1) ->
       (x ∉ allDiscoveredPosts g) /\
       (x ∈ allDiscoveredPosts (discover_session calls g).2))).
  { induction calls as [|c rest IH]; intros g; cbn [discover_session].
    - cbn. split; [done|]. split; [apply NoDup_nil_2|]. intros x Hx. set_solver.
    - destruct (discoverInstagramPosts _ _ _ g) as [[r g1] t] eqn:E.
      apply discoverInstagramPosts_spec in E as (_ & news & Hs & Hnd & Hnew & Hok).
      destruct (IH g1) as (Hsub & Hnd' & Hfresh).
      destruct (discover_session rest g1) as [rs g2]. cbn [fst snd] in *.
      assert (Hem : forall x, x ∈ emitted r -> x ∈ news).
      { destruct r as [l|?|]; cbn; [|set_solver..].
        destruct (Hok l eq_refl) as [-> _]. auto. }
      assert (Hemnd : NoDup (emitted r)).
      { destruct r as [l|?|]; cbn; [|apply NoDup_nil_2..].
        destruct (Hok l eq_refl) as [-> _]. auto. }
      cbn [map concat]. split; [set_solver|]. split.
      + apply NoDup_app. split; [exact Hemnd|]. split; [|exact Hnd'].
        intros x Hx1 Hx2. destruct (Hfresh x Hx2) as [Hx _]. apply Hx.
        rewrite Hs. apply Hem in Hx1. set_solver.
      + intros x [Hx|Hx]%elem_of_app.
        * apply Hem in Hx. split; [now apply Hnew|set_solver].
        * destruct (Hfresh x Hx) as [Hx1 Hx2]. split; [set_solver|exact Hx2]. }
  intros g. destruct (Hmain g) as (Hsub & Hnd & Hfresh).
  split; [exact Hsub|]. split; [now apply subseteq_size|]. split; [exact Hnd|exact Hfresh].
Qed.

(** C10: with neither a hashtag nor keywords, the call throws 'Either
    hashtag or keywords must be provided', makes no call to the page, and
    leaves the globals (seen set, listing key) as they were. *)
Theorem C10_missing_criteria_throws_first w c maxPosts g :
  Js.truthy (hashtag c) = false ->
  Js.truthy (keywords c) = false ->
  discoverInstagramPosts w c maxPosts g
  = (Throw "Either hashtag or keywords must be provided", g, []).
Proof.
  intros Hh Hk. unfold discoverInstagramPosts, discover_scan, searchUrl_of.
  destruct (hashtag c) as [[|? ?]|]; try discriminate;
    destruct (keywords c) as [[|? ?]|]; try discriminate; reflexivity.
Qed.

Lemma C10_witness :
  discoverInstagramPosts still_world no_criteria 10 initial_globals
  = (Throw "Either hashtag or keywords must be provided", initial_globals, []).
Proof.
  apply (C10_missing_criteria_throws_first still_world no_criteria 10 initial_globals);
    reflexivity.
Defined.

(** C8: for a target [maxPosts >= 0], a call that returns hands out at most
    [maxPosts] items; and when the criterion resolves to a listing, the
    navigation succeeds, no login wall is shown and the page reaches ten
    consecutive failed scrolls, the call does return (it neither throws nor
    keeps running), and if it returns fewer than [maxPosts] items the loop
    ended on the tenth consecutive failed scroll. *)
Theorem C8_discover_bounded_and_terminating w c maxPosts g :
  0 <= maxPosts ->
  (forall l, result_of (discoverInstagramPosts w c maxPosts g) = Ok l ->
     Z.of_nat (length l) <= maxPosts) /\
  (is_Some (searchUrl_of c) -> dw_goto w = Returns tt -> dw_needsLogin w = Returns false ->
   exhausts (dw_attempts w) ->
   exists s,
     result_of (discover_scan w c maxPosts g) = Ok s /\
     result_of (discoverInstagramPosts w c maxPosts g) = Ok (posts s) /\
     Z.of_nat (length (posts s)) <= maxPosts /\
     (Z.of_nat (length (posts s)) < maxPosts -> consecutiveFailedScrolls s = 10)).
Proof.
  intros HN. split.
  - intros l Hl.
    destruct (discoverInstagramPosts w c maxPosts g) as [[r g'] t] eqn:E.
    apply discoverInstagramPosts_spec in E as (_ & news & _ & _ & _ & Hok).
    cbn in Hl. destruct (Hok l Hl) as [_ H]. lia.
  - intros [u Hu] Hg Hn He.
    unfold discoverInstagramPosts, discover_scan. rewrite Hu.
    destruct (discover_preamble_returns w u g Hg Hn) as (g0 & t0 & E0).
    destruct (scan_loop_terminates maxPosts (dw_attempts w) (mkScan [] 0 0) g0 He
                ltac:(cbn; lia)) as (s & g1 & t1 & E1).
    pose proof E1 as E1'.
    apply scan_loop_spec in E1' as (_ & _ & _ & news & _ & _ & _ & Hok).
    destruct (Hok s eq_refl) as (_ & Hlen & Hcfs). cbn in Hlen, Hcfs.
    exists s. unfold result_of, bind. rewrite E0, E1. cbn.
    repeat split; auto; lia.
Qed.

Lemma C8_witness :
  exists s,
    result_of (discover_scan still_world cats 5 initial_globals) = Ok s /\
    result_of (discoverInstagramPosts still_world cats 5 initial_globals) = Ok (posts s) /\
    Z.of_nat (length (posts s)) <= 5 /\
    (Z.of_nat (length (posts s)) < 5 -> consecutiveFailedScrolls s = 10).
Proof.
  apply (proj2 (C8_discover_bounded_and_terminating still_world cats 5
                  initial_globals ltac:(lia))).
  - eexists. reflexivity.
  - reflexivity.
  - reflexivity.
  - left. cbn. unfold still_attempt. repeat (split; [eauto 10|]). exact I.
Defined.

Example still_world_run :
  result_of (discoverInstagramPosts still_world cats 5 initial_globals)
  = Ok ["https://www.instagram.com/p/A/"; "https://www.instagram.com/p/B/"].
Proof. vm_compute. reflexivity. Qed.

Example still_world_second_call :
  (discover_session [mkCall still_world cats 5; mkCall still_world cats 5]
     initial_globals).1
  = [Ok ["https://www.instagram.com/p/A/"; "https://www.instagram.com/p/B/"]; Ok []].
Proof. vm_compute. reflexivity. Qed.

Example still_world_target_one :
  result_of (discoverInstagramPosts still_world cats 1 initial_globals)
  = Ok ["https://www.instagram.com/p/A/"].
Proof. vm_compute. reflexivity. Qed.

(** After [resetDiscoveryState] a new session starts: the same items are
    handed out again. *)
Example reset_starts_a_new_session :
  let first := discoverInstagramPosts still_world cats 5 initial_globals in
  let fresh := state_of (resetDiscoveryState (state_of first)) in
  result_of (discoverInstagramPosts still_world cats 5 fresh) = result_of first /\
  allDiscoveredPosts fresh = ∅.
Proof. split; vm_compute; reflexivity. Qed.

(* ------------------------------------------------------------------------- *)
(** ** Reasoning rules for the effect monad *)
(* ------------------------------------------------------------------------- *)

Section HoareRules.

Context {S : Type}.

Lemma hoare_weaken {A} (P P' : S -> Prop) (m : M S A) (Q Q' : outcome A -> S -> Prop) :
  hoare P' m Q' -> (forall s, P s -> P' s) -> (forall r s, Q' r s -> Q r s) ->
  hoare P m Q.
Proof. intros H HP HQ s r s' t Hs E. eapply HQ, H; eauto. Qed.

Lemma hoare_ret {A} (P : S -> Prop) (a : A) (Q : outcome A -> S -> Prop) :
  (forall s, P s -> Q (Ok a) s) -> hoare P (ret a) Q.
Proof. intros H s r s' t Hs [= <- <- <-]. auto. Qed.

Lemma hoare_throw {A} (P : S -> Prop) msg (Q : outcome A -> S -> Prop) :
  (forall s, P s -> Q (Throw msg) s) -> hoare P (throw msg) Q.
Proof. intros H s r s' t Hs [= <- <- <-]. auto. Qed.

Lemma hoare_pending {A} (P : S -> Prop) (Q : outcome A -> S -> Prop) :
  (forall s, P s -> Q Pending s) -> hoare P pending Q.
Proof. intros H s r s' t Hs [= <- <- <-]. auto. Qed.

Lemma hoare_perform {A} (P : S -> Prop) e (o : answer A) (Q : outcome A -> S -> Prop) :
  (forall s, P s ->
     match o with Returns a => Q (Ok a) s | Throws msg => Q (Throw msg) s end) ->
  hoare P (perform e o) Q.
Proof.
  intros H s r s' t Hs. unfold perform. specialize (H s Hs).
  destruct o; intros [= <- <- <-]; exact H.
Qed.

Lemma hoare_sleep (P : S -> Prop) ms (Q : outcome unit -> S -> Prop) :
  (forall s, P s -> Q (Ok tt) s) -> hoare P (sleep ms) Q.
Proof. intros H s r s' t Hs [= <- <- <-]. auto. Qed.

Lemma hoare_get (P : S -> Prop) (Q : outcome S -> S -> Prop) :
  (forall s, P s -> Q (Ok s) s) -> hoare P get Q.
Proof. intros H s r s' t Hs [= <- <- <-]. auto. Qed.

Lemma hoare_put (P : S -> Prop) s0 (Q : outcome unit -> S -> Prop) :
  (forall s, P s -> Q (Ok tt) s0) -> hoare P (put s0) Q.
Proof. intros H s r s' t Hs [= <- <- <-]. eauto. Qed.

(** Sequencing: [R] holds between the two parts; an exception or a pending
    loop in the first part ends the whole. *)
Lemma hoare_bind {A B} (P : S -> Prop) (m : M S A) (k : A -> M S B)
    (R : A -> S -> Prop) (Q : outcome B -> S -> Prop) :
  hoare P m (fun r s => match r with
                        | Ok a => R a s
                        | Throw msg => Q (Throw msg) s
                        | Pending => Q Pending s
                        end) ->
  (forall a, hoare (R a) (k a) Q) ->
  hoare P (bind m k) Q.
Proof.
  intros Hm Hk s r s' t Hs. unfold bind.
  destruct (m s) as [[r1 s1] t1] eqn:E1. specialize (Hm _ _ _ _ Hs E1).
  destruct r1 as [a|msg|].
  - destruct (k a s1) as [[r2 s2] t2] eqn:E2. intros [= <- <- <-].
    eapply Hk; eauto.
  - intros [= <- <- <-]. exact Hm.
  - intros [= <- <- <-]. exact Hm.
Qed.

(** [try]/[catch]: the handler runs from the state in which the exception
    was thrown. *)
Lemma hoare_try_catch {A} (P : S -> Prop) (m : M S A) (h : string -> M S A)
    (R : string -> S -> Prop) (Q : outcome A -> S -> Prop) :
  hoare P m (fun r s => match r with
                        | Throw msg => R msg s
                        | other => Q other s
                        end) ->
  (forall msg, hoare (R msg) (h msg) Q) ->
  hoare P (try_catch m h) Q.
Proof.
  intros Hm Hh s r s' t Hs. unfold try_catch.
  destruct (m s) as [[r1 s1] t1] eqn:E1. specialize (Hm _ _ _ _ Hs E1).
  destruct r1 as [a|msg|].
  - intros [= <- <- <-]. exact Hm.
  - destruct (h msg s1) as [[r2 s2] t2] eqn:E2. intros [= <- <- <-].
    eapply Hh; eauto.
  - intros [= <- <- <-]. exact Hm.
Qed.

Lemma hoare_if {A} (P : S -> Prop) (b : bool) (m1 m2 : M S A) Q :
  (b = true -> hoare P m1 Q) -> (b = false -> hoare P m2 Q) ->
  hoare P (if b then m1 else m2) Q.
Proof. destruct b; auto. Qed.

(** A fact that follows from the precondition may be used to verify the
    computation. *)
Lemma hoare_assume {A} (F : Prop) (P : S -> Prop) (m : M S A) Q :
  (forall s, P s -> F) -> (F -> hoare P m Q) -> hoare P m Q.
Proof. intros HF H s r s' t Hs. apply H; eauto. Qed.

Lemma hoare_pre {A} (P P' : S -> Prop) (m : M S A) Q :
  (forall s, P s -> P' s) -> hoare P' m Q -> hoare P m Q.
Proof. intros HP H s r s' t Hs. apply H; auto. Qed.

End HoareRules.

(** A function of [instagram-functions.js] leaves the counters alone. *)
Lemma hoare_lift {A} (P : run_state -> Prop) (m : M globals A)
    (Q : outcome A -> run_state -> Prop) :
  (forall st r g t, P st -> m (rs_globals st) = (r, g, t) ->
     Q r (mkRun g (successfulComments st) (attempts_made st)
            (consecutiveEmptyBatches st))) ->
  hoare P (lift m) Q.
Proof.
  intros H st r st' t Hst. unfold lift.
  destruct (m (rs_globals st)) as [[r1 g1] t1] eqn:E. intros [= <- <- <-].
  eapply H; eauto.
Qed.

Section Extensionality.

Context {S : Type}.

Lemma bind_ext {A B} (m : M S A) (k k' : A -> M S B) s :
  (forall a s1, k a s1 = k' a s1) -> bind m k s = bind m k' s.
Proof.
  intros H. unfold bind. destruct (m s) as [[[a|msg|] s1] t1]; [|reflexivity..].
  now rewrite H.
Qed.

Lemma try_catch_ext {A} (m m' : M S A) h s :
  m s = m' s -> try_catch m h s = try_catch m' h s.
Proof. intros H. unfold try_catch. now rewrite H. Qed.

(** Looking a list of selectors up never throws and never stays pending. *)
Lemma find_first_returns sels found (P : S -> Prop) :
  hoare P (find_first sels found)
    (fun r s => match r with Ok _ => P s | _ => False end).
Proof.
  induction sels as [|sel rest IH]; cbn [find_first].
  - apply hoare_ret. auto.
  - eapply hoare_bind with (R := fun _ s => P s).
    + eapply hoare_try_catch with (R := fun _ s => P s).
      * apply hoare_perform. intros s Hs. destruct (found sel); exact Hs.
      * intros msg. apply hoare_ret. auto.
    + intros [|]; [apply hoare_ret; auto|exact IH].
Qed.

End Extensionality.

(* ------------------------------------------------------------------------- *)
(** ** Facts about the auto-comment loop *)
(* ------------------------------------------------------------------------- *)

Section OrchestratorFacts.

Variable o : options.

Lemma item_body_spec iw url n c :
  n < maxPosts o ->
  hoare (fun st => successfulComments st = n /\ consecutiveEmptyBatches st = c)
    (item_body o iw url) (item_post o iw url n c).
Proof.
  intros Hlt. unfold item_body.
  set (I := fun st => successfulComments st = n /\ consecutiveEmptyBatches st = c).
  assert (HI : forall r st, I st -> r <> Ok Break -> item_post o iw url n c r st).
  { intros r st [Hn Hc] Hr. repeat split; auto. intros ->. congruence. }
  eapply hoare_bind with (R := fun _ => I).
  { apply hoare_lift. intros st r g t [Hn Hc] _.
    destruct r; [split; assumption|apply HI; [split; assumption|discriminate]..]. }
  intros content. apply hoare_if; intros _.
  { apply hoare_ret. intros st Hst. apply HI; [assumption|discriminate]. }
  eapply hoare_bind with (R := fun _ => I).
  { apply hoare_if; intros _.
    - apply hoare_perform. intros st Hst.
      destruct (iw_hasVideo iw); [assumption|apply HI; [assumption|discriminate]].
    - apply hoare_ret. auto. }
  intros hasVideo. apply hoare_if; intros _.
  { apply hoare_ret. intros st Hst. apply HI; [assumption|discriminate]. }
  eapply hoare_bind with (R := fun a st => I st /\ iw_cache iw = Returns a).
  { apply hoare_perform. intros st Hst.
    destruct (iw_cache iw); [split; auto|apply HI; [assumption|discriminate]]. }
  intros already. apply hoare_if; intros ->.
  { apply hoare_ret. intros st [Hst _]. apply HI; [assumption|discriminate]. }
  eapply hoare_bind with (R := fun _ st => I st /\ iw_cache iw = Returns false).
  { apply hoare_if; intros _.
    - eapply hoare_try_catch with (R := fun _ st => I st /\ iw_cache iw = Returns false).
      + apply hoare_perform. intros st Hst. destruct (iw_ai iw); exact Hst.
      + intros msg. apply hoare_ret. auto.
    - apply hoare_ret. auto. }
  intros finalComment.
  eapply hoare_bind with (R := fun _ st => I st /\ iw_cache iw = Returns false).
  { apply hoare_if; intros _.
    - eapply hoare_try_catch with (R := fun _ st => I st /\ iw_cache iw = Returns false).
      + apply hoare_lift. intros st r g t [[Hn Hc] Hca] _.
        destruct r; [repeat split; assumption..|].
        apply HI; [split; assumption|discriminate].
      + intros msg. apply hoare_ret. auto.
    - apply hoare_ret. auto. }
  intros liked.
  eapply hoare_bind with
    (R := fun res st => I st /\ iw_cache iw = Returns false /\
            exists g, result_of (instagramComment (iw_comment iw) url finalComment
                                   (username o) liked g) = Ok res).
  { apply hoare_lift. intros st r g t [[Hn Hc] Hca] E.
    destruct r as [res|msg|]; [|apply HI; [split; assumption|discriminate]..].
    repeat split; try assumption. exists (rs_globals st). now rewrite E. }
  intros res. apply hoare_if; intros Hsk.
  { apply hoare_ret. intros st [Hst _]. apply HI; [assumption|discriminate]. }
  apply hoare_if; intros Hsu.
  { apply hoare_ret. intros st [Hst _]. apply HI; [assumption|discriminate]. }
  apply negb_false_iff in Hsu.
  assert (Hcounted : iw_cache iw = Returns false ->
            (exists g, result_of (instagramComment (iw_comment iw) url finalComment
                                    (username o) liked g) = Ok res) ->
            counted o iw url).
  { intros Hca [g Hg]. split; [assumption|]. exists finalComment, liked, g, res. auto. }
  set (J := fun st => (successfulComments st = n + 1 /\ consecutiveEmptyBatches st = c)
                      /\ counted o iw url).
  assert (HJ : forall r st, J st -> (r = Ok Break -> n + 1 >= maxPosts o) ->
                 item_post o iw url n c r st).
  { intros r st [[Hn Hc] Hco] Hr. repeat split; auto. intros Hb. specialize (Hr Hb). lia. }
  eapply hoare_bind with
    (R := fun st0 st => st = st0 /\ I st /\ counted o iw url).
  { apply hoare_get. intros st (Hst & Hca & Hg). auto. }
  intros st0.
  eapply hoare_bind with (R := fun _ st => successfulComments st0 = n /\ J st).
  { unfold set_successful. eapply hoare_bind with
      (R := fun st1 st => st1 = st0 /\ st = st0 /\ I st /\ counted o iw url).
    - apply hoare_get. intros st (-> & Hst & Hco). auto.
    - intros st1. apply hoare_put. intros st (E1 & E2 & [Hn Hc] & Hco).
      subst st1 st. cbn. split; [exact Hn|]. split; [|exact Hco].
      cbn. split; [lia|exact Hc]. }
  intros _.
  eapply hoare_bind with (R := fun _ st => successfulComments st0 = n /\ J st).
  { apply hoare_perform. intros st [Hn HJst].
    destruct (iw_reportSuccess iw); [auto|].
    apply HJ; [assumption|discriminate]. }
  intros _. apply hoare_if; intros Hge.
  { apply hoare_ret. intros st [Hn HJst]. apply HJ; [assumption|].
    intros _. rewrite Z.geb_leb in Hge. apply Z.leb_le in Hge. lia. }
  eapply hoare_bind with (R := fun _ st => J st).
  { apply hoare_sleep. tauto. }
  intros _. apply hoare_ret. intros st HJst. apply HJ; [assumption|discriminate].
Qed.

Lemma process_item_spec iw url n c :
  n < maxPosts o ->
  hoare (fun st => successfulComments st = n /\ consecutiveEmptyBatches st = c)
    (process_item o iw url) (process_post o iw url n c).
Proof.
  intros Hlt. unfold process_item.
  set (I := fun st => successfulComments st = n /\ consecutiveEmptyBatches st = c).
  eapply hoare_bind with (R := fun st0 st => st = st0 /\ I st).
  { apply hoare_get. auto. }
  intros st0.
  eapply hoare_bind with (R := fun _ st => I st /\ successfulComments st0 = n).
  { unfold set_attempts. eapply hoare_bind with (R := fun st1 st => st1 = st0 /\ st = st0 /\ I st).
    - apply hoare_get. intros st [-> Hst]. auto.
    - intros st1. apply hoare_put. intros st (E1 & E2 & [Hn Hc]). subst st1 st.
      cbn. repeat split; assumption. }
  intros _.
  eapply hoare_bind with (R := fun _ st => I st).
  { apply hoare_perform. intros st [[Hn Hc] _].
    destruct (iw_reportProcessing iw) eqn:E; cbn; repeat split; auto. }
  intros _.
  eapply hoare_try_catch with (R := fun _ st => item_post o iw url n c (Ok Continue) st).
  - eapply hoare_weaken; [apply (item_body_spec iw url n c Hlt)|auto|].
    intros r st Hpost. destruct r as [s|msg|]; cbn; try exact Hpost.
    (* an exception thrown after the reply was counted keeps the count *)
    destruct Hpost as (Hc & Hn & _). repeat split; auto. discriminate.
  - intros msg. apply hoare_ret. intros st Hpost. exact Hpost.
Qed.

Lemma process_posts_spec item posts : forall n c,
  n <= maxPosts o ->
  hoare (fun st => successfulComments st = n /\ consecutiveEmptyBatches st = c)
    (process_posts o item posts) (posts_post o item posts n c).
Proof.
  induction posts as [|url rest IH]; intros n c Hle; cbn [process_posts].
  { apply hoare_ret. intros st [Hn Hc]. repeat split; try lia; try discriminate;
      try (intros; lia). }
  set (I := fun st => successfulComments st = n /\ consecutiveEmptyBatches st = c).
  eapply hoare_bind with (R := fun st0 st => st = st0 /\ I st).
  { apply hoare_get. auto. }
  intros st0. apply hoare_if; intros Hge.
  { apply hoare_ret. intros st [_ [Hn Hc]]. repeat split; try lia; try discriminate;
      try (intros; lia). }
  rewrite Z.geb_leb in Hge. apply Z.leb_gt in Hge.
  apply (hoare_assume (successfulComments st0 = n));
    [intros st [-> [Hn _]]; exact Hn|intros Hn0].
  rewrite Hn0 in Hge. apply (hoare_pre _ I); [intros st [_ Hst]; exact Hst|].
  eapply hoare_bind with (R := fun s st => item_post o (item url) url n c (Ok s) st).
  { eapply hoare_weaken; [apply (process_item_spec (item url) url n c Hge)|auto|].
    intros r st Hpost. destruct r as [s|msg|]; cbn in *; [exact Hpost| |].
    - destruct Hpost as (Hrep & Hn & Hc).
      split; [lia|]. split; [lia|]. split; [intros; lia|].
      intros msg' [= <-]. split; [lia|eauto].
    - destruct Hpost as (Hc & Hn & _).
      split; [lia|]. split; [lia|]. split; [|discriminate].
      intros Hne. exists url. split; [set_solver|]. destruct Hn as [?|[_ ?]]; [lia|auto]. }
  intros [|].
  - (* continue *)
    intros st r st' t (Hc & Hn & _) E.
    assert (Hn' : n <= successfulComments st <= maxPosts o) by lia.
    pose proof (IH (successfulComments st) c ltac:(lia) st r st' t
                  (conj eq_refl Hc) E) as (Hc' & Hs' & Hco' & Hth').
    split; [lia|]. split; [lia|]. split; [|exact Hth'].
    intros Hne. destruct (Z.eq_dec (successfulComments st') (successfulComments st)) as [Heq|Hneq].
    + exists url. split; [set_solver|]. destruct Hn as [?|[_ ?]]; [lia|auto].
    + destruct (Hco' Hneq) as (u & Hu & Hcu). exists u. split; [set_solver|auto].
  - (* break *)
    apply hoare_ret. intros st (Hc & Hn & Hb). specialize (Hb eq_refl).
    split; [lia|]. split; [lia|]. split; [|discriminate].
    intros Hne. exists url. split; [set_solver|]. destruct Hn as [?|[_ ?]]; [lia|auto].
Qed.

Lemma batch_body_spec bw st0 :
  successfulComments st0 < maxPosts o ->
  0 <= consecutiveEmptyBatches st0 < 5 ->
  hoare (fun st => st = st0) (batch_body o bw) (body_post o bw st0).
Proof.
  intros Hlt Hceb. unfold batch_body.
  eapply hoare_bind with
    (R := fun posts st =>
            successfulComments st = successfulComments st0 /\
            consecutiveEmptyBatches st = consecutiveEmptyBatches st0 /\
            result_of (discoverInstagramPosts (bw_discover bw) (finalSearchCriteria o)
                         (batchSize o) (rs_globals st0)) = Ok posts).
  { apply hoare_lift. intros st r g t -> E.
    destruct r as [posts|msg|]; cbn; [|split; [lia|left]|exact I].
    - repeat split. now rewrite E.
    - now rewrite E. }
  intros posts. apply hoare_if; intros Hlen.
  - (* an empty batch *)
    destruct posts; [|discriminate].
    eapply hoare_bind with
      (R := fun st1 st => st = st1 /\
              successfulComments st = successfulComments st0 /\
              consecutiveEmptyBatches st = consecutiveEmptyBatches st0 /\
              result_of (discoverInstagramPosts (bw_discover bw) (finalSearchCriteria o)
                           (batchSize o) (rs_globals st0)) = Ok []).
    { apply hoare_get. auto. }
    intros st1.
    eapply hoare_bind with
      (R := fun _ st =>
              successfulComments st = successfulComments st0 /\
              consecutiveEmptyBatches st = consecutiveEmptyBatches st0 + 1 /\
              consecutiveEmptyBatches st1 = consecutiveEmptyBatches st0 /\
              result_of (discoverInstagramPosts (bw_discover bw) (finalSearchCriteria o)
                           (batchSize o) (rs_globals st0)) = Ok []).
    { unfold set_empty_batches.
      eapply hoare_bind with
        (R := fun st2 st => st2 = st /\ st = st1 /\
                successfulComments st = successfulComments st0 /\
                consecutiveEmptyBatches st = consecutiveEmptyBatches st0 /\
                result_of (discoverInstagramPosts (bw_discover bw) (finalSearchCriteria o)
                             (batchSize o) (rs_globals st0)) = Ok []).
      - apply hoare_get. intros st (-> & Hn & Hc & Hd). auto.
      - intros st2. apply hoare_put. intros st (-> & -> & Hn & Hc & Hd).
        cbn. repeat split; auto; lia. }
    intros _. unfold maxConsecutiveEmptyBatches. apply hoare_if; intros Hge;
      rewrite Z.geb_leb in Hge; [apply Z.leb_le in Hge|apply Z.leb_gt in Hge];
      apply hoare_ret; intros st (Hn & Hc & Hc1 & Hd); cbn; repeat split; auto; lia.
  - (* a batch with posts *)
    eapply hoare_bind with
      (R := fun _ st => successfulComments st = successfulComments st0 /\
                        consecutiveEmptyBatches st = 0).
    { unfold set_empty_batches.
      eapply hoare_bind with
        (R := fun st2 st => st2 = st /\ successfulComments st = successfulComments st0).
      - apply hoare_get. intros st (Hn & _). auto.
      - intros st2. apply hoare_put. intros st (-> & Hn). cbn. auto. }
    intros _.
    eapply hoare_bind with
      (R := fun _ st => posts_post o (bw_item bw) posts (successfulComments st0) 0 (Ok tt) st).
    { eapply hoare_weaken;
        [apply (process_posts_spec (bw_item bw) posts (successfulComments st0) 0); lia|auto|].
      intros r st Hpost. destruct r as [[]|msg|]; cbn; [exact Hpost| |exact I].
      destruct Hpost as (_ & _ & _ & Hth). destruct (Hth msg eq_refl) as [Hs Hu].
      split; [exact Hs|right; exact Hu]. }
    intros _.
    eapply hoare_bind with
      (R := fun st1 st => st1 = st /\
              posts_post o (bw_item bw) posts (successfulComments st0) 0 (Ok tt) st).
    { apply hoare_get. auto. }
    intros st1. apply hoare_if; intros Hge;
      rewrite Z.geb_leb in Hge; [apply Z.leb_le in Hge|apply Z.leb_gt in Hge];
      apply hoare_ret; intros st (-> & Hc & Hn & _); cbn; lia.
Qed.

Lemma batch_round_spec bw st0 :
  successfulComments st0 < maxPosts o ->
  0 <= consecutiveEmptyBatches st0 < 5 ->
  hoare (fun st => st = st0) (batch_round o bw) (round_post o bw st0).
Proof.
  intros Hlt Hceb. unfold batch_round.
  eapply hoare_try_catch with
    (R := fun msg st => successfulComments st < maxPosts o /\
                        collaborator_throws o bw (rs_globals st0) msg).
  - eapply hoare_weaken; [apply (batch_body_spec bw st0 Hlt Hceb)|auto|].
    intros r st Hpost. destruct r as [[[| |msg]|]|msg|]; cbn in *; auto.
    destruct Hpost.
  - intros msg. apply hoare_ret. intros st H. exact H.
Qed.

(** The loop leaves only by one of its three exits, each for its reason,
    and no exception escapes it. *)
Lemma batch_loop_spec script :
  hoare (fun st => successfulComments st <= maxPosts o /\
                   0 <= consecutiveEmptyBatches st < 5)
    (batch_loop o script)
    (fun r st' => match r with
                  | Ok why => stop_justified o script why st'
                  | Throw _ => False
                  | Pending => True
                  end).
Proof.
  induction script as [|bw script IH]; cbn [batch_loop].
  - eapply hoare_bind with (R := fun st0 st => st = st0 /\ successfulComments st <= maxPosts o).
    { apply hoare_get. intros st [Hn _]. auto. }
    intros st0. apply hoare_if; intros Hh.
    + apply hoare_ret. intros st [-> Hn]. cbn.
      apply negb_true_iff, Z.ltb_ge in Hh. lia.
    + apply hoare_pending. auto.
  - eapply hoare_bind with
      (R := fun st0 st => st = st0 /\ successfulComments st <= maxPosts o /\
                          0 <= consecutiveEmptyBatches st < 5).
    { apply hoare_get. intros st [Hn Hc]. auto. }
    intros st0. apply hoare_if; intros Hh.
    + apply hoare_ret. intros st (-> & Hn & _). cbn.
      apply negb_true_iff, Z.ltb_ge in Hh. lia.
    + apply negb_false_iff, Z.ltb_lt in Hh.
      apply (hoare_assume (0 <= consecutiveEmptyBatches st0 < 5));
        [intros st (-> & _ & Hc); exact Hc|intros Hc].
      apply (hoare_pre _ (fun st => st = st0)); [intros st [Hst _]; exact Hst|].
      eapply hoare_bind with (R := fun r0 st => round_post o bw st0 (Ok r0) st).
      * eapply hoare_weaken; [apply (batch_round_spec bw st0 Hh Hc)|auto|].
        intros r1 st1 Hpost. destruct r1 as [r1|msg|]; [exact Hpost|destruct Hpost|exact I].
      * intros [why|].
        -- apply hoare_ret. intros st1 Hpost. cbn in *.
           destruct why as [| |msg]; cbn; [exact Hpost| |].
           ++ destruct Hpost as (H5 & Hs & _). split; [exact H5|lia].
           ++ destruct Hpost as (Hs & Hthrow). split; [exact Hs|].
              exists bw, (rs_globals st0). split; [set_solver|exact Hthrow].
        -- eapply hoare_weaken; [apply IH| |].
           ++ intros st1 Hpost. cbn in Hpost. cbn beta. lia.
           ++ intros r1 st1 Hpost. destruct r1 as [why|msg|]; auto.
              destruct why as [| |msg]; cbn in *; auto.
              destruct Hpost as (Hs & bw' & g & Hin & Hthrow).
              split; [exact Hs|]. exists bw', g. split; [set_solver|exact Hthrow].
Qed.

End OrchestratorFacts.

(* ------------------------------------------------------------------------- *)
(** ** Claims about the auto-comment loop *)
(* ------------------------------------------------------------------------- *)

(** The loop as [runAction] enters it: discovery state reset, counters at
    zero. *)
Lemma runAction_auto_comment_spec o report_start script :
  0 <= maxPosts o ->
  hoare (fun _ => True) (runAction_auto_comment o report_start script)
    (fun r st' => match r with
                  | Ok why => stop_justified o script why st'
                  | Throw msg => report_start = Throws msg
                  | Pending => True
                  end).
Proof.
  intros Hmax. unfold runAction_auto_comment.
  eapply hoare_bind with (R := fun _ _ => True).
  { apply hoare_lift. intros st r g t _.
    unfold resetDiscoveryState, bind, get, put. intros [= <- _ _]. exact I. }
  intros _. eapply hoare_bind with (R := fun _ _ => True).
  { apply hoare_perform. intros st _. destruct report_start; auto. }
  intros _. eapply hoare_bind with (R := fun _ st => successfulComments st = 0).
  { unfold set_successful. eapply hoare_bind with (R := fun st0 st => True).
    - apply hoare_get. auto.
    - intros st0. apply hoare_put. intros st _. reflexivity. }
  intros _. eapply hoare_bind with (R := fun _ st => successfulComments st = 0).
  { unfold set_attempts. eapply hoare_bind with (R := fun st0 st => st = st0 /\ successfulComments st = 0).
    - apply hoare_get. auto.
    - intros st0. apply hoare_put. intros st [-> H]. exact H. }
  intros _.
  eapply hoare_bind with
    (R := fun _ st => successfulComments st = 0 /\ consecutiveEmptyBatches st = 0).
  { unfold set_empty_batches. eapply hoare_bind with (R := fun st0 st => st = st0 /\ successfulComments st = 0).
    - apply hoare_get. auto.
    - intros st0. apply hoare_put. intros st [-> H]. split; [exact H|reflexivity]. }
  intros _. eapply hoare_weaken; [apply batch_loop_spec| |].
  - intros st [Hn Hc]. cbn beta. lia.
  - intros [why|msg|] st H; cbn; auto. destruct H.
Qed.

(** C1: the [while] loop of the auto-comment action is left only (1) with
    the success counter equal to the target, (2) with the counter of
    consecutive empty batches equal to 5, or (3) because a collaborator
    called outside the per-item handler (the Discoverer, or the progress
    reporter) threw; no exception escapes the loop; and a round whose batch
    is not empty and in which no reply is counted does not stop the loop,
    unless the reporter throws.  This holds of the loop entered in any state
    with at most [maxPosts] successes and fewer than five consecutive empty
    batches, hence of the loop as [runAction] enters it with a target
    [maxPosts >= 0]. *)
Theorem C1_loop_stops_for_three_reasons_only o :
  (forall script st why st' t,
     successfulComments st <= maxPosts o ->
     0 <= consecutiveEmptyBatches st < 5 ->
     batch_loop o script st = (Ok why, st', t) ->
     stop_justified o script why st') /\
  (forall script st msg,
     successfulComments st <= maxPosts o ->
     0 <= consecutiveEmptyBatches st < 5 ->
     result_of (batch_loop o script st) <> Throw msg) /\
  (forall bw st r st' t,
     successfulComments st < maxPosts o ->
     0 <= consecutiveEmptyBatches st < 5 ->
     batch_round o bw st = (Ok r, st', t) ->
     batch_not_empty o bw (rs_globals st) ->
     successfulComments st' = successfulComments st ->
     r = None \/
     exists msg, r = Some (BatchError msg) /\
                 exists url, iw_reportProcessing (bw_item bw url) = Throws msg) /\
  (forall report_start script st why st' t,
     0 <= maxPosts o ->
     runAction_auto_comment o report_start script st = (Ok why, st', t) ->
     stop_justified o script why st').
Proof.
  split; [|split; [|split]].
  - intros script st why st' t Hn Hc E.
    exact (batch_loop_spec o script st (Ok why) st' t (conj Hn Hc) E).
  - intros script st msg Hn Hc E.
    destruct (batch_loop o script st) as [[r st'] t] eqn:Er. cbn in E. subst r.
    exact (batch_loop_spec o script st _ st' t (conj Hn Hc) Er).
  - intros bw st r st' t Hn Hc E (url & posts & Hd) Hsame.
    pose proof (batch_round_spec o bw st Hn Hc st (Ok r) st' t eq_refl E) as Hpost.
    destruct r as [[| |msg]|]; cbn in Hpost; [lia| | |now left].
    + destruct Hpost as (_ & _ & Hempty). congruence.
    + right. exists msg. split; [reflexivity|].
      destruct Hpost as (_ & [Hthrow|Hrep]); [congruence|exact Hrep].
  - intros report_start script st why st' t Hmax E.
    exact (runAction_auto_comment_spec o report_start script Hmax st (Ok why) st' t I E).
Qed.

(** Five empty batches in a row: the loop stops on exhausted content. *)
Lemma C1_witness :
  stop_justified (target 3) (replicate 5 empty_batch) ContentExhausted
    (state_of (batch_loop (target 3) (replicate 5 empty_batch) initial_run)).
Proof.
  refine (proj1 (C1_loop_stops_for_three_reasons_only (target 3))
            (replicate 5 empty_batch) initial_run ContentExhausted _
            (trace_of (batch_loop (target 3) (replicate 5 empty_batch) initial_run))
            _ _ _).
  - cbn. lia.
  - cbn. lia.
  - vm_compute. reflexivity.
Defined.

Example loop_reaches_target :
  result_of (batch_loop (target 2) [good_batch] initial_run) = Ok TargetReached /\
  successfulComments (state_of (batch_loop (target 2) [good_batch] initial_run)) = 2.
Proof. split; vm_compute; reflexivity. Qed.

Example loop_stops_on_login_wall :
  result_of (batch_loop (target 2) [bare_batch; walled_batch; good_batch] initial_run)
  = Ok (BatchError "Instagram login required for post discovery").
Proof. vm_compute. reflexivity. Qed.

Example batch_without_success_goes_on :
  result_of (batch_round (target 2) bare_batch initial_run) = Ok None /\
  result_of (batch_loop (target 2) [bare_batch; good_batch] initial_run)
  = Ok TargetReached.
Proof. split; vm_compute; reflexivity. Qed.

(** C9, as stated, fails: with a target of 3 and 2 successes counted, the
    claim asks for a batch of [min(10, 2 * 1) = 2], but the round requests
    [min(10, 2 * 3) = 6] posts from the Discoverer and goes through the six
    it gets. *)
Lemma C9_batch_size_ignores_successes :
  Z.min 10 (2 * (maxPosts (target 3) - successfulComments (run_after 2))) = 2 /\
  batchSize (target 3) = 6 /\
  size (allDiscoveredPosts
          (rs_globals (state_of (batch_round (target 3) bare_batch (run_after 2))))) = 6%nat /\
  attempts_made (state_of (batch_round (target 3) bare_batch (run_after 2)))
  = attempts_made (run_after 2) + 6.
Proof. repeat split; vm_compute; reflexivity. Qed.

(** C9, amended: on every iteration the size requested from the Discoverer
    is [min(10, 2 * maxPosts)], computed from the target alone; with [s]
    successes counted it is the [min(10, 2 * (maxPosts - s))] of the claim
    exactly when [s = 0] or at least five successes remain. *)
Theorem C9_batch_size_from_target_alone o :
  (forall bw, exists k,
     batch_body o bw
     = bind (lift (discoverInstagramPosts (bw_discover bw) (finalSearchCriteria o)
                     (Z.min 10 (2 * maxPosts o)))) k) /\
  (forall s, 0 <= s < maxPosts o ->
     (batchSize o = Z.min 10 (2 * (maxPosts o - s)) <-> s = 0 \/ 5 <= maxPosts o - s)).
Proof.
  split.
  - intros bw. unfold batch_body, batchSize. rewrite (Z.mul_comm (maxPosts o) 2).
    eexists. reflexivity.
  - intros s Hs. unfold batchSize. lia.
Qed.

Lemma C9_witness :
  batchSize (target 7) = Z.min 10 (2 * (maxPosts (target 7) - 2)) <->
  2 = 0 \/ 5 <= maxPosts (target 7) - 2.
Proof.
  apply (proj2 (C9_batch_size_from_target_alone (target 7)) 2). cbn. lia.
Defined.

(* ------------------------------------------------------------------------- *)
(** ** Claims about the favorite action *)
(* ------------------------------------------------------------------------- *)

Section LikeFacts.

Variables (w : like_world) (url : string).



Lemma mark_liked_then_true (P : globals -> Prop) (Q : outcome bool -> globals -> Prop) :
  (forall g, url ∈ likedPosts g -> Q (Ok true) g) ->
  hoare P (run mark_liked url; ret true) Q.
Proof.
  intros HQ. eapply hoare_bind with (R := fun _ g => url ∈ likedPosts g).
  - unfold mark_liked. eapply hoare_bind with (R := fun g0 g => g = g0).
    + apply hoare_get. auto.
    + intros g0. apply hoare_put. intros g _. cbn. set_solver.
  - intros _. apply hoare_ret. exact HQ.
Qed.

Lemma like_by_click_marks : hoare (fun _ => True) (like_by_click w url) (liked_after url).
Proof.
  unfold like_by_click.
  eapply hoare_try_catch with (R := fun _ _ => True);
    [|intros msg; apply hoare_ret; intros g _; discriminate].
  eapply hoare_bind with (R := fun _ _ => True).
  { apply hoare_perform. intros g _. destruct (kw_button w _); exact I. }
  intros b1. eapply hoare_bind with (R := fun _ _ => True).
  { unfold or_else. destruct b1; [apply hoare_ret; auto|].
    apply hoare_perform. intros g _. destruct (kw_button w _); exact I. }
  intros b2. eapply hoare_bind with (R := fun _ _ => True).
  { unfold or_else. destruct b2; [apply hoare_ret; auto|].
    apply hoare_perform. intros g _. destruct (kw_button w _); exact I. }
  intros likeButton. destruct likeButton;
    [|apply hoare_ret; intros g _; discriminate].
  eapply hoare_bind with (R := fun _ _ => True).
  { apply hoare_perform. intros g _. destruct (kw_click w); exact I. }
  intros _. eapply hoare_bind with (R := fun _ _ => True).
  { apply hoare_sleep. auto. }
  intros _. eapply hoare_bind with (R := fun _ _ => True).
  { apply hoare_perform. intros g _. destruct (kw_isLiked w); exact I. }
  intros isLiked. destruct isLiked;
    [apply mark_liked_then_true; intros g Hg _; exact Hg
    |apply hoare_ret; intros g _; discriminate].
Qed.

(** A call that reports success leaves the post in the (liked_after url) set. *)
Lemma instagramLike_marks : hoare (fun _ => True) (instagramLike w url) (liked_after url).
Proof.
  unfold instagramLike.
  eapply hoare_bind with (R := fun g0 g => g = g0).
  { apply hoare_get. auto. }
  intros g0. destruct (bool_decide (url ∈ likedPosts g0)) eqn:E.
  { apply hoare_ret. intros g -> _. now apply bool_decide_eq_true in E. }
  apply (hoare_pre _ (fun _ => True)); [auto|].
  eapply hoare_try_catch with (R := fun _ _ => True);
    [|intros msg; apply hoare_throw; intros g _; discriminate].
  eapply hoare_bind with (R := fun _ _ => True).
  { apply hoare_perform. intros g _. destruct (kw_goto w); exact I. }
  intros _. eapply hoare_bind with (R := fun _ _ => True).
  { apply hoare_sleep. auto. }
  intros _. eapply hoare_bind with (R := fun _ _ => True).
  { apply hoare_perform. intros g _. destruct (kw_mediaId w); exact I. }
  intros [[|a id]|]; try (apply hoare_ret; intros g _; discriminate).
  eapply hoare_bind with (R := fun _ _ => True).
  { apply hoare_perform. intros g _. destruct (kw_alreadyLiked w); exact I. }
  intros [|]; [apply mark_liked_then_true; intros g Hg _; exact Hg|].
  eapply hoare_bind with (R := fun _ _ => True).
  { apply hoare_perform. intros g _. destruct (kw_headers w); exact I. }
  intros _. eapply hoare_bind with (R := fun _ _ => True).
  { eapply hoare_try_catch with (R := fun _ _ => True);
      [|intros msg; apply hoare_ret; auto].
    apply hoare_perform. intros g _. destruct (kw_api1 w); exact I. }
  intros [|]; [apply mark_liked_then_true; intros g Hg _; exact Hg|].
  eapply hoare_bind with (R := fun _ _ => True).
  { eapply hoare_try_catch with (R := fun _ _ => True);
      [|intros msg; apply hoare_ret; auto].
    apply hoare_perform. intros g _. destruct (kw_api2 w); exact I. }
  intros [|]; [apply mark_liked_then_true; intros g Hg _; exact Hg|].
  eapply hoare_weaken; [apply like_by_click_marks|auto|].
  intros [b|msg|] g Hl; cbn; auto.
Qed.

End LikeFacts.

(** C7, as stated, fails: on a post where every method fails (both requests
    are refused and no like button is found), two calls in a row both return
    [false], and each of them sends the two requests again: four mutation
    attempts.  And when the first call succeeds through the second endpoint,
    both calls succeed but two requests were sent. *)
Lemma C7_like_twice_can_fail_and_retry :
  let first := instagramLike blocked_like "https://www.instagram.com/p/A/" initial_globals in
  let second := instagramLike blocked_like "https://www.instagram.com/p/A/" (state_of first) in
  let one := instagramLike second_endpoint_like "https://www.instagram.com/p/A/" initial_globals in
  let two := instagramLike second_endpoint_like "https://www.instagram.com/p/A/" (state_of one) in
  result_of first = Ok false /\ result_of second = Ok false /\
  mutation_attempts (trace_of first ++ trace_of second) = 4%nat /\
  result_of one = Ok true /\ result_of two = Ok true /\
  mutation_attempts (trace_of one ++ trace_of two) = 2%nat.
Proof. repeat split; vm_compute; reflexivity. Qed.

(** C7, amended: when a call of [instagramLike] on an item returns success,
    the item is in the in-run liked set, and any later call on the same item
    in the same run returns success at once: it makes no call to the page
    (so no further mutation attempt) and leaves the globals as they are. *)
Theorem C7_like_again_after_success w1 w2 url g g1 t1 :
  instagramLike w1 url g = (Ok true, g1, t1) ->
  url ∈ likedPosts g1 /\
  instagramLike w2 url g1 = (Ok true, g1, []) /\
  existsb touches_page (trace_of (instagramLike w2 url g1)) = false /\
  mutation_attempts (trace_of (instagramLike w2 url g1)) = 0%nat.
Proof.
  intros E.
  assert (Hin : url ∈ likedPosts g1).
  { exact (instagramLike_marks w1 url g (Ok true) g1 t1 I E eq_refl). }
  assert (E2 : instagramLike w2 url g1 = (Ok true, g1, [])).
  { unfold instagramLike, bind, get.
    now rewrite (bool_decide_eq_true_2 _ Hin). }
  split; [exact Hin|]. split; [exact E2|]. rewrite E2. split; reflexivity.
Qed.

Lemma C7_witness :
  "https://www.instagram.com/p/A/"
    ∈ likedPosts (state_of (instagramLike second_endpoint_like
                              "https://www.instagram.com/p/A/" initial_globals)) /\
  instagramLike blocked_like "https://www.instagram.com/p/A/"
    (state_of (instagramLike second_endpoint_like
                 "https://www.instagram.com/p/A/" initial_globals))
  = (Ok true,
     state_of (instagramLike second_endpoint_like
                 "https://www.instagram.com/p/A/" initial_globals), []) /\
  existsb touches_page
    (trace_of (instagramLike blocked_like "https://www.instagram.com/p/A/"
                 (state_of (instagramLike second_endpoint_like
                              "https://www.instagram.com/p/A/" initial_globals))))
  = false /\
  mutation_attempts
    (trace_of (instagramLike blocked_like "https://www.instagram.com/p/A/"
                 (state_of (instagramLike second_endpoint_like
                              "https://www.instagram.com/p/A/" initial_globals))))
  = 0%nat.
Proof.
  apply (C7_like_again_after_success second_endpoint_like blocked_like
           "https://www.instagram.com/p/A/" initial_globals _
           (trace_of (instagramLike second_endpoint_like
                        "https://www.instagram.com/p/A/" initial_globals))).
  vm_compute. reflexivity.
Defined.

(* ------------------------------------------------------------------------- *)
(** ** Claims about the reply action *)
(* ------------------------------------------------------------------------- *)

Ltac hperform :=
  apply hoare_perform; intros ? ?;
  match goal with |- match ?o with _ => _ end => destruct o end; cbn; auto.

Ltac hbind := eapply hoare_bind with (R := fun _ _ => True).

Section CommentFacts.

Variables (w : comment_world) (url comment : string) (username : option string).

Lemma enter_comment_settles (Q : outcome bool -> globals -> Prop) :
  (forall b g, Q (Ok b) g) -> (forall msg g, Q (Throw msg) g) ->
  hoare (fun _ => True) (enter_comment w comment) Q.
Proof.
  intros HOk HThrow. unfold enter_comment.
  hbind.
  { eapply hoare_weaken; [apply (find_first_returns _ _ (fun _ => True))|auto|].
    intros [b|msg|] g H; cbn; auto; destruct H. }
  intros found. hbind.
  { destruct found; [apply hoare_ret; auto|].
    hbind; [hperform|]. intros _. hbind; [apply hoare_sleep; auto|]. intros _.
    eapply hoare_weaken; [apply (find_first_returns _ _ (fun _ => True))|auto|].
    intros [b|msg|] g H; cbn; auto; destruct H. }
  intros [|]; cbn [negb]; [|apply hoare_ret; auto].
  hbind; [hperform|]. intros _. hbind; [apply hoare_sleep; auto|]. intros _.
  hbind; [hperform|]. intros _. hbind; [apply hoare_sleep; auto|]. intros _.
  hbind; [hperform|]. intros _. hbind; [apply hoare_sleep; auto|]. intros _.
  hbind; [hperform|]. intros typedText. hbind.
  { destruct (negb (Url.string_eqb typedText comment)); [|apply hoare_ret; auto].
    hbind; [hperform|]. intros _. hbind; [apply hoare_sleep; auto|]. intros _.
    hbind; [hperform|]. intros _. apply hoare_sleep. auto. }
  intros _. apply hoare_ret. auto.
Qed.

Lemma find_post_button_settles (Q : outcome bool -> globals -> Prop) :
  (forall b g, Q (Ok b) g) -> (forall msg g, Q (Throw msg) g) ->
  hoare (fun _ => True) (find_post_button w) Q.
Proof.
  intros HOk HThrow. unfold find_post_button, or_else.
  hbind; [hperform|]. intros b1.
  hbind; [destruct b1; [apply hoare_ret; auto|hperform]|]. intros b2.
  hbind; [destruct b2; [apply hoare_ret; auto|hperform]|]. intros b3.
  hbind; [destruct b3; [apply hoare_ret; auto|hperform]|]. intros b4.
  hbind.
  { destruct b4; [apply hoare_ret; auto|]. hbind; [hperform|]. intros _.
    eapply hoare_weaken; [apply (find_first_returns _ _ (fun _ => True))|auto|].
    intros [b|msg|] g H; cbn; auto; destruct H. }
  intros b5. destruct b5; [apply hoare_ret; auto|hperform].
Qed.

(** The body of the [try] block returns an outcome that carries a reason
    unless it is a success, or throws; it does not stay pending. *)
Lemma comment_body_spec skipNavigation :
  hoare (fun _ => True) (comment_body w url comment username skipNavigation)
    (fun r _ => match r with
                | Ok res => success res = false -> is_Some (reason res)
                | Throw _ => True
                | Pending => False
                end).
Proof.
  unfold comment_body.
  hbind; [hperform|]. intros [|]; [apply hoare_ret; cbn; eauto|].
  hbind.
  { destruct (negb skipNavigation); [|apply hoare_sleep; auto].
    hbind; [hperform|]. intros _. apply hoare_sleep. auto. }
  intros _. hbind; [hperform|]. intros loginWall.
  hbind; [apply hoare_sleep; auto|]. intros _.
  hbind; [apply enter_comment_settles; cbn; auto|].
  intros [|]; cbn [negb]; [|apply hoare_ret; cbn; eauto].
  hbind; [apply find_post_button_settles; cbn; auto|].
  intros [|]; cbn [negb].
  - unfold click_and_verify.
    hbind; [hperform|]. intros _. hbind; [apply hoare_sleep; auto|]. intros _.
    hbind; [hperform|]. intros [|]; apply hoare_ret; cbn; intros; discriminate.
  - unfold press_enter_and_verify. hbind.
    { eapply hoare_try_catch with (R := fun _ _ => True);
        [|intros msg; apply hoare_ret; auto].
      hbind; [hperform|]. intros _. hbind; [apply hoare_sleep; auto|]. intros _.
      hperform. }
    intros [|]; apply hoare_ret; cbn; intros; [discriminate|eauto].
Qed.

(** [instagramComment] always returns an outcome. *)
Lemma instagramComment_reasoned skipNavigation g :
  reasoned (result_of (instagramComment w url comment username skipNavigation g)).
Proof.
  destruct (instagramComment w url comment username skipNavigation g)
    as [[r g'] t] eqn:E. cbn.
  revert E. unfold instagramComment.
  refine (hoare_try_catch (fun _ => True) _ _ (fun _ _ => True)
            (fun r _ => reasoned r) _ _ g r g' t I).
  - eapply hoare_weaken; [apply comment_body_spec|auto|].
    intros [res|msg|] s H; cbn; auto.
  - intros msg. apply hoare_ret. intros s _. cbn. eauto.
Qed.

(** With a prior reply in the cache [instagramComment] only consults the
    cache. *)
Lemma instagramComment_cached skipNavigation g :
  cw_cache w = Returns true ->
  instagramComment w url comment username skipNavigation g
  = (Ok (skip_outcome url), g, [CacheLookup username url]).
Proof.
  intros H. unfold instagramComment, try_catch, comment_body, bind, perform.
  rewrite H. reflexivity.
Qed.

(** What the final verification observes does not change the result. *)
Lemma instagramComment_ignores_verification skipNavigation g b b' :
  instagramComment (with_posted w (Returns b)) url comment username skipNavigation g
  = instagramComment (with_posted w (Returns b')) url comment username skipNavigation g.
Proof.
  unfold instagramComment. apply try_catch_ext.
  unfold comment_body, enter_comment, find_post_button, click_and_verify,
    press_enter_and_verify. cbn [with_posted
    cw_cache cw_goto cw_loginWall cw_input cw_scroll cw_input_scrolled cw_focus
    cw_clear cw_type cw_typedText cw_retype cw_submit cw_ariaPost cw_ariaComment
    cw_textButton cw_availableButtons cw_additional cw_nearInput cw_pressEnter
    cw_postedAfterEnter cw_clickPost cw_posted].
  apply bind_ext. intros [|] s1; [reflexivity|].
  apply bind_ext. intros _ s2. apply bind_ext. intros _ s3.
  apply bind_ext. intros _ s4. apply bind_ext. intros [|] s5; [|reflexivity].
  cbn [negb]. apply bind_ext. intros [|] s6; [|reflexivity].
  cbn [negb]. apply bind_ext. intros _ s7. apply bind_ext. intros _ s8.
  destruct b, b'; reflexivity.
Qed.

(** Once the post button is clicked, success is reported whatever the
    verification observes. *)
Lemma click_and_verify_succeeds g b :
  cw_clickPost w = Returns tt -> cw_posted w = Returns b ->
  click_and_verify w url g
  = (Ok (success_outcome url), g,
     [Act "click post button"; Sleep 2000; Read "reply text among rendered content"]).
Proof.
  intros Hc Hp. unfold click_and_verify, bind, perform, sleep, ret.
  rewrite Hc, Hp. destruct b; reflexivity.
Qed.

End CommentFacts.

Section LegacyCommentFacts.

Variables (w : Legacy.world) (url comment : string) (username : option string).

(** The other listing returns either the skip outcome or a success backed
    by one of the two verification signals; otherwise it throws. *)
Lemma legacy_comment_spec skipNavigation :
  hoare (fun _ => True) (Legacy.instagramComment w url comment username skipNavigation)
    (fun r _ => match r with
                | Ok res =>
                    (res = skip_outcome url /\ Legacy.lc_cache w = Returns true) \/
                    (success res = true /\
                     exists inputCleared commentFound,
                       Legacy.lc_verification w = Returns (inputCleared, commentFound) /\
                       inputCleared || commentFound = true)
                | Throw _ => True
                | Pending => False
                end).
Proof.
  unfold Legacy.instagramComment.
  eapply hoare_try_catch with (R := fun _ _ => True);
    [|intros msg; apply hoare_throw; auto].
  unfold Legacy.body.
  eapply hoare_bind with (R := fun a _ => Legacy.lc_cache w = Returns a).
  { apply hoare_perform. intros g _. destruct (Legacy.lc_cache w); auto. }
  intros [|]; [apply hoare_ret; cbn; auto|].
  apply (hoare_pre _ (fun _ => True)); [auto|].
  hbind.
  { destruct (negb skipNavigation); [|apply hoare_sleep; auto].
    hbind; [hperform|]. intros _. apply hoare_sleep. auto. }
  intros _. hbind; [hperform|]. intros loginWall.
  hbind; [apply hoare_sleep; auto|]. intros _.
  hbind.
  { eapply hoare_weaken; [apply (find_first_returns _ _ (fun _ => True))|auto|].
    intros [b|msg|] g H; cbn; auto; destruct H. }
  intros found. hbind.
  { destruct found; [apply hoare_ret; auto|].
    hbind; [hperform|]. intros _. hbind; [apply hoare_sleep; auto|]. intros _.
    eapply hoare_weaken; [apply (find_first_returns _ _ (fun _ => True))|auto|].
    intros [b|msg|] g H; cbn; auto; destruct H. }
  intros [|]; cbn [negb]; [|apply hoare_throw; auto].
  hbind; [hperform|]. intros _. hbind; [apply hoare_sleep; auto|]. intros _.
  hbind; [hperform|]. intros _. hbind; [apply hoare_sleep; auto|]. intros _.
  hbind.
  { unfold Legacy.click_submit.
    eapply hoare_try_catch with (R := fun _ _ => True);
      [|intros msg; apply hoare_ret; auto].
    hbind; [hperform|]. intros [|]; [|apply hoare_ret; auto].
    hbind; [hperform|]. intros _. apply hoare_ret. auto. }
  intros submitted. hbind.
  { unfold or_else. destruct submitted; [apply hoare_ret; auto|hperform]. }
  intros submitted'. hbind.
  { destruct (negb submitted'); [hperform|apply hoare_ret; auto]. }
  intros _. hbind; [apply hoare_sleep; auto|]. intros _.
  unfold Legacy.verify.
  eapply hoare_bind with (R := fun a _ => Legacy.lc_verification w = Returns a).
  { apply hoare_perform. intros g _. destruct (Legacy.lc_verification w); auto. }
  intros [inputCleared commentFound].
  destruct (inputCleared || commentFound) eqn:E.
  - apply hoare_ret. intros g Hv. cbn. right. split; [reflexivity|eauto].
  - apply hoare_throw. auto.
Qed.

(** The verification of the other listing. *)
Lemma legacy_verify_spec g inputCleared commentFound :
  Legacy.lc_verification w = Returns (inputCleared, commentFound) ->
  result_of (Legacy.verify w url comment g)
  = if inputCleared || commentFound then Ok (success_outcome url)
    else Throw "Comment verification failed - comment may not have been posted".
Proof.
  intros H. unfold Legacy.verify, bind, perform, throw, ret, result_of.
  rewrite H. destruct (inputCleared || commentFound); reflexivity.
Qed.

End LegacyCommentFacts.

(** C4, as stated, fails on both listings of [instagramComment].  In the
    first one, on a page where the post button is found and clicked and the
    reply text then does not show among the rendered content, the function
    returns a success.  In the other one, when neither the cleared input
    nor the reply text is observed, the function throws. *)
Lemma C4_unverified_reply_succeeds_or_throws :
  cw_posted unverified_comment = Returns false /\
  result_of (instagramComment unverified_comment "https://www.instagram.com/p/A/"
               "Nice shot" (Some "me") false initial_globals)
  = Ok (success_outcome "https://www.instagram.com/p/A/") /\
  Legacy.lc_verification Legacy.legacy_unverified = Returns (false, false) /\
  result_of (Legacy.instagramComment Legacy.legacy_unverified
               "https://www.instagram.com/p/A/" "Nice shot" (Some "me") false
               initial_globals)
  = Throw "Comment verification failed - comment may not have been posted".
Proof. repeat split; vm_compute; reflexivity. Qed.

(** C4, amended.  First listing (lines 674-975): [instagramComment] never
    throws, every exception raised in it is returned as a failure outcome,
    and an outcome that is not a success carries a reason; the verification
    after the click only looks for the reply text, and what it observes does
    not change the result: once the post button is clicked, success is
    reported (a failed verification is logged and success is assumed).
    Other listing (lines 1705-1946): the verification reports success
    exactly when the input is found cleared or the reply text is found among
    the comments and throws 'Comment verification failed - comment may not
    have been posted' otherwise; the function returns nothing but the skip
    outcome or such a verified success, and does not stay pending. *)
Theorem C4_reply_outcomes :
  (forall w url comment username skipNavigation g,
     reasoned (result_of (instagramComment w url comment username skipNavigation g))) /\
  (forall w url comment username skipNavigation g b b',
     instagramComment (with_posted w (Returns b)) url comment username skipNavigation g
     = instagramComment (with_posted w (Returns b')) url comment username skipNavigation g) /\
  (forall w url g b,
     cw_clickPost w = Returns tt -> cw_posted w = Returns b ->
     result_of (click_and_verify w url g) = Ok (success_outcome url)) /\
  (forall w url comment g inputCleared commentFound,
     Legacy.lc_verification w = Returns (inputCleared, commentFound) ->
     result_of (Legacy.verify w url comment g)
     = if inputCleared || commentFound then Ok (success_outcome url)
       else Throw "Comment verification failed - comment may not have been posted") /\
  (forall w url comment username skipNavigation g,
     match result_of (Legacy.instagramComment w url comment username skipNavigation g) with
     | Ok res =>
         (res = skip_outcome url /\ Legacy.lc_cache w = Returns true) \/
         (success res = true /\
          exists inputCleared commentFound,
            Legacy.lc_verification w = Returns (inputCleared, commentFound) /\
            inputCleared || commentFound = true)
     | Throw _ => True
     | Pending => False
     end).
Proof.
  split; [|split; [|split; [|split]]].
  - intros. apply instagramComment_reasoned.
  - intros. apply instagramComment_ignores_verification.
  - intros w url g b Hc Hp. now rewrite (click_and_verify_succeeds w url g b Hc Hp).
  - intros. now apply legacy_verify_spec.
  - intros w url comment username skipNavigation g.
    destruct (Legacy.instagramComment w url comment username skipNavigation g)
      as [[r g'] t] eqn:Er.
    exact (legacy_comment_spec w url comment username skipNavigation g _ g' t I Er).
Qed.

Lemma C4_witness :
  result_of (click_and_verify unverified_comment "https://www.instagram.com/p/A/"
               initial_globals)
  = Ok (success_outcome "https://www.instagram.com/p/A/") /\
  result_of (Legacy.verify Legacy.legacy_unverified "https://www.instagram.com/p/A/"
               "Nice shot" initial_globals)
  = (if false || false then Ok (success_outcome "https://www.instagram.com/p/A/")
     else Throw "Comment verification failed - comment may not have been posted").
Proof.
  split.
  - apply (proj1 (proj2 (proj2 C4_reply_outcomes)) unverified_comment
             "https://www.instagram.com/p/A/" initial_globals false); reflexivity.
  - apply (proj1 (proj2 (proj2 (proj2 C4_reply_outcomes))) Legacy.legacy_unverified
             "https://www.instagram.com/p/A/" "Nice shot" initial_globals false false).
    reflexivity.
Defined.

(** C6: when the prior-action cache reports a reply, [instagramComment]
    returns the skip outcome ([skipped] set, [success] clear: not one of the
    failure outcomes), having called nothing but the cache: no navigation, no
    action on the page, globals unchanged.  In the loop, a post for which the
    cache reports a reply, to the orchestrator or to [instagramComment],
    leaves the success counter as it was and does not end the [for] loop;
    and once the post is passed over the loop goes on with the rest of the
    batch, without coming back to it. *)
Theorem C6_cached_reply_is_skipped :
  (forall w url comment username skipNavigation g,
     cw_cache w = Returns true ->
     instagramComment w url comment username skipNavigation g
     = (Ok (skip_outcome url), g, [CacheLookup username url]) /\
     skipped (skip_outcome url) = true /\
     (forall why, skip_outcome url <> failure_outcome why url) /\
     existsb navigates_or_mutates
       (trace_of (instagramComment w url comment username skipNavigation g)) = false) /\
  (forall o iw url st r st' t,
     successfulComments st < maxPosts o ->
     iw_cache iw = Returns true \/ cw_cache (iw_comment iw) = Returns true ->
     process_item o iw url st = (r, st', t) ->
     successfulComments st' = successfulComments st /\ r <> Ok Break) /\
  (forall o item url rest st st1 t1,
     successfulComments st < maxPosts o ->
     process_item o (item url) url st = (Ok Continue, st1, t1) ->
     process_posts o item (url :: rest) st
     = (result_of (process_posts o item rest st1),
        state_of (process_posts o item rest st1),
        t1 ++ trace_of (process_posts o item rest st1))).
Proof.
  split; [|split].
  - intros w url comment username skipNavigation g H.
    rewrite (instagramComment_cached w url comment username skipNavigation g H).
    repeat split. intros why. discriminate.
  - intros o iw url st r st' t Hlt Hcache E.
    pose proof (process_item_spec o iw url (successfulComments st)
                  (consecutiveEmptyBatches st) Hlt st r st' t (conj eq_refl eq_refl) E)
      as Hpost.
    assert (Hno : ~ counted o iw url).
    { intros (Hc & fc & liked & g & res & Hres & Hsu & Hsk).
      destruct Hcache as [Hc'|Hc']; [congruence|].
      rewrite (instagramComment_cached _ _ _ _ _ _ Hc') in Hres.
      cbn in Hres. injection Hres as <-. discriminate. }
    destruct r as [s|msg|]; cbn in Hpost.
    + destruct Hpost as (_ & [Hn|[_ Hco]] & Hb); [|contradiction].
      split; [exact Hn|]. intros [= ->]. specialize (Hb eq_refl). lia.
    + destruct Hpost as (_ & Hn & _). split; [exact Hn|discriminate].
    + destruct Hpost as (_ & [Hn|[_ Hco]] & _); [|contradiction].
      split; [exact Hn|discriminate].
  - intros o item url rest st st1 t1 Hlt E.
    cbn [process_posts]. unfold bind at 1. unfold get.
    assert (Hh : (successfulComments st >=? maxPosts o) = false).
    { rewrite Z.geb_leb. apply Z.leb_gt. exact Hlt. }
    rewrite Hh. unfold bind. rewrite E.
    destruct (process_posts o item rest st1) as [[r2 st2] t2]. reflexivity.
Qed.

Lemma C6_witness :
  (instagramComment already_commented "https://www.instagram.com/p/A/" "Nice shot"
     (Some "me") false initial_globals
   = (Ok (skip_outcome "https://www.instagram.com/p/A/"), initial_globals,
      [CacheLookup (Some "me") "https://www.instagram.com/p/A/"]) /\
   skipped (skip_outcome "https://www.instagram.com/p/A/") = true /\
   (forall why, skip_outcome "https://www.instagram.com/p/A/"
                <> failure_outcome why "https://www.instagram.com/p/A/") /\
   existsb navigates_or_mutates
     (trace_of (instagramComment already_commented "https://www.instagram.com/p/A/"
                  "Nice shot" (Some "me") false initial_globals)) = false) /\
  (successfulComments
     (state_of (process_item (target 3) replied_item "https://www.instagram.com/p/A/"
                  initial_run))
   = successfulComments initial_run /\
   result_of (process_item (target 3) replied_item "https://www.instagram.com/p/A/"
                initial_run) <> Ok Break).
Proof.
  split.
  - apply (proj1 C6_cached_reply_is_skipped). reflexivity.
  - refine (proj1 (proj2 C6_cached_reply_is_skipped) (target 3) replied_item
              "https://www.instagram.com/p/A/" initial_run _ _
              (trace_of (process_item (target 3) replied_item
                           "https://www.instagram.com/p/A/" initial_run)) _ _ _).
    + cbn. lia.
    + right. reflexivity.
    + vm_compute. reflexivity.
Defined.

Example replied_item_run :
  result_of (process_item (target 3) replied_item "https://www.instagram.com/p/A/"
               initial_run) = Ok Continue /\
  List.filter navigates_or_mutates
    (trace_of (process_item (target 3) replied_item "https://www.instagram.com/p/A/"
                 initial_run))
  = [Goto "https://www.instagram.com/p/A/"].
Proof. split; vm_compute; reflexivity. Qed.

(* ------------------------------------------------------------------------- *)
(** ** Claims about the login gate *)
(* ------------------------------------------------------------------------- *)

Section LoginFacts.

Lemma filter_nonempty {A} (f : A -> bool) (l : list A) :
  (0 <? length (List.filter f l))%nat = existsb f l.
Proof.
  induction l as [|x l IH]; cbn; [reflexivity|].
  destruct (f x); cbn; [reflexivity|exact IH].
Qed.

Lemma initialLoginCheck_four_signals d :
  initialLoginCheck d
  = hasLoginIndicators d && negb (hasLoginForm d) && negb (onLoginPage d)
    && negb (titleIndicatesLogin d).
Proof.
  unfold initialLoginCheck, onLoginPage.
  destruct (Js.includes "/accounts/login/" (d_href d)); [|reflexivity].
  cbn [negb]. now rewrite andb_false_r.
Qed.

Lemma loginCheckResult_true d :
  loginCheckResult d = true <->
  (existsb (d_has d) successIndicators = true \/ stillOnLoginPage d = false) /\
  existsb (d_has d) errorSelectors = false.
Proof.
  unfold loginCheckResult, foundErrors.
  rewrite length_map, !filter_nonempty.
  rewrite andb_true_iff, orb_true_iff, !negb_true_iff. reflexivity.
Qed.

End LoginFacts.

(** C5, as stated, fails: after the credentials are submitted, a page that
    is still the login route, still shows the username field and is titled
    "Login", but on which a navigation bar is found and no error alert, passes
    the check, and [ensureInstagramLoggedIn] returns [true]; the four-signal
    classification of the initial check rejects the same page. *)
Lemma C5_post_submit_check_is_not_the_four_signals :
  initialLoginCheck half_logged_in = false /\
  loginCheckResult half_logged_in = true /\
  lw_after_submit half_login_world = Returns half_logged_in /\
  result_of (ensureInstagramLoggedIn half_login_world (Some "me") (Some "secret")
               initial_globals) = Ok true.
Proof. repeat split; vm_compute; reflexivity. Qed.

(** C5, amended.  The initial check is the conjunction of the four signals:
    an indicator is present, no login-form field is present, the URL is not
    the login route, the title does not mention login.  After the
    credentials are submitted the gate applies another check: one of eight
    indicators is present, or the page is neither the login route nor shows
    a credential field; and no error alert is present.  The title is not
    read, and when every step of the submission returns, the gate returns
    [true] exactly when that check passes and throws 'Instagram login
    failed: ...' otherwise. *)
Theorem C5_login_checks :
  (forall d,
     initialLoginCheck d = true <->
     hasLoginIndicators d = true /\ hasLoginForm d = false /\
     onLoginPage d = false /\ titleIndicatesLogin d = false) /\
  (forall d,
     loginCheckResult d = true <->
     (existsb (d_has d) successIndicators = true \/ stillOnLoginPage d = false) /\
     existsb (d_has d) errorSelectors = false) /\
  (forall w username password g d d',
     lw_goto_home w = Returns tt ->
     lw_initial w = Returns d -> initialLoginCheck d = false ->
     Js.truthy username = true -> Js.truthy password = true ->
     lw_goto_login w = Returns tt -> lw_wait_form w = Returns tt ->
     (forall step, lw_fill w step = Returns tt) -> lw_dismiss w = Returns tt ->
     lw_after_submit w = Returns d' ->
     result_of (ensureInstagramLoggedIn w username password g)
     = if loginCheckResult d' then Ok true
       else Throw ("Instagram login failed: " +:+ errorText d')).
Proof.
  split; [|split].
  - intros d. rewrite initialLoginCheck_four_signals.
    rewrite !andb_true_iff, !negb_true_iff. tauto.
  - apply loginCheckResult_true.
  - intros w username password g d d' Hhome Hd Hinit Hu Hp Hgo Hwait Hfill Hdis Hd'.
    unfold ensureInstagramLoggedIn, try_catch, bind, perform, sleep, throw, ret, result_of.
    rewrite Hhome, Hd, Hinit, Hu, Hp, Hgo, Hwait, !Hfill, Hd', Hdis.
    destruct (Js.includes "instagram.com" (lw_url w)); cbn;
      destruct (loginCheckResult d'); reflexivity.
Qed.

Lemma C5_witness :
  result_of (ensureInstagramLoggedIn half_login_world (Some "me") (Some "secret")
               initial_globals)
  = if loginCheckResult half_logged_in then Ok true
    else Throw ("Instagram login failed: " +:+ errorText half_logged_in).
Proof.
  apply (proj2 (proj2 C5_login_checks) half_login_world (Some "me") (Some "secret")
           initial_globals logged_out half_logged_in); reflexivity.
Defined.

(* ------------------------------------------------------------------------- *)
(** ** Reasoning rules for specifications that mention the calls *)
(* ------------------------------------------------------------------------- *)

Section TraceRules.

Context {S : Type}.

Lemma hoare_t_weaken {A} (P P' : S -> list event -> Prop) (m : M S A)
    (Q Q' : outcome A -> S -> list event -> Prop) :
  hoare_t P' m Q' -> (forall s t, P s t -> P' s t) ->
  (forall r s t, Q' r s t -> Q r s t) -> hoare_t P m Q.
Proof. intros H HP HQ s t0 r s' t Hs E. eapply HQ, H; eauto. Qed.

Lemma hoare_t_ret {A} (P : S -> list event -> Prop) (a : A) Q :
  (forall s t, P s t -> Q (Ok a) s t) -> hoare_t P (ret a) Q.
Proof. intros H s t0 r s' t Hs [= <- <- <-]. rewrite app_nil_r. auto. Qed.

Lemma hoare_t_throw {A} (P : S -> list event -> Prop) msg
    (Q : outcome A -> S -> list event -> Prop) :
  (forall s t, P s t -> Q (Throw msg) s t) -> hoare_t P (throw msg) Q.
Proof. intros H s t0 r s' t Hs [= <- <- <-]. rewrite app_nil_r. auto. Qed.

Lemma hoare_t_pending {A} (P : S -> list event -> Prop)
    (Q : outcome A -> S -> list event -> Prop) :
  (forall s t, P s t -> Q Pending s t) -> hoare_t P pending Q.
Proof. intros H s t0 r s' t Hs [= <- <- <-]. rewrite app_nil_r. auto. Qed.

Lemma hoare_t_perform {A} (P : S -> list event -> Prop) e (o : answer A) Q :
  (forall s t, P s t ->
     match o with
     | Returns a => Q (Ok a) s (t ++ [e])
     | Throws msg => Q (Throw msg) s (t ++ [e])
     end) ->
  hoare_t P (perform e o) Q.
Proof.
  intros H s t0 r s' t Hs. unfold perform. specialize (H s t0 Hs).
  destruct o; intros [= <- <- <-]; exact H.
Qed.

Lemma hoare_t_sleep (P : S -> list event -> Prop) ms Q :
  (forall s t, P s t -> Q (Ok tt) s (t ++ [Sleep ms])) -> hoare_t P (sleep ms) Q.
Proof. intros H s t0 r s' t Hs [= <- <- <-]. auto. Qed.

Lemma hoare_t_get (P : S -> list event -> Prop) Q :
  (forall s t, P s t -> Q (Ok s) s t) -> hoare_t P get Q.
Proof. intros H s t0 r s' t Hs [= <- <- <-]. rewrite app_nil_r. auto. Qed.

Lemma hoare_t_put (P : S -> list event -> Prop) s0 Q :
  (forall s t, P s t -> Q (Ok tt) s0 t) -> hoare_t P (put s0) Q.
Proof. intros H s t0 r s' t Hs [= <- <- <-]. rewrite app_nil_r. eauto. Qed.

Lemma hoare_t_bind {A B} (P : S -> list event -> Prop) (m : M S A) (k : A -> M S B)
    (R : A -> S -> list event -> Prop) (Q : outcome B -> S -> list event -> Prop) :
  hoare_t P m (fun r s t => match r with
                            | Ok a => R a s t
                            | Throw msg => Q (Throw msg) s t
                            | Pending => Q Pending s t
                            end) ->
  (forall a, hoare_t (R a) (k a) Q) ->
  hoare_t P (bind m k) Q.
Proof.
  intros Hm Hk s t0 r s' t Hs. unfold bind.
  destruct (m s) as [[r1 s1] t1] eqn:E1.
  specialize (Hm s t0 r1 s1 t1 Hs E1). destruct r1 as [a|msg|].
  - destruct (k a s1) as [[r2 s2] t2] eqn:E2. intros [= <- <- <-].
    rewrite app_assoc. exact (Hk a s1 (t0 ++ t1) r2 s2 t2 Hm E2).
  - intros [= <- <- <-]. exact Hm.
  - intros [= <- <- <-]. exact Hm.
Qed.

Lemma hoare_t_try_catch {A} (P : S -> list event -> Prop) (m : M S A)
    (h : string -> M S A) (R : string -> S -> list event -> Prop) Q :
  hoare_t P m (fun r s t => match r with
                            | Throw msg => R msg s t
                            | other => Q other s t
                            end) ->
  (forall msg, hoare_t (R msg) (h msg) Q) ->
  hoare_t P (try_catch m h) Q.
Proof.
  intros Hm Hh s t0 r s' t Hs. unfold try_catch.
  destruct (m s) as [[r1 s1] t1] eqn:E1.
  specialize (Hm s t0 r1 s1 t1 Hs E1). destruct r1 as [a|msg|].
  - intros [= <- <- <-]. exact Hm.
  - destruct (h msg s1) as [[r2 s2] t2] eqn:E2. intros [= <- <- <-].
    rewrite app_assoc. exact (Hh msg s1 (t0 ++ t1) r2 s2 t2 Hm E2).
  - intros [= <- <- <-]. exact Hm.
Qed.

(** From a specification to a statement about one run. *)
Lemma hoare_t_run {A} (P : S -> list event -> Prop) (m : M S A) Q s :
  hoare_t P m Q -> P s [] -> Q (result_of (m s)) (state_of (m s)) (trace_of (m s)).
Proof.
  intros H Hs. destruct (m s) as [[r s'] t] eqn:E.
  exact (H s [] r s' t Hs E).
Qed.

(** *** Invariants *)

Lemma preserves_ret {A} I (a : A) : preserves (S := S) I (ret a).
Proof. apply hoare_t_ret. auto. Qed.

Lemma preserves_throw {A} I msg : preserves (S := S) (A := A) I (throw msg).
Proof. apply hoare_t_throw. auto. Qed.

Lemma preserves_pending {A} I : preserves (S := S) (A := A) I pending.
Proof. apply hoare_t_pending. auto. Qed.

Lemma preserves_get I : preserves (S := S) I get.
Proof. apply hoare_t_get. auto. Qed.

Lemma preserves_perform {A} (I : S -> list event -> Prop) e (o : answer A) :
  (forall s t, I s t -> I s (t ++ [e])) -> preserves I (perform e o).
Proof. intros H. apply hoare_t_perform. intros s t Hs. destruct o; auto. Qed.

Lemma preserves_sleep (I : S -> list event -> Prop) ms :
  (forall s t, I s t -> I s (t ++ [Sleep ms])) -> preserves I (sleep ms).
Proof. intros H. apply hoare_t_sleep. auto. Qed.

Lemma preserves_put (I : S -> list event -> Prop) s0 :
  (forall s t, I s t -> I s0 t) -> preserves I (put s0).
Proof. intros H. apply hoare_t_put. auto. Qed.

Lemma preserves_bind {A B} I (m : M S A) (k : A -> M S B) :
  preserves I m -> (forall a, preserves I (k a)) -> preserves I (bind m k).
Proof.
  intros Hm Hk. eapply hoare_t_bind with (R := fun _ => I); [|exact Hk].
  eapply hoare_t_weaken; [exact Hm|auto|]. intros [a|msg|]; auto.
Qed.

Lemma preserves_try_catch {A} I (m : M S A) (h : string -> M S A) :
  preserves I m -> (forall msg, preserves I (h msg)) -> preserves I (try_catch m h).
Proof.
  intros Hm Hh. eapply hoare_t_try_catch with (R := fun _ => I); [|exact Hh].
  eapply hoare_t_weaken; [exact Hm|auto|]. intros [a|msg|]; auto.
Qed.

Lemma preserves_find_first (I : S -> list event -> Prop) sels found :
  (forall sel s t, I s t -> I s (t ++ [Find sel])) ->
  preserves I (find_first sels found).
Proof.
  intros H. induction sels as [|sel rest IH]; cbn [find_first].
  - apply preserves_ret.
  - apply preserves_bind.
    + apply preserves_try_catch; [apply preserves_perform; auto|].
      intros msg. apply preserves_ret.
    + intros [|]; [apply preserves_ret|exact IH].
Qed.

Lemma preserves_or_else (I : S -> list event -> Prop) a (b : M S bool) :
  preserves I b -> preserves I (or_else a b).
Proof. intros H. destruct a; cbn [or_else]; [apply preserves_ret|exact H]. Qed.

(** An invariant up to a point, a stronger statement after it. *)
Lemma hoare_t_bind_inv {A B} (I : S -> list event -> Prop) (m : M S A)
    (k : A -> M S B) (Q : outcome B -> S -> list event -> Prop) :
  preserves I m ->
  (forall msg s t, I s t -> Q (Throw msg) s t) ->
  (forall s t, I s t -> Q Pending s t) ->
  (forall a, hoare_t I (k a) Q) ->
  hoare_t I (bind m k) Q.
Proof.
  intros Hm Ht Hp Hk. eapply hoare_t_bind with (R := fun _ => I); [|exact Hk].
  eapply hoare_t_weaken; [exact Hm|auto|]. intros [a|msg|]; auto.
Qed.

(** A run that starts with no call made. *)
Lemma preserves_run {A} (I : S -> list event -> Prop) (m : M S A) s :
  preserves I m -> I s [] -> I (state_of (m s)) (trace_of (m s)).
Proof. intros H Hs. exact (hoare_t_run I m (fun _ => I) s H Hs). Qed.

End TraceRules.


(** A function of [instagram-functions.js] called from the loop. *)
Lemma preserves_lift {A} (I : run_state -> list event -> Prop) (m : M globals A) :
  (forall st, preserves (fun g t =>
                 I (mkRun g (successfulComments st) (attempts_made st)
                      (consecutiveEmptyBatches st)) t) m) ->
  (forall st t, I st t ->
     I (mkRun (rs_globals st) (successfulComments st) (attempts_made st)
          (consecutiveEmptyBatches st)) t) ->
  preserves I (lift m).
Proof.
  intros H Heta st t0 r st' t Hst. unfold lift.
  destruct (m (rs_globals st)) as [[r1 g1] t1] eqn:E. intros [= <- <- <-].
  exact (H st (rs_globals st) t0 r1 g1 t1 (Heta st t0 Hst) E).
Qed.

(** Steps through a computation for an invariant: [solve_step] closes the
    side conditions of the primitive calls. *)
Ltac inv_steps solve_step :=
  repeat first
    [ apply preserves_ret
    | apply preserves_throw
    | apply preserves_pending
    | apply preserves_get
    | apply preserves_bind; [|intros ?]
    | apply preserves_try_catch; [|intros ?]
    | apply preserves_or_else
    | apply preserves_find_first; solve_step
    | apply preserves_perform; solve_step
    | apply preserves_sleep; solve_step
    | apply preserves_put; solve_step
    | match goal with
      | |- preserves _ (if ?b then _ else _) => destruct b
      | |- preserves _ (match ?x with _ => _ end) => destruct x
      end ].

(** *** Runs that differ in their calls only *)

(** Two computations are alike from a state when they end the same way and
    leave the same state. *)
Lemma bind_alike {S A B} (m m' : M S A) (k k' : A -> M S B) s :
  result_of (m s) = result_of (m' s) -> state_of (m s) = state_of (m' s) ->
  (forall a s1, result_of (k a s1) = result_of (k' a s1) /\
                state_of (k a s1) = state_of (k' a s1)) ->
  result_of (bind m k s) = result_of (bind m' k' s) /\
  state_of (bind m k s) = state_of (bind m' k' s).
Proof.
  unfold bind. destruct (m s) as [[r1 s1] t1], (m' s) as [[r1' s1'] t1'].
  cbn. intros <- <- Hk. destruct r1 as [a|msg|]; [|split; reflexivity..].
  destruct (Hk a s1) as [Hr Hs].
  destruct (k a s1) as [[r2 s2] t2], (k' a s1) as [[r2' s2'] t2'].
  cbn in *. now subst.
Qed.

Lemma try_catch_alike {S A} (m m' : M S A) (h : string -> M S A) s :
  result_of (m s) = result_of (m' s) -> state_of (m s) = state_of (m' s) ->
  result_of (try_catch m h s) = result_of (try_catch m' h s) /\
  state_of (try_catch m h s) = state_of (try_catch m' h s).
Proof.
  unfold try_catch. destruct (m s) as [[r1 s1] t1], (m' s) as [[r1' s1'] t1'].
  cbn. intros <- <-. destruct r1 as [a|msg|]; [split; reflexivity| |split; reflexivity].
  destruct (h msg s1) as [[r2 s2] t2]. split; reflexivity.
Qed.

Lemma lift_alike {A} (m m' : M globals A) st :
  result_of (m (rs_globals st)) = result_of (m' (rs_globals st)) ->
  state_of (m (rs_globals st)) = state_of (m' (rs_globals st)) ->
  result_of (lift m st) = result_of (lift m' st) /\
  state_of (lift m st) = state_of (lift m' st).
Proof.
  unfold lift. destruct (m (rs_globals st)) as [[r1 g1] t1],
    (m' (rs_globals st)) as [[r1' g1'] t1'].
  cbn. intros <- <-. split; reflexivity.
Qed.

(** *** The calls of a sequence *)

Lemma trace_bind {S A B} (m : M S A) (k : A -> M S B) s :
  trace_of (bind m k s)
  = trace_of (m s) ++ match result_of (m s) with
                      | Ok a => trace_of (k a (state_of (m s)))
                      | _ => []
                      end.
Proof.
  unfold bind. destruct (m s) as [[[a|msg|] s1] t1]; cbn; rewrite ?app_nil_r; auto.
  now destruct (k a s1) as [[r2 s2] t2].
Qed.

Lemma trace_try_catch {S A} (m : M S A) (h : string -> M S A) s :
  trace_of (try_catch m h s)
  = trace_of (m s) ++ match result_of (m s) with
                      | Throw msg => trace_of (h msg (state_of (m s)))
                      | _ => []
                      end.
Proof.
  unfold try_catch. destruct (m s) as [[[a|msg|] s1] t1]; cbn; rewrite ?app_nil_r; auto.
  now destruct (h msg s1) as [[r2 s2] t2].
Qed.

(** Case analysis on every answer and every flag a run depends on. *)
Ltac crunch :=
  repeat (cbv beta iota;
          match goal with
          | |- context [match ?o with Returns _ => _ | Throws _ => _ end] =>
              destruct o eqn:?
          | |- context [if ?b then _ else _] =>
              first [is_var b; destruct b | destruct b eqn:?]
          | |- context [match ?x with Some _ => _ | None => _ end] =>
              is_var x; destruct x
          | |- context [match ?x with EmptyString => _ | String _ _ => _ end] =>
              is_var x; destruct x
          | |- context [match ?x with tt => _ end] => is_var x; destruct x
          end).

(* ------------------------------------------------------------------------- *)
(** ** Further properties of discovery *)
(* ------------------------------------------------------------------------- *)

Section DiscoveryExtras.

Import Js.

Lemma extract_links_spec origin hrefs x :
  x ∈ extract_links origin hrefs ->
  is_post_link x = true /\ exists href, href ∈ hrefs /\ clean origin href = Some x.
Proof.
  unfold extract_links. intros H.
  apply subseteq_take in H.
  apply list_elem_of_In, filter_In in H as [H Hc].
  apply filter_In in H as [H Hl].
  apply list_elem_of_In, list_elem_of_omap in H as (href & Hin & Hx).
  destruct (clean origin href) as [[|a y]|] eqn:Ec; try discriminate.
  destruct (includes "/p/" (String a y) || includes "/reel/" (String a y)) eqn:Ep;
    [|discriminate].
  injection Hx as <-. split; [|eauto].
  unfold is_post_link. now rewrite Ep, Hl, Hc.
Qed.

Lemma extract_links_length origin hrefs : (length (extract_links origin hrefs) <= 80)%nat.
Proof. unfold extract_links. rewrite length_take. lia. Qed.

Lemma add_new_posts_from maxPosts newPosts : forall posts seen x,
  x ∈ (add_new_posts maxPosts newPosts posts seen).1 -> x ∈ posts \/ x ∈ newPosts.
Proof.
  induction newPosts as [|y rest IH]; intros posts seen x; cbn [add_new_posts].
  - cbn. auto.
  - destruct (negb (array_includes y posts) && negb (bool_decide (y ∈ seen))
              && (Z.of_nat (length posts) <? maxPosts)); intros H; apply IH in H.
    + rewrite elem_of_app, list_elem_of_singleton in H. set_solver.
    + set_solver.
Qed.

Lemma from_listing_cons a script x : from_listing script x -> from_listing (a :: script) x.
Proof.
  intros (H & b & hrefs & href & Hb & ?). split; [exact H|].
  exists b, hrefs, href. split; [now apply list_elem_of_further|auto].
Qed.

Lemma scan_round_from maxPosts a s g stop s' g' t :
  scan_round maxPosts a s g = (Ok (stop, s'), g', t) ->
  forall x, x ∈ posts s' -> x ∈ posts s \/ from_listing [a] x.
Proof.
  unfold scan_round, bind at 1, perform.
  destruct (at_hrefs a) as [hrefs|msg] eqn:Eh; [|discriminate].
  unfold bind at 1, get.
  destruct (add_new_posts maxPosts (extract_links (at_origin a) hrefs) (posts s)
              (allDiscoveredPosts g)) as [posts' seen'] eqn:Ea.
  assert (Hfrom : forall x, x ∈ posts' -> x ∈ posts s \/ from_listing [a] x).
  { intros x Hx.
    pose proof (add_new_posts_from maxPosts (extract_links (at_origin a) hrefs)
                  (posts s) (allDiscoveredPosts g) x) as H.
    rewrite Ea in H. destruct (H Hx) as [?|Hl]; [now left|right].
    apply extract_links_spec in Hl as (Hp & href & Hin & Hc).
    split; [exact Hp|]. exists a, hrefs, href.
    split; [apply list_elem_of_here|auto]. }
  unfold bind at 1, put.
  destruct (Z.of_nat (length posts') >=? maxPosts).
  { cbn. intros [= <- <- <- <-]. exact Hfrom. }
  unfold bind, perform, sleep, ret.
  destruct (at_scroll a) as [[]|?]; [|discriminate].
  destruct (at_currentHeight a) as [h1|?]; [|discriminate].
  destruct (at_newHeight a) as [h2|?]; [|discriminate].
  destruct (h1 =? h2); cbn; intros [= <- <- <- <-]; exact Hfrom.
Qed.

Lemma scan_loop_from maxPosts script : forall s g s' g' t,
  scan_loop maxPosts script s g = (Ok s', g', t) ->
  forall x, x ∈ posts s' -> x ∈ posts s \/ from_listing script x.
Proof.
  induction script as [|a script IH]; intros s g s' g' t; cbn [scan_loop];
    destruct (negb (Z.of_nat (length (posts s)) <? maxPosts)).
  1,3: intros [= <- <- <-]; auto.
  - discriminate.
  - unfold bind at 1.
    destruct (scan_round maxPosts a s g) as [[[[stop s1]|msg|] g1] t1] eqn:E1;
      [|discriminate..].
    pose proof (scan_round_from _ _ _ _ _ _ _ _ E1) as H1.
    assert (Hfirst : forall x, x ∈ posts s1 -> x ∈ posts s \/ from_listing (a :: script) x).
    { intros x Hx. destruct (H1 x Hx) as [?|(Hp & b & hrefs & href & Hb & ?)]; [now left|].
      right. split; [exact Hp|]. exists b, hrefs, href.
      split; [|auto]. apply list_elem_of_singleton in Hb as ->. apply list_elem_of_here. }
    destruct stop.
    + cbn. intros [= <- <- <-]. exact Hfirst.
    + destruct (scan_loop maxPosts script s1 g1) as [[[s2|?|] g2] t2] eqn:E2;
        [|discriminate..].
      intros [= <- <- <-] x Hx.
      destruct (IH _ _ _ _ _ E2 x Hx) as [Hx1|Hl]; [now apply Hfirst|].
      right. now apply from_listing_cons.
Qed.

Lemma discoverInstagramPosts_from w c maxPosts g l g' t :
  discoverInstagramPosts w c maxPosts g = (Ok l, g', t) ->
  forall x, x ∈ l -> from_listing (dw_attempts w) x.
Proof.
  unfold discoverInstagramPosts, discover_scan.
  destruct (searchUrl_of c) as [u|]; [|discriminate].
  unfold bind at 1 2.
  destruct (discover_preamble w u g) as [[[[]|?|] g0] t0]; [|discriminate..].
  destruct (scan_loop maxPosts (dw_attempts w) (mkScan [] 0 0) g0)
    as [[[s1|?|] g1] t1] eqn:E1; [|discriminate..].
  cbn. intros [= <- <- <-] x Hx.
  destruct (scan_loop_from _ _ _ _ _ _ _ E1 x Hx) as [Hnil|?]; [|assumption].
  cbn in Hnil. now apply elem_of_nil in Hnil.
Qed.

(** *** The steps before the scan loop *)

Lemma on_listing_spec g u :
  negb (isOnSearchPage g) || negb (option_string_eqb (currentSearchUrl g) (Some u))
  = negb (on_listing g u).
Proof. unfold on_listing. now rewrite negb_andb. Qed.

Lemma on_listing_true g u :
  on_listing g u = true <-> isOnSearchPage g = true /\ currentSearchUrl g = Some u.
Proof.
  unfold on_listing, option_string_eqb.
  rewrite andb_true_iff, bool_decide_eq_true. reflexivity.
Qed.

Ltac preamble_cases w g u :=
  unfold discover_preamble, bind, try_catch, perform, get, put, sleep, throw, ret;
  rewrite (on_listing_spec g u);
  destruct (on_listing g u) eqn:Eon; cbn [negb];
    [|destruct (dw_goto w) as [[]|?] eqn:Egoto];
    try (destruct (dw_waitTabs w) as [[]|?];
         [destruct (dw_recentTabClicked w) as [[]|?]|..];
         destruct (dw_needsLogin w) as [[]|?] eqn:Ewall);
    cbn.

(** The page is only navigated when it is not on the listing yet, and once
    the navigation has returned the globals say so. *)
Lemma discover_preamble_navigation w u g r g' t :
  discover_preamble w u g = (r, g', t) ->
  (if on_listing g u then existsb is_goto t = false /\ g' = g
   else head t = Some (Goto u) /\
        (dw_goto w = Returns tt -> on_listing g' u = true)).
Proof.
  preamble_cases w g u; intros [= <- <- <-]; cbn; auto;
    (split; [reflexivity|]); intros H; try discriminate H;
    unfold on_listing, option_string_eqb; cbn;
    now apply bool_decide_eq_true.
Qed.

(** No link is read before the loop, and the login wall stops the call. *)
Lemma discover_preamble_wall w u g r g' t :
  discover_preamble w u g = (r, g', t) ->
  (Read "post links" ∉ t) /\
  (dw_goto w = Returns tt -> dw_needsLogin w = Returns true ->
   r = Throw "Instagram login required for post discovery") /\
  (r = Ok tt -> dw_needsLogin w = Returns false) /\
  r <> Pending.
Proof.
  preamble_cases w g u; intros [= <- <- <-];
    (split; [rewrite ?not_elem_of_cons; repeat split; try discriminate;
             apply not_elem_of_nil|]);
    (split; [|split]);
    (reflexivity || discriminate || (intros; discriminate) ||
     (intros; congruence) || auto).
Qed.

(** Whatever happens around the tab list changes neither the result nor the
    globals. *)
Lemma discover_preamble_tabs w u g a b :
  result_of (discover_preamble (with_tabs w a b) u g)
  = result_of (discover_preamble w u g) /\
  state_of (discover_preamble (with_tabs w a b) u g)
  = state_of (discover_preamble w u g).
Proof.
  unfold discover_preamble, bind, try_catch, perform, get, put, sleep, throw, ret.
  cbn [with_tabs dw_goto dw_waitTabs dw_recentTabClicked dw_needsLogin].
  destruct (negb (isOnSearchPage g)
            || negb (option_string_eqb (currentSearchUrl g) (Some u)));
    [destruct (dw_goto w) as [[]|?]|]; cbn; auto;
    destruct a as [[]|?], (dw_waitTabs w) as [[]|?];
    try destruct b as [[]|?]; try destruct (dw_recentTabClicked w) as [[]|?];
    destruct (dw_needsLogin w) as [[]|?]; cbn; auto.
Qed.

(** *** The scan loop *)

Lemma quiet_step (p : event -> bool) e :
  p e = false -> forall (s : globals) t, existsb p t = false -> existsb p (t ++ [e]) = false.
Proof. intros He s t Ht. rewrite existsb_app, Ht. cbn. now rewrite He. Qed.

Lemma scan_round_no_goto maxPosts a s :
  preserves (fun _ t => existsb is_goto t = false) (scan_round maxPosts a s).
Proof.
  unfold scan_round.
  inv_steps ltac:(first [apply quiet_step; reflexivity | auto]).
Qed.

Lemma scan_loop_no_goto maxPosts script : forall s,
  preserves (fun _ t => existsb is_goto t = false) (scan_loop maxPosts script s).
Proof.
  induction script as [|a script IH]; intros s; cbn [scan_loop];
    destruct (negb (Z.of_nat (length (posts s)) <? maxPosts));
    try apply preserves_ret; [apply preserves_pending|].
  apply preserves_bind; [apply scan_round_no_goto|].
  intros [[|] s1]; [apply preserves_ret|apply IH].
Qed.

(** *** One call *)

Lemma discover_listing_key w c maxPosts g u r g' t :
  searchUrl_of c = Some u ->
  discoverInstagramPosts w c maxPosts g = (r, g', t) ->
  on_listing g u = true \/ dw_goto w = Returns tt ->
  on_listing g' u = true.
Proof.
  intros Hu. unfold discoverInstagramPosts, discover_scan. rewrite Hu.
  unfold bind at 1 2.
  destruct (discover_preamble w u g) as [[r0 g0] t0] eqn:E0.
  pose proof (discover_preamble_navigation _ _ _ _ _ _ E0) as Hnav.
  intros E Hor.
  assert (H0 : on_listing g0 u = true).
  { destruct (on_listing g u) eqn:Eon.
    - destruct Hnav as [_ ->]. exact Eon.
    - destruct Hnav as [_ Hnav]. destruct Hor as [?|Hg]; [discriminate|auto]. }
  destruct r0 as [[]|?|]; try (injection E as <- <- <-; exact H0).
  destruct (scan_loop maxPosts (dw_attempts w) (mkScan [] 0 0) g0)
    as [[r1 g1] t1] eqn:E1.
  apply scan_loop_spec in E1 as (_ & Hp & Hc & _).
  assert (H1 : on_listing g1 u = true).
  { unfold on_listing in *. now rewrite Hp, Hc. }
  destruct r1; cbn in E; injection E as <- <- <-; exact H1.
Qed.

Lemma discover_trace w c maxPosts g u :
  searchUrl_of c = Some u ->
  exists rest,
    trace_of (discoverInstagramPosts w c maxPosts g)
    = trace_of (discover_preamble w u g) ++ rest /\
    existsb is_goto rest = false.
Proof.
  intros Hu. unfold discoverInstagramPosts, discover_scan. rewrite Hu.
  unfold bind at 1 2.
  destruct (discover_preamble w u g) as [[r0 g0] t0] eqn:E0.
  destruct r0 as [[]|?|]; try (exists []; now rewrite app_nil_r).
  destruct (scan_loop maxPosts (dw_attempts w) (mkScan [] 0 0) g0)
    as [[r1 g1] t1] eqn:E1.
  pose proof (scan_loop_no_goto maxPosts (dw_attempts w) (mkScan [] 0 0)
                g0 [] r1 g1 t1 eq_refl E1) as H.
  exists t1. destruct r1; cbn; rewrite ?app_nil_r; auto.
Qed.

Lemma discover_goto w c maxPosts g u :
  searchUrl_of c = Some u ->
  if on_listing g u
  then existsb is_goto (trace_of (discoverInstagramPosts w c maxPosts g)) = false
  else head (trace_of (discoverInstagramPosts w c maxPosts g)) = Some (Goto u).
Proof.
  intros Hu. destruct (discover_trace w c maxPosts g u Hu) as (rest & -> & Hrest).
  destruct (discover_preamble w u g) as [[r0 g0] t0] eqn:E0.
  pose proof (discover_preamble_navigation _ _ _ _ _ _ E0) as Hnav.
  destruct (on_listing g u).
  - destruct Hnav as [Hq _]. cbn. now rewrite existsb_app, Hq, Hrest.
  - destruct Hnav as [Hh _]. destruct t0; [discriminate|exact Hh].
Qed.

Lemma remove_first_absent c s :
  Js.includes (String c EmptyString) s = false -> Js.remove_first c s = s.
Proof.
  induction s as [|d s IH]; [reflexivity|].
  cbn [Js.includes Js.startsWith Js.remove_first].
  destruct (Ascii.eqb c d); [discriminate|]. cbn [orb].
  intros H. now rewrite IH.
Qed.

End DiscoveryExtras.

(** X1: a call of [discoverInstagramPosts] that returns records in the seen
    set exactly the identifiers it returns: they are pairwise distinct, none
    of them was in the seen set before the call, and the liked set is not
    touched. *)
Theorem X1_discover_records_what_it_returns w c maxPosts g l g' t :
  discoverInstagramPosts w c maxPosts g = (Ok l, g', t) ->
  allDiscoveredPosts g' = allDiscoveredPosts g ∪ list_to_set l /\
  NoDup l /\
  (forall x, x ∈ l -> x ∉ allDiscoveredPosts g) /\
  likedPosts g' = likedPosts g.
Proof.
  intros E.
  apply discoverInstagramPosts_spec in E as (Hl & news & Hs & Hnd & Hnew & Hok).
  destruct (Hok l eq_refl) as [-> _]. auto.
Qed.

Lemma X1_witness :
  let out := discoverInstagramPosts still_world cats 5 initial_globals in
  allDiscoveredPosts (state_of out)
  = allDiscoveredPosts initial_globals
    ∪ list_to_set ["https://www.instagram.com/p/A/"; "https://www.instagram.com/p/B/"] /\
  NoDup ["https://www.instagram.com/p/A/"; "https://www.instagram.com/p/B/"] /\
  (forall x, x ∈ ["https://www.instagram.com/p/A/"; "https://www.instagram.com/p/B/"] ->
     x ∉ allDiscoveredPosts initial_globals) /\
  likedPosts (state_of out) = likedPosts initial_globals.
Proof.
  intros out.
  apply (X1_discover_records_what_it_returns still_world cats 5 initial_globals
           ["https://www.instagram.com/p/A/"; "https://www.instagram.com/p/B/"]
           (state_of out) (trace_of out)).
  vm_compute. reflexivity.
Defined.

(** X2: every identifier returned by [discoverInstagramPosts] is the
    origin and path of an anchor that the listing showed in some round of the
    scan; it contains [/p/] or [/reel/] and contains neither [/liked_by/] nor
    [/c/]. *)
Theorem X2_discover_returns_post_links_only w c maxPosts g l g' t :
  discoverInstagramPosts w c maxPosts g = (Ok l, g', t) ->
  forall x, x ∈ l ->
    (Js.includes "/p/" x = true \/ Js.includes "/reel/" x = true) /\
    Js.includes "/liked_by/" x = false /\ Js.includes "/c/" x = false /\
    exists a hrefs href,
      a ∈ dw_attempts w /\ at_hrefs a = Returns hrefs /\ href ∈ hrefs /\
      clean (at_origin a) href = Some x.
Proof.
  intros E x Hx.
  destruct (discoverInstagramPosts_from _ _ _ _ _ _ _ E x Hx) as [Hp Hfrom].
  unfold is_post_link in Hp.
  apply andb_true_iff in Hp as [Hp Hc]. apply andb_true_iff in Hp as [Hp Hl].
  apply orb_true_iff in Hp. apply negb_true_iff in Hc, Hl. auto.
Qed.

Lemma X2_witness :
  (Js.includes "/p/" "https://www.instagram.com/p/B/" = true \/
   Js.includes "/reel/" "https://www.instagram.com/p/B/" = true) /\
  Js.includes "/liked_by/" "https://www.instagram.com/p/B/" = false /\
  Js.includes "/c/" "https://www.instagram.com/p/B/" = false /\
  exists a hrefs href,
    a ∈ dw_attempts still_world /\ at_hrefs a = Returns hrefs /\ href ∈ hrefs /\
    clean (at_origin a) href = Some "https://www.instagram.com/p/B/".
Proof.
  apply (X2_discover_returns_post_links_only still_world cats 5 initial_globals
           ["https://www.instagram.com/p/A/"; "https://www.instagram.com/p/B/"]
           (state_of (discoverInstagramPosts still_world cats 5 initial_globals))
           (trace_of (discoverInstagramPosts still_world cats 5 initial_globals))).
  - vm_compute. reflexivity.
  - apply list_elem_of_further, list_elem_of_here.
Defined.

(** X3: with a target [maxPosts <= 0] the scan loop is not entered: no link
    is read from the page and the seen set is left as it was; the call
    returns the empty array unless the criteria are missing, the navigation
    fails or the login wall is met. *)
Theorem X3_nonpositive_target_reads_no_link w c maxPosts g r g' t :
  maxPosts <= 0 ->
  discoverInstagramPosts w c maxPosts g = (r, g', t) ->
  (r = Ok [] \/ exists msg, r = Throw msg) /\
  allDiscoveredPosts g' = allDiscoveredPosts g /\
  (Read "post links" ∉ t) /\
  (is_Some (searchUrl_of c) -> dw_goto w = Returns tt ->
   dw_needsLogin w = Returns false -> r = Ok []).
Proof.
  intros Hmax. unfold discoverInstagramPosts, discover_scan.
  destruct (searchUrl_of c) as [u|].
  2:{ cbn. intros [= <- <- <-]. repeat split; eauto.
      - apply not_elem_of_nil.
      - intros [? [=]]. }
  unfold bind at 1 2.
  destruct (discover_preamble w u g) as [[r0 g0] t0] eqn:E0.
  destruct (discover_preamble_frame _ _ _ _ _ _ E0) as [_ Hs0].
  destruct (discover_preamble_wall _ _ _ _ _ _ E0) as (Hno & _ & _ & Hnp).
  assert (Hloop : forall s g1, posts s = [] ->
            scan_loop maxPosts (dw_attempts w) s g1 = (Ok s, g1, [])).
  { intros s g1 Hs. destruct (dw_attempts w); cbn [scan_loop]; rewrite Hs; cbn [length];
      replace (Z.of_nat 0 <? maxPosts) with false by (symmetry; apply Z.ltb_ge; lia);
      reflexivity. }
  destruct r0 as [[]|msg|].
  - rewrite Hloop by reflexivity. cbn. intros [= <- <- <-].
    rewrite !app_nil_r. repeat split; auto.
  - intros [= <- <- <-]. repeat split; eauto.
    intros _ Hg Hn.
    destruct (discover_preamble_returns w u g Hg Hn) as (g1 & t1 & E1). congruence.
  - now destruct Hnp.
Qed.

Lemma X3_witness :
  let out := discoverInstagramPosts wide_listing cats 0 initial_globals in
  (result_of out = Ok [] \/ exists msg, result_of out = Throw msg) /\
  allDiscoveredPosts (state_of out) = allDiscoveredPosts initial_globals /\
  (Read "post links" ∉ trace_of out) /\
  (is_Some (searchUrl_of cats) -> dw_goto wide_listing = Returns tt ->
   dw_needsLogin wide_listing = Returns false -> result_of out = Ok []).
Proof.
  intros out.
  apply (X3_nonpositive_target_reads_no_link wide_listing cats 0 initial_globals
           (result_of out) (state_of out) (trace_of out)).
  - lia.
  - vm_compute. reflexivity.
Defined.

(** X4: the listing page is opened once.  After a call whose navigation
    returned, whatever the call then did, the globals name the listing as the
    current page, and a following call for the same listing does not navigate
    at all; a call for a listing that is not the current page starts by
    navigating to it. *)
Theorem X4_discover_navigates_once_per_listing w1 w2 c c' n1 n2 g u u' :
  searchUrl_of c = Some u -> searchUrl_of c' = Some u' -> u' <> u ->
  dw_goto w1 = Returns tt ->
  let g1 := state_of (discoverInstagramPosts w1 c n1 g) in
  isOnSearchPage g1 = true /\ currentSearchUrl g1 = Some u /\
  existsb is_goto (trace_of (discoverInstagramPosts w2 c n2 g1)) = false /\
  head (trace_of (discoverInstagramPosts w2 c' n2 g1)) = Some (Goto u').
Proof.
  intros Hu Hu' Hne Hg g1.
  assert (Hon : on_listing g1 u = true).
  { subst g1. destruct (discoverInstagramPosts w1 c n1 g) as [[r g'] t] eqn:E.
    eapply discover_listing_key; eauto. }
  pose proof Hon as Hon'. apply on_listing_true in Hon' as [Hp Hc].
  split; [exact Hp|]. split; [exact Hc|]. split.
  - pose proof (discover_goto w2 c n2 g1 u Hu) as H. now rewrite Hon in H.
  - pose proof (discover_goto w2 c' n2 g1 u' Hu') as H.
    assert (Hoff : on_listing g1 u' = false).
    { apply not_true_is_false. intros H'. apply on_listing_true in H' as [_ H'].
      congruence. }
    now rewrite Hoff in H.
Qed.

Lemma X4_witness :
  let g1 := state_of (discoverInstagramPosts walled_listing cats 5 initial_globals) in
  isOnSearchPage g1 = true /\
  currentSearchUrl g1 = Some "https://www.instagram.com/explore/tags/cats/" /\
  existsb is_goto (trace_of (discoverInstagramPosts still_world cats 5 g1)) = false /\
  head (trace_of (discoverInstagramPosts still_world
                    (mkCriteria None (Some "dogs")) 5 g1))
  = Some (Goto "https://www.instagram.com/explore/tags/dogs/").
Proof.
  apply (X4_discover_navigates_once_per_listing walled_listing still_world cats
           (mkCriteria None (Some "dogs")) 5 5 initial_globals
           "https://www.instagram.com/explore/tags/cats/"
           "https://www.instagram.com/explore/tags/dogs/");
    [reflexivity|reflexivity|discriminate|reflexivity].
Defined.

(** X5: when the login wall is detected on the listing, the call throws
    'Instagram login required for post discovery' before any link is read,
    and the seen set is left as it was. *)
Theorem X5_discover_stops_at_the_login_wall w c maxPosts g :
  is_Some (searchUrl_of c) -> dw_goto w = Returns tt ->
  dw_needsLogin w = Returns true ->
  result_of (discoverInstagramPosts w c maxPosts g)
  = Throw "Instagram login required for post discovery" /\
  allDiscoveredPosts (state_of (discoverInstagramPosts w c maxPosts g))
  = allDiscoveredPosts g /\
  (Read "post links" ∉ trace_of (discoverInstagramPosts w c maxPosts g)).
Proof.
  intros [u Hu] Hg Hw.
  destruct (discoverInstagramPosts w c maxPosts g) as [[r g'] t] eqn:E.
  revert E. unfold discoverInstagramPosts, discover_scan. rewrite Hu.
  unfold bind at 1 2.
  destruct (discover_preamble w u g) as [[r0 g0] t0] eqn:E0.
  destruct (discover_preamble_frame _ _ _ _ _ _ E0) as [_ Hs0].
  destruct (discover_preamble_wall _ _ _ _ _ _ E0) as (Hno & Hthrow & _ & _).
  rewrite (Hthrow Hg Hw). intros [= <- <- <-]. cbn. auto.
Qed.

Lemma X5_witness :
  result_of (discoverInstagramPosts walled_listing cats 5 initial_globals)
  = Throw "Instagram login required for post discovery" /\
  allDiscoveredPosts (state_of (discoverInstagramPosts walled_listing cats 5
                                  initial_globals))
  = allDiscoveredPosts initial_globals /\
  (Read "post links"
     ∉ trace_of (discoverInstagramPosts walled_listing cats 5 initial_globals)).
Proof.
  apply (X5_discover_stops_at_the_login_wall walled_listing cats 5 initial_globals);
    [eexists|..]; reflexivity.
Defined.

(** X6: the switch to the "Recent" tab is best effort.  Whether the tab list
    shows up, whether a tab is clicked and whether either call throws changes
    neither what [discoverInstagramPosts] returns or throws nor the globals
    it leaves. *)
Theorem X6_recent_tab_never_fails_discovery w c maxPosts g waitTabs recentTabClicked :
  result_of (discoverInstagramPosts (with_tabs w waitTabs recentTabClicked) c maxPosts g)
  = result_of (discoverInstagramPosts w c maxPosts g) /\
  state_of (discoverInstagramPosts (with_tabs w waitTabs recentTabClicked) c maxPosts g)
  = state_of (discoverInstagramPosts w c maxPosts g).
Proof.
  unfold discoverInstagramPosts, discover_scan.
  destruct (searchUrl_of c) as [u|]; [|split; reflexivity].
  destruct (discover_preamble_tabs w u g waitTabs recentTabClicked) as [Hr Hs].
  apply bind_alike; [..|split; reflexivity];
    apply bind_alike; auto; split; reflexivity.
Qed.

(** X8: the hash sign of a tag is optional, and the hashtag wins over the
    keywords.  For a non-empty tag without a hash sign, the hashtag [#tag]
    and the hashtag [tag], with any keywords, and the keywords [#tag] or
    [tag] without a hashtag all name the listing
    [https://www.instagram.com/explore/tags/tag/]. *)
Theorem X8_hash_sign_is_optional tag k :
  tag <> EmptyString -> Js.includes "#" tag = false ->
  let listing := Some ("https://www.instagram.com/explore/tags/" +:+ tag +:+ "/") in
  searchUrl_of (mkCriteria (Some ("#" +:+ tag)) k) = listing /\
  searchUrl_of (mkCriteria (Some tag) k) = listing /\
  searchUrl_of (mkCriteria None (Some ("#" +:+ tag))) = listing /\
  searchUrl_of (mkCriteria (Some EmptyString) (Some tag)) = listing.
Proof.
  intros Hne Hno listing. subst listing.
  destruct tag as [|a tag]; [contradiction|].
  pose proof (remove_first_absent "#" (String a tag) Hno) as Hrm.
  unfold searchUrl_of, tags_url. cbn [hashtag keywords String.append].
  rewrite Hrm. cbn [Js.remove_first]. rewrite Ascii.eqb_refl.
  repeat split; reflexivity.
Qed.

Lemma X8_witness :
  let listing := Some ("https://www.instagram.com/explore/tags/" +:+ "cats" +:+ "/") in
  searchUrl_of (mkCriteria (Some ("#" +:+ "cats")) (Some "dogs")) = listing /\
  searchUrl_of (mkCriteria (Some "cats") (Some "dogs")) = listing /\
  searchUrl_of (mkCriteria None (Some ("#" +:+ "cats"))) = listing /\
  searchUrl_of (mkCriteria (Some EmptyString) (Some "cats")) = listing.
Proof.
  apply (X8_hash_sign_is_optional "cats" (Some "dogs")); [discriminate|reflexivity].
Defined.

(* ------------------------------------------------------------------------- *)
(** ** Further properties of the actions *)
(* ------------------------------------------------------------------------- *)

(** X7: the callback that switches to the "Recent" tab clicks the first tab
    when its text contains 'recent' or 'latest' (in any case), and otherwise
    the second tab whenever there is one, whatever its text; no tab beyond
    the second is ever clicked, and nothing is clicked only when there is no
    tab or a single tab without those words. *)
Theorem X7_recent_tab_is_the_first_or_the_second tabs :
  recentTab tabs
  = match tabs with
    | [] => None
    | first :: rest =>
        if Js.includes "recent" (Js.toLowerCase first)
           || Js.includes "latest" (Js.toLowerCase first)
        then Some 0%nat
        else match rest with
             | [] => None
             | _ :: _ => Some 1%nat
             end
    end.
Proof.
  destruct tabs as [|first [|second rest]]; [reflexivity|..];
    unfold recentTab; cbn [recent_tab_loop Nat.eqb length Nat.leb];
    destruct (Js.includes "recent" (Js.toLowerCase first)
              || Js.includes "latest" (Js.toLowerCase first));
    cbn [orb]; rewrite ?orb_true_r; reflexivity.
Qed.

(** X9: [resetDiscoveryState] forgets the discovered posts and the current
    listing but keeps the liked set: the next discovery call starts by
    navigating to its listing, and a post liked before the reset is still
    reported as liked by [instagramLike] without any call to the page. *)
Theorem X9_reset_keeps_likes_and_restarts_discovery g :
  let g0 := state_of (resetDiscoveryState g) in
  likedPosts g0 = likedPosts g /\ allDiscoveredPosts g0 = ∅ /\
  (forall w c maxPosts u, searchUrl_of c = Some u ->
     head (trace_of (discoverInstagramPosts w c maxPosts g0)) = Some (Goto u)) /\
  (forall w url, url ∈ likedPosts g -> instagramLike w url g0 = (Ok true, g0, [])).
Proof.
  cbn. repeat split.
  - intros w c maxPosts u Hu.
    pose proof (discover_goto w c maxPosts
                  (mkGlobals (likedPosts g) ∅ false None) u Hu) as H.
    exact H.
  - intros w url Hin. unfold instagramLike, bind, get. cbn [likedPosts].
    now rewrite (bool_decide_eq_true_2 _ Hin).
Qed.

Lemma X9_witness :
  let g := state_of (instagramLike second_endpoint_like "https://www.instagram.com/p/A/"
                       (state_of (discoverInstagramPosts still_world cats 5
                                    initial_globals))) in
  let g0 := state_of (resetDiscoveryState g) in
  head (trace_of (discoverInstagramPosts still_world cats 5 g0))
  = Some (Goto "https://www.instagram.com/explore/tags/cats/") /\
  instagramLike blocked_like "https://www.instagram.com/p/A/" g0 = (Ok true, g0, []).
Proof.
  intros g g0. split.
  - apply (proj1 (proj2 (proj2 (X9_reset_keeps_likes_and_restarts_discovery g)))
             still_world cats 5). reflexivity.
  - apply (proj2 (proj2 (proj2 (X9_reset_keeps_likes_and_restarts_discovery g)))
             blocked_like). vm_compute. reflexivity.
Defined.

(** *** The login gate *)

(** X10: [ensureInstagramLoggedIn] returns [true] or throws, it never
    returns [false]; it leaves the module globals alone; and it clicks or
    types on the page only when the initial check has failed and both a
    username and a password were given. *)
Theorem X10_login_returns_true_or_throws w username password g :
  (result_of (ensureInstagramLoggedIn w username password g) = Ok true \/
   exists msg, result_of (ensureInstagramLoggedIn w username password g) = Throw msg) /\
  state_of (ensureInstagramLoggedIn w username password g) = g /\
  (existsb is_act (trace_of (ensureInstagramLoggedIn w username password g)) = true ->
   exists d, lw_initial w = Returns d /\ initialLoginCheck d = false /\
             Js.truthy username = true /\ Js.truthy password = true).
Proof.
  unfold ensureInstagramLoggedIn, try_catch, bind, perform, sleep, throw, ret.
  destruct (negb (Js.includes "instagram.com" (lw_url w)));
    [destruct (lw_goto_home w) as [[]|?]|];
    cbv beta iota; try (cbn; split; [eauto|split; [reflexivity|discriminate]]);
    (destruct (lw_initial w) as [d|?];
      [|cbn; split; [eauto|split; [reflexivity|discriminate]]]);
    cbv beta iota;
    (destruct (initialLoginCheck d) eqn:Einit;
      [cbn; split; [eauto|split; [reflexivity|discriminate]]|]);
    (destruct (Js.truthy username) eqn:Eu;
      [|cbn; split; [eauto|split; [reflexivity|discriminate]]]);
    (destruct (Js.truthy password) eqn:Ep;
      [|cbn; split; [eauto|split; [reflexivity|discriminate]]]);
    cbn [negb orb];
    (assert (Hd : exists d0, Returns d = Returns d0 /\ initialLoginCheck d0 = false /\
                             true = true /\ true = true) by eauto);
    crunch; cbn; (split; [eauto|split; [reflexivity|intros _; exact Hd]]).
Qed.

Lemma X10_witness :
  exists d, lw_initial half_login_world = Returns d /\ initialLoginCheck d = false /\
            Js.truthy (Some "me") = true /\ Js.truthy (Some "secret") = true.
Proof.
  apply (proj2 (proj2 (X10_login_returns_true_or_throws half_login_world (Some "me")
                         (Some "secret") initial_globals))).
  vm_compute. reflexivity.
Defined.

(** X11: when the initial check fails and the username or the password is
    missing or empty, the gate throws 'Instagram session missing and no
    credentials provided...' without opening the login page and without
    clicking or typing anything. *)
Theorem X11_login_without_credentials w username password g d :
  (Js.includes "instagram.com" (lw_url w) = false -> lw_goto_home w = Returns tt) ->
  lw_initial w = Returns d -> initialLoginCheck d = false ->
  Js.truthy username = false \/ Js.truthy password = false ->
  result_of (ensureInstagramLoggedIn w username password g)
  = Throw "Instagram session missing and no credentials provided. Provide username/password or login headfully and save a session." /\
  (Goto "https://www.instagram.com/accounts/login/"
     ∉ trace_of (ensureInstagramLoggedIn w username password g)) /\
  existsb is_act (trace_of (ensureInstagramLoggedIn w username password g)) = false.
Proof.
  intros Hhome Hd Hinit Hcred.
  assert (Hc : negb (Js.truthy username) || negb (Js.truthy password) = true).
  { destruct Hcred as [-> | ->]; [reflexivity|apply orb_true_r]. }
  unfold ensureInstagramLoggedIn, try_catch, bind, perform, sleep, throw, ret.
  destruct (Js.includes "instagram.com" (lw_url w)); cbn [negb];
    rewrite ?Hhome by reflexivity; rewrite Hd; cbv beta iota; rewrite Hinit, Hc; cbn;
    (split; [reflexivity|split; [|reflexivity]]);
    rewrite ?not_elem_of_cons; repeat split; try discriminate; apply not_elem_of_nil.
Qed.

Lemma X11_witness :
  result_of (ensureInstagramLoggedIn half_login_world (Some "me") None initial_globals)
  = Throw "Instagram session missing and no credentials provided. Provide username/password or login headfully and save a session." /\
  (Goto "https://www.instagram.com/accounts/login/"
     ∉ trace_of (ensureInstagramLoggedIn half_login_world (Some "me") None
                   initial_globals)) /\
  existsb is_act (trace_of (ensureInstagramLoggedIn half_login_world (Some "me") None
                              initial_globals)) = false.
Proof.
  apply (X11_login_without_credentials half_login_world (Some "me") None
           initial_globals logged_out);
    first [reflexivity | intros _; reflexivity | right; reflexivity].
Defined.

(** *** The favorite action *)

Ltac like_cases w url g :=
  unfold instagramLike, like_by_click, or_else, mark_liked, try_catch, bind, perform,
    sleep, throw, ret, get, put;
  destruct (bool_decide (url ∈ likedPosts g)) eqn:Ein;
    [|apply bool_decide_eq_false in Ein; crunch].

(** X12: what [instagramLike] returns tells whether the post is in the liked
    set afterwards.  A call that returns [true] leaves the liked set with the
    post added and nothing else changed; a call that returns [false] or
    throws leaves the globals exactly as they were, with the post not in the
    liked set.  The discovery state is never touched. *)
Theorem X12_like_result_is_membership w url g r g' t :
  instagramLike w url g = (r, g', t) ->
  allDiscoveredPosts g' = allDiscoveredPosts g /\
  isOnSearchPage g' = isOnSearchPage g /\
  currentSearchUrl g' = currentSearchUrl g /\
  match r with
  | Ok true => likedPosts g' = {[url]} ∪ likedPosts g
  | Ok false => g' = g /\ url ∉ likedPosts g
  | Throw _ => g' = g /\ url ∉ likedPosts g
  | Pending => False
  end.
Proof.
  like_cases w url g; intros [= <- <- <-]; cbn; repeat split; auto.
  apply bool_decide_eq_true in Ein. set_solver.
Qed.

Lemma X12_witness :
  let out := instagramLike second_endpoint_like "https://www.instagram.com/p/A/"
               initial_globals in
  allDiscoveredPosts (state_of out) = allDiscoveredPosts initial_globals /\
  isOnSearchPage (state_of out) = isOnSearchPage initial_globals /\
  currentSearchUrl (state_of out) = currentSearchUrl initial_globals /\
  likedPosts (state_of out)
  = {["https://www.instagram.com/p/A/"]} ∪ likedPosts initial_globals.
Proof.
  intros out.
  apply (X12_like_result_is_membership second_endpoint_like
           "https://www.instagram.com/p/A/" initial_globals (Ok true)
           (state_of out) (trace_of out)).
  vm_compute. reflexivity.
Defined.

(** X13: one call of [instagramLike] makes at most three attempts to set
    the like (two requests and one click), and none at all when the post is
    already in the liked set, when no media id is found or when the page
    already shows the post as liked. *)
Theorem X13_like_makes_at_most_three_attempts w url g :
  (mutation_attempts (trace_of (instagramLike w url g)) <= 3)%nat /\
  (url ∈ likedPosts g \/ kw_mediaId w = Returns None \/
   kw_mediaId w = Returns (Some EmptyString) \/ kw_alreadyLiked w = Returns true ->
   mutation_attempts (trace_of (instagramLike w url g)) = 0%nat).
Proof.
  like_cases w url g; cbn; (split; [lia|]);
    try reflexivity;
    intros [?|[?|[?|?]]]; try reflexivity; try congruence;
    try (exfalso; now apply Ein).
Qed.

Lemma X13_witness :
  mutation_attempts (trace_of (instagramLike blocked_like "https://www.instagram.com/p/A/"
                                 (state_of (instagramLike second_endpoint_like
                                              "https://www.instagram.com/p/A/"
                                              initial_globals)))) = 0%nat.
Proof.
  apply (proj2 (X13_like_makes_at_most_three_attempts blocked_like
                  "https://www.instagram.com/p/A/"
                  (state_of (instagramLike second_endpoint_like
                               "https://www.instagram.com/p/A/" initial_globals)))).
  left. vm_compute. reflexivity.
Defined.

(** A call of [instagramLike] that does not return [true] leaves the
    globals as they were, and the call always ends. *)
Lemma instagramLike_frame w url g r g' t :
  instagramLike w url g = (r, g', t) ->
  match r with
  | Ok true => True
  | Pending => False
  | _ => g' = g
  end.
Proof. like_cases w url g; intros [= <- <- <-]; cbn; auto. Qed.

(** Where an exception of [instagramLike] comes from. *)
Lemma instagramLike_throws w url g msg :
  result_of (instagramLike w url g) = Throw msg ->
  kw_goto w = Throws msg \/ kw_mediaId w = Throws msg \/
  kw_alreadyLiked w = Throws msg \/ kw_headers w = Throws msg.
Proof.
  like_cases w url g; cbn; intros [=]; subst; auto.
Qed.

(** X14: the only exceptions that escape [instagramLike] are those of the
    navigation and of the three reads made before the first request (media
    id, unlike control, token); a request or a click that throws never makes
    the call throw.  So when those four calls return, the call returns. *)
Theorem X14_like_swallows_request_errors w url g msg :
  result_of (instagramLike w url g) = Throw msg ->
  kw_goto w = Throws msg \/ kw_mediaId w = Throws msg \/
  kw_alreadyLiked w = Throws msg \/ kw_headers w = Throws msg.
Proof. apply instagramLike_throws. Qed.

(** A post whose page cannot be opened. *)
Lemma X14_witness :
  let w := mkLikeWorld (Throws "net::ERR_TIMED_OUT") (Returns None) (Returns false)
             (Returns "tok") (Returns false) (Returns false) (fun _ => Returns false)
             (Returns tt) (Returns false) in
  kw_goto w = Throws "net::ERR_TIMED_OUT" \/ kw_mediaId w = Throws "net::ERR_TIMED_OUT" \/
  kw_alreadyLiked w = Throws "net::ERR_TIMED_OUT" \/
  kw_headers w = Throws "net::ERR_TIMED_OUT".
Proof.
  intros w.
  apply (X14_like_swallows_request_errors w "https://www.instagram.com/p/A/"
           initial_globals "net::ERR_TIMED_OUT").
  reflexivity.
Defined.

(** *** The reply action *)

Section CommentExtras.

Variables (w : comment_world) (url comment : string) (username : option string).

Lemma comment_body_keeps_globals skipNavigation g :
  preserves (fun s _ => s = g) (comment_body w url comment username skipNavigation).
Proof.
  unfold comment_body, enter_comment, find_post_button, click_and_verify,
    press_enter_and_verify.
  inv_steps ltac:(auto).
Qed.

Lemma comment_body_no_goto :
  preserves (fun _ t => existsb is_goto t = false)
    (comment_body w url comment username true).
Proof.
  unfold comment_body, enter_comment, find_post_button, click_and_verify,
    press_enter_and_verify. cbn [negb].
  inv_steps ltac:(first [apply quiet_step; reflexivity
                        | intros; apply (quiet_step is_goto); auto]).
Qed.






End CommentExtras.

(** X15: [instagramComment] leaves the module globals exactly as they were.
    Called with [skipNavigation] set it never navigates; called without it,
    for a post the cache does not report as answered, it navigates to the
    post right after the cache lookup. *)
Theorem X15_comment_keeps_globals_and_skips_navigation w url comment username g :
  (forall skipNavigation,
     state_of (instagramComment w url comment username skipNavigation g) = g) /\
  existsb is_goto (trace_of (instagramComment w url comment username true g)) = false /\
  (cw_cache w = Returns false ->
   exists rest,
     trace_of (instagramComment w url comment username false g)
     = CacheLookup username url :: Goto url :: rest).
Proof.
  split; [|split].
  - intros skipNavigation.
    apply (preserves_run (fun s _ => s = g)); [|reflexivity].
    apply preserves_try_catch; [apply comment_body_keeps_globals|].
    intros msg. apply preserves_ret.
  - apply (preserves_run (fun _ t => existsb is_goto t = false)); [|reflexivity].
    apply preserves_try_catch; [apply comment_body_no_goto|].
    intros msg. apply preserves_ret.
  - intros Hc. unfold instagramComment. rewrite trace_try_catch.
    unfold comment_body. rewrite trace_bind. unfold perform at 1 2 3. rewrite Hc.
    cbn [result_of state_of trace_of fst snd negb].
    rewrite trace_bind, trace_bind. unfold perform at 1.
    destruct (cw_goto w); cbn [trace_of snd app]; eexists; reflexivity.
Qed.

Lemma X15_witness :
  exists rest,
    trace_of (instagramComment unverified_comment "https://www.instagram.com/p/A/"
                "Nice shot" (Some "me") false initial_globals)
    = CacheLookup (Some "me") "https://www.instagram.com/p/A/"
      :: Goto "https://www.instagram.com/p/A/" :: rest.
Proof.
  apply (proj2 (proj2 (X15_comment_keeps_globals_and_skips_navigation unverified_comment
                         "https://www.instagram.com/p/A/" "Nice shot" (Some "me")
                         initial_globals))).
  reflexivity.
Defined.



(* ------------------------------------------------------------------------- *)
(** ** Further properties of the auto-comment loop *)
(* ------------------------------------------------------------------------- *)

Section ReportFree.

Lemma reports_app status t e :
  reports status (t ++ [e])
  = reports status t + match e with
                       | Report s _ => if Url.string_eqb s status then 1 else 0
                       | _ => 0
                       end.
Proof.
  unfold reports. rewrite List.filter_app, length_app. cbn [List.filter].
  destruct e; cbn [length]; try lia.
  destruct (Url.string_eqb status0 status); cbn [length]; lia.
Qed.

Lemma reports_quiet status t e :
  is_report e = false -> reports status (t ++ [e]) = reports status t.
Proof. intros He. rewrite reports_app. destruct e; try discriminate; lia. Qed.

Ltac free_step H := intros; apply H; [reflexivity|assumption].

Lemma getPostContent_report_free iw url : report_free (getPostContent iw url).
Proof. intros P H. unfold getPostContent. inv_steps ltac:(free_step H). Qed.

Lemma instagramLike_report_free w url : report_free (instagramLike w url).
Proof.
  intros P H. unfold instagramLike, like_by_click, mark_liked.
  inv_steps ltac:(first [free_step H | auto]).
Qed.

Lemma instagramComment_report_free w url comment username skipNavigation :
  report_free (instagramComment w url comment username skipNavigation).
Proof.
  intros P H.
  unfold instagramComment, comment_body, enter_comment, find_post_button,
    click_and_verify, press_enter_and_verify.
  inv_steps ltac:(free_step H).
Qed.

Lemma scan_loop_report_free maxPosts script : forall s,
  report_free (scan_loop maxPosts script s).
Proof.
  intros s P H. revert s.
  induction script as [|a script IH]; intros s; cbn [scan_loop];
    destruct (negb (Z.of_nat (length (posts s)) <? maxPosts));
    try apply preserves_ret; [apply preserves_pending|].
  apply preserves_bind.
  - unfold scan_round. inv_steps ltac:(first [free_step H | auto]).
  - intros [[|] s1]; [apply preserves_ret|apply IH].
Qed.

Lemma discoverInstagramPosts_report_free w c maxPosts :
  report_free (discoverInstagramPosts w c maxPosts).
Proof.
  intros P H. unfold discoverInstagramPosts, discover_scan.
  destruct (searchUrl_of c) as [u|].
  2:{ inv_steps ltac:(auto). }
  apply preserves_bind; [|intros s; apply preserves_ret].
  apply preserves_bind; [|intros _; apply scan_loop_report_free; exact H].
  unfold discover_preamble. inv_steps ltac:(first [free_step H | auto]).
Qed.

Lemma resetDiscoveryState_report_free : report_free resetDiscoveryState.
Proof. intros P H. unfold resetDiscoveryState. inv_steps ltac:(auto). Qed.

(** A function of [instagram-functions.js] keeps an invariant of the loop
    that does not read the globals and is not affected by calls other than
    progress reports. *)
Lemma preserves_lift_free {A} (I : run_state -> list event -> Prop) (m : M globals A) :
  (forall st g t, I st t ->
     I (mkRun g (successfulComments st) (attempts_made st)
          (consecutiveEmptyBatches st)) t) ->
  (forall e st t, is_report e = false -> I st t -> I st (t ++ [e])) ->
  report_free m ->
  preserves I (lift m).
Proof.
  intros Hg He Hm st t0 r st' t Hst. unfold lift.
  destruct (m (rs_globals st)) as [[r1 g1] t1] eqn:E. intros [= <- <- <-].
  apply Hg.
  exact (Hm (fun t => I st t) (fun e t => He e st t) (rs_globals st) t0 r1 g1 t1 Hst E).
Qed.

End ReportFree.

Section LoopInvariant.

Variable o : options.

Lemma counters_match_quiet e st t :
  is_report e = false -> counters_match st t -> counters_match st (t ++ [e]).
Proof.
  intros He [Ha Hs]. unfold counters_match. now rewrite !reports_quiet.
Qed.

Lemma item_inv_quiet e st t :
  is_report e = false -> item_inv st t -> item_inv st (t ++ [e]).
Proof. intros He [Hc Hle]. split; [now apply counters_match_quiet|exact Hle]. Qed.

Lemma loop_inv_quiet e st t :
  is_report e = false -> loop_inv st t -> loop_inv st (t ++ [e]).
Proof. intros He [Hc Hle]. split; [now apply counters_match_quiet|exact Hle]. Qed.

Lemma item_inv_loop_inv st t : item_inv st t -> loop_inv st t.
Proof. intros [Hc Hle]. split; [exact Hc|lia]. Qed.

Ltac count_reports :=
  cbn [attempts_made successfulComments]; rewrite ?reports_app;
  repeat match goal with
         | |- context [Url.string_eqb ?a ?b] =>
             let v := eval vm_compute in (Url.string_eqb a b) in
             change (Url.string_eqb a b) with v
         end;
  cbv beta iota; lia.

Ltac quiet_item := intros; apply item_inv_quiet; [reflexivity|assumption].
Ltac quiet_loop := intros; apply loop_inv_quiet; [reflexivity|assumption].

Lemma item_inv_lift {A} (m : M globals A) : report_free m -> preserves item_inv (lift m).
Proof.
  apply preserves_lift_free.
  - intros st g t H. exact H.
  - intros e st t. apply item_inv_quiet.
Qed.

Lemma loop_inv_lift {A} (m : M globals A) : report_free m -> preserves loop_inv (lift m).
Proof.
  apply preserves_lift_free.
  - intros st g t H. exact H.
  - intros e st t. apply loop_inv_quiet.
Qed.

(** Counting a reply and reporting it. *)
Lemma count_and_report iw :
  hoare_t item_inv
    (do st <- get;
     run set_successful (successfulComments st + 1);
     run perform (Report "success" (successfulComments st + 1)) (iw_reportSuccess iw);
     if successfulComments st + 1 >=? maxPosts o then ret Break
     else run sleep (iw_delay iw); ret Continue)
    (fun _ => loop_inv).
Proof.
  intros st t0 r st' t [[Ha Hs] Hle].
  unfold bind, get, set_successful, put, perform, sleep, ret.
  assert (Hinv : loop_inv
            (mkRun (rs_globals st) (successfulComments st + 1) (attempts_made st)
               (consecutiveEmptyBatches st))
            (t0 ++ [Report "success" (successfulComments st + 1)])).
  { split; [split|]; count_reports. }
  destruct (iw_reportSuccess iw) as [[]|?]; cbv beta iota;
    [destruct (successfulComments st + 1 >=? maxPosts o)|];
    intros [= <- <- <-]; cbn [app]; rewrite ?app_nil_r; try exact Hinv.
  change ([Report "success" (successfulComments st + 1); Sleep (iw_delay iw)])
    with ([Report "success" (successfulComments st + 1)] ++ [Sleep (iw_delay iw)]).
  rewrite app_assoc. apply loop_inv_quiet; [reflexivity|exact Hinv].
Qed.

Lemma item_body_inv iw url :
  hoare_t item_inv (item_body o iw url) (fun _ => loop_inv).
Proof.
  assert (Hw : forall s t, item_inv s t -> loop_inv s t) by apply item_inv_loop_inv.
  unfold item_body.
  apply hoare_t_bind_inv; auto.
  { apply item_inv_lift, getPostContent_report_free. }
  intros content.
  destruct (Js.count_words false content <? 3); [apply hoare_t_ret; auto|].
  apply hoare_t_bind_inv; auto. { inv_steps quiet_item. }
  intros [|]; [apply hoare_t_ret; auto|].
  apply hoare_t_bind_inv; auto. { inv_steps quiet_item. }
  intros [|]; [apply hoare_t_ret; auto|].
  apply hoare_t_bind_inv; auto. { inv_steps quiet_item. }
  intros finalComment.
  apply hoare_t_bind_inv; auto.
  { destruct (likePost o); [|apply preserves_ret].
    apply preserves_try_catch; [|intros msg; apply preserves_ret].
    apply item_inv_lift, instagramLike_report_free. }
  intros likedSuccessfully.
  apply hoare_t_bind_inv; auto.
  { apply item_inv_lift, instagramComment_report_free. }
  intros commentResult.
  destruct (skipped commentResult); [apply hoare_t_ret; auto|].
  destruct (negb (success commentResult)); [apply hoare_t_ret; auto|].
  apply count_and_report.
Qed.

Lemma process_item_inv iw url : preserves loop_inv (process_item o iw url).
Proof.
  unfold process_item.
  intros st t0 r st' t [[Ha Hs] Hle].
  unfold bind at 1, get. unfold bind at 1, set_attempts, bind at 1, get, put.
  cbv beta iota. unfold bind at 1, perform.
  set (st1 := mkRun (rs_globals st) (successfulComments st) (attempts_made st + 1)
                (consecutiveEmptyBatches st)).
  set (e := Report "processing" (successfulComments st)).
  assert (Hinv : item_inv st1 (t0 ++ [e])).
  { unfold st1, e. split; [split|]; count_reports. }
  destruct (iw_reportProcessing iw) as [[]|?]; cbv beta iota.
  2:{ intros [= <- <- <-]. cbn [app]. apply item_inv_loop_inv, Hinv. }
  destruct (try_catch (item_body o iw url) (fun _ => ret Continue) st1)
    as [[r2 st2] t2] eqn:E2.
  intros [= <- <- <-]. cbn [app].
  change (t0 ++ e :: t2) with (t0 ++ [e] ++ t2). rewrite app_assoc.
  revert E2. apply (hoare_t_try_catch item_inv _ _ (fun _ => loop_inv) (fun _ => loop_inv));
    [|intros msg; apply preserves_ret|exact Hinv].
  eapply hoare_t_weaken; [apply item_body_inv|auto|]. intros [?|?|]; auto.
Qed.

Lemma process_posts_inv item posts : preserves loop_inv (process_posts o item posts).
Proof.
  induction posts as [|url rest IH]; cbn [process_posts]; [apply preserves_ret|].
  apply preserves_bind; [apply preserves_get|]. intros st.
  destruct (successfulComments st >=? maxPosts o); [apply preserves_ret|].
  apply preserves_bind; [apply process_item_inv|].
  intros [|]; [exact IH|apply preserves_ret].
Qed.

Lemma set_empty_batches_inv n : preserves loop_inv (set_empty_batches n).
Proof.
  intros st t0 r st' t H. unfold set_empty_batches, bind, get, put.
  intros [= <- <- <-]. rewrite app_nil_r. exact H.
Qed.

Lemma batch_loop_inv script : preserves loop_inv (batch_loop o script).
Proof.
  induction script as [|bw script IH]; cbn [batch_loop];
    (apply preserves_bind; [apply preserves_get|]); intros st;
    destruct (negb (successfulComments st <? maxPosts o));
    try apply preserves_ret; [apply preserves_pending|].
  apply preserves_bind.
  - unfold batch_round. apply preserves_try_catch; [|intros msg; apply preserves_ret].
    unfold batch_body.
    apply preserves_bind;
      [apply loop_inv_lift, discoverInstagramPosts_report_free|].
    intros posts. destruct (length posts =? 0)%nat.
    + apply preserves_bind; [apply preserves_get|]. intros st1.
      apply preserves_bind; [apply set_empty_batches_inv|]. intros _.
      destruct (consecutiveEmptyBatches st1 + 1 >=? maxConsecutiveEmptyBatches);
        apply preserves_ret.
    + apply preserves_bind; [apply set_empty_batches_inv|]. intros _.
      apply preserves_bind; [apply process_posts_inv|]. intros _.
      apply preserves_bind; [apply preserves_get|]. intros st1.
      destruct (successfulComments st1 >=? maxPosts o); apply preserves_ret.
  - intros [why|]; [apply preserves_ret|exact IH].
Qed.

(** The loop as [runAction] runs it, from the reset of the discovery
    state. *)
Lemma runAction_auto_comment_inv report_start script st r st' t :
  runAction_auto_comment o report_start script st = (r, st', t) ->
  (exists msg, r = Throw msg /\ report_start = Throws msg) \/ loop_inv st' t.
Proof.
  unfold runAction_auto_comment.
  unfold bind at 1, lift, resetDiscoveryState, bind at 1, get, put. cbv beta iota.
  unfold bind at 1, perform.
  destruct report_start as [[]|msg]; cbv beta iota.
  2:{ intros [= <- <- <-]. left. eauto. }
  unfold bind at 1, set_successful, bind at 1, get, put. cbv beta iota.
  unfold bind at 1, set_attempts, bind at 1, get, put. cbv beta iota.
  unfold bind at 1, set_empty_batches, bind at 1, get, put. cbv beta iota.
  cbn [rs_globals successfulComments attempts_made consecutiveEmptyBatches
       likedPosts].
  match goal with
  | |- context [batch_loop o script ?s0] =>
      destruct (batch_loop o script s0) as [[r1 st1] t1] eqn:E
  end.
  intros [= <- <- <-]. right. cbn [app].
  change (Report "searching" 0 :: t1) with ([Report "searching" 0] ++ t1).
  revert E. apply batch_loop_inv.
  split; [split|]; cbn [attempts_made successfulComments];
    [reflexivity|reflexivity|lia].
Qed.

End LoopInvariant.

(** X17: the counters that the auto-comment action returns agree with the
    progress reports it made.  When the loop ends, [results.total] is the
    number of reports with status 'processing' and [results.successful] the
    number of reports with status 'success'; and no more replies are counted
    than posts were processed. *)
Theorem X17_counters_agree_with_progress_reports o report_start script st why st' t :
  runAction_auto_comment o report_start script st = (Ok why, st', t) ->
  attempts_made st' = reports "processing" t /\
  successfulComments st' = reports "success" t /\
  0 <= successfulComments st' <= attempts_made st'.
Proof.
  intros E.
  apply runAction_auto_comment_inv in E as [(msg & [=] & _)|[[Ha Hs] Hle]].
  auto.
Qed.

Lemma X17_witness :
  let out := runAction_auto_comment (target 1) (Returns tt) [good_batch] initial_run in
  attempts_made (state_of out) = reports "processing" (trace_of out) /\
  successfulComments (state_of out) = reports "success" (trace_of out) /\
  0 <= successfulComments (state_of out) <= attempts_made (state_of out).
Proof.
  intros out.
  apply (X17_counters_agree_with_progress_reports (target 1) (Returns tt)
           [good_batch] initial_run TargetReached (state_of out) (trace_of out)).
  vm_compute. reflexivity.
Defined.

Section LikedSetUntouched.

Variables (o : options) (L : gset string).

Hypothesis no_likes : likePost o = false.

Lemma liked_is_lift {A} (m : M globals A) :
  (forall g r g' t, m g = (r, g', t) -> likedPosts g' = likedPosts g) ->
  preserves (liked_is L) (lift m).
Proof.
  intros H st t0 r st' t Hst. unfold lift.
  destruct (m (rs_globals st)) as [[r1 g1] t1] eqn:E. intros [= <- <- <-].
  unfold liked_is. cbn. rewrite (H _ _ _ _ E). exact Hst.
Qed.

Lemma getPostContent_frame iw url g r g' t :
  getPostContent iw url g = (r, g', t) -> g' = g.
Proof.
  unfold getPostContent, try_catch, bind, perform, sleep, ret.
  crunch; intros [= <- <- <-]; reflexivity.
Qed.

Lemma instagramComment_frame w url comment username skipNavigation g r g' t :
  instagramComment w url comment username skipNavigation g = (r, g', t) -> g' = g.
Proof.
  intros E.
  assert (H : preserves (fun s (_ : list event) => s = g)
                (instagramComment w url comment username skipNavigation)).
  { apply preserves_try_catch; [apply comment_body_keeps_globals|].
    intros msg. apply preserves_ret. }
  exact (H g [] r g' t eq_refl E).
Qed.

Lemma liked_is_set_counter (f : run_state -> run_state) :
  (forall st, rs_globals (f st) = rs_globals st) ->
  preserves (liked_is L) (do st <- get; put (f st)).
Proof.
  intros Hf st t0 r st' t H. unfold bind, get, put. intros [= <- <- <-].
  unfold liked_is. now rewrite Hf.
Qed.

Ltac liked_step := first [intros; assumption | auto].

Lemma item_body_liked iw url : preserves (liked_is L) (item_body o iw url).
Proof.
  unfold item_body. rewrite no_likes.
  apply preserves_bind.
  { apply liked_is_lift. intros g r g' t E.
    now rewrite (getPostContent_frame _ _ _ _ _ _ E). }
  intros content.
  destruct (Js.count_words false content <? 3); [apply preserves_ret|].
  apply preserves_bind; [inv_steps liked_step|].
  intros [|]; [apply preserves_ret|].
  apply preserves_bind; [inv_steps liked_step|].
  intros [|]; [apply preserves_ret|].
  apply preserves_bind; [inv_steps liked_step|]. intros finalComment.
  apply preserves_bind; [apply preserves_ret|]. intros likedSuccessfully.
  apply preserves_bind.
  { apply liked_is_lift. intros g r g' t E.
    now rewrite (instagramComment_frame _ _ _ _ _ _ _ _ _ E). }
  intros commentResult.
  destruct (skipped commentResult); [apply preserves_ret|].
  destruct (negb (success commentResult)); [apply preserves_ret|].
  apply preserves_bind; [apply preserves_get|]. intros st.
  apply preserves_bind; [apply liked_is_set_counter; reflexivity|]. intros _.
  inv_steps liked_step.
Qed.

Lemma process_posts_liked item posts : preserves (liked_is L) (process_posts o item posts).
Proof.
  induction posts as [|url rest IH]; cbn [process_posts]; [apply preserves_ret|].
  apply preserves_bind; [apply preserves_get|]. intros st.
  destruct (successfulComments st >=? maxPosts o); [apply preserves_ret|].
  apply preserves_bind.
  - unfold process_item.
    apply preserves_bind; [apply preserves_get|]. intros st1.
    apply preserves_bind; [apply liked_is_set_counter; reflexivity|]. intros _.
    apply preserves_bind; [inv_steps liked_step|]. intros _.
    apply preserves_try_catch; [apply item_body_liked|intros msg; apply preserves_ret].
  - intros [|]; [exact IH|apply preserves_ret].
Qed.

Lemma batch_loop_liked script : preserves (liked_is L) (batch_loop o script).
Proof.
  induction script as [|bw script IH]; cbn [batch_loop];
    (apply preserves_bind; [apply preserves_get|]); intros st;
    destruct (negb (successfulComments st <? maxPosts o));
    try apply preserves_ret; [apply preserves_pending|].
  apply preserves_bind.
  - unfold batch_round. apply preserves_try_catch; [|intros msg; apply preserves_ret].
    unfold batch_body.
    apply preserves_bind.
    { apply liked_is_lift. intros g r g' t E.
      now apply discoverInstagramPosts_spec in E as [E _]. }
    intros posts. destruct (length posts =? 0)%nat.
    + apply preserves_bind; [apply preserves_get|]. intros st1.
      apply preserves_bind; [apply liked_is_set_counter; reflexivity|]. intros _.
      destruct (consecutiveEmptyBatches st1 + 1 >=? maxConsecutiveEmptyBatches);
        apply preserves_ret.
    + apply preserves_bind; [apply liked_is_set_counter; reflexivity|]. intros _.
      apply preserves_bind; [apply process_posts_liked|]. intros _.
      apply preserves_bind; [apply preserves_get|]. intros st1.
      destruct (successfulComments st1 >=? maxPosts o); apply preserves_ret.
  - intros [why|]; [apply preserves_ret|exact IH].
Qed.

Lemma runAction_auto_comment_liked report_start script :
  preserves (liked_is L) (runAction_auto_comment o report_start script).
Proof.
  unfold runAction_auto_comment.
  apply preserves_bind.
  { apply liked_is_lift. unfold resetDiscoveryState, bind, get, put.
    intros g r g' t [= <- <- <-]. reflexivity. }
  intros _. apply preserves_bind; [inv_steps liked_step|]. intros _.
  apply preserves_bind; [apply liked_is_set_counter; reflexivity|]. intros _.
  apply preserves_bind; [apply liked_is_set_counter; reflexivity|]. intros _.
  apply preserves_bind; [apply liked_is_set_counter; reflexivity|]. intros _.
  apply batch_loop_liked.
Qed.

End LikedSetUntouched.

(** X18: with [likePost] off, the whole auto-comment action leaves the
    liked set as it found it, however it ends: discovery, content
    extraction and replies never record a like. *)
Theorem X18_no_like_is_recorded_when_likes_are_off o report_start script st :
  likePost o = false ->
  likedPosts (rs_globals (state_of (runAction_auto_comment o report_start script st)))
  = likedPosts (rs_globals st).
Proof.
  intros Hoff.
  exact (preserves_run _ _ st
           (runAction_auto_comment_liked o (likedPosts (rs_globals st)) Hoff
              report_start script) eq_refl).
Qed.

Lemma X18_witness :
  likedPosts (rs_globals (state_of (runAction_auto_comment (target 1) (Returns tt)
                                      [good_batch] initial_run)))
  = likedPosts (rs_globals initial_run).
Proof.
  apply (X18_no_like_is_recorded_when_likes_are_off (target 1) (Returns tt)
           [good_batch] initial_run).
  reflexivity.
Defined.



(** X20: when the text generator throws, the post is processed exactly as
    with [useAI] off: the manual comment (or the default one) is used, the
    iteration ends the same way and leaves the same counters and globals. *)
Theorem X20_failed_generation_falls_back_to_the_manual_comment o iw url st msg :
  iw_ai iw = Throws msg ->
  result_of (item_body (with_useAI o true) iw url st)
  = result_of (item_body (with_useAI o false) iw url st) /\
  state_of (item_body (with_useAI o true) iw url st)
  = state_of (item_body (with_useAI o false) iw url st).
Proof.
  intros Hai. unfold item_body.
  apply bind_alike; [reflexivity..|]. intros content s1.
  destruct (Js.count_words false content <? 3); [split; reflexivity|].
  apply bind_alike; [reflexivity..|]. intros [|] s2; [split; reflexivity|].
  apply bind_alike; [reflexivity..|]. intros [|] s3; [split; reflexivity|].
  apply bind_alike; [..|intros finalComment s4; split; reflexivity];
    cbn [with_useAI useAI andb]; unfold try_catch, perform, ret; rewrite Hai;
    destruct (0 <? Js.count_words false content); reflexivity.
Qed.

Lemma X20_witness :
  result_of (item_body (with_useAI (target 3) true) good_item
               "https://www.instagram.com/p/1/" initial_run)
  = result_of (item_body (with_useAI (target 3) false) good_item
                 "https://www.instagram.com/p/1/" initial_run) /\
  state_of (item_body (with_useAI (target 3) true) good_item
              "https://www.instagram.com/p/1/" initial_run)
  = state_of (item_body (with_useAI (target 3) false) good_item
                "https://www.instagram.com/p/1/" initial_run).
Proof.
  apply (X20_failed_generation_falls_back_to_the_manual_comment (target 3) good_item
           "https://www.instagram.com/p/1/" initial_run "OpenAI API key not configured").
  reflexivity.
Defined.

(** X21: with a target [maxPosts <= 0] the auto-comment action runs no
    round at all: after the reset and the first progress report the loop is
    left at once, no listing is opened, and both counters are zero. *)
Theorem X21_nonpositive_target_runs_no_round o script st :
  maxPosts o <= 0 ->
  runAction_auto_comment o (Returns tt) script st
  = (Ok TargetReached,
     mkRun (mkGlobals (likedPosts (rs_globals st)) ∅ false None) 0 0 0,
     [Report "searching" 0]).
Proof.
  intros H. unfold runAction_auto_comment, lift, resetDiscoveryState, set_successful,
    set_attempts, set_empty_batches.
  assert (Hloop : forall s, successfulComments s = 0 ->
            batch_loop o script s = (Ok TargetReached, s, [])).
  { intros s Hs. destruct script; cbn [batch_loop]; unfold bind, get; rewrite Hs;
      replace (0 <? maxPosts o) with false by (symmetry; apply Z.ltb_ge; lia);
      reflexivity. }
  unfold bind, get, put, perform. cbv beta iota.
  rewrite Hloop by reflexivity. reflexivity.
Qed.

Lemma X21_witness :
  runAction_auto_comment (target 0) (Returns tt) [good_batch] initial_run
  = (Ok TargetReached,
     mkRun (mkGlobals (likedPosts (rs_globals initial_run)) ∅ false None) 0 0 0,
     [Report "searching" 0]).
Proof.
  apply (X21_nonpositive_target_runs_no_round (target 0) [good_batch] initial_run).
  cbn. lia.
Defined.

(** X22: a like that fails does not get in the way of the reply.  When
    [instagramLike] returns [false] or throws for the post, the post is
    processed exactly as with [likePost] off: [instagramComment] is called
    without [skipNavigation], and the iteration ends the same way with the
    same counters and globals. *)
Theorem X22_failed_like_leaves_the_reply_as_without_likes o iw url st :
  result_of (instagramLike (iw_like iw) url (rs_globals st)) <> Ok true ->
  result_of (item_body (with_likePost o true) iw url st)
  = result_of (item_body (with_likePost o false) iw url st) /\
  state_of (item_body (with_likePost o true) iw url st)
  = state_of (item_body (with_likePost o false) iw url st).
Proof.
  intros Hlike. destruct st as [g n a c]. cbn [rs_globals] in Hlike.
  destruct (instagramLike (iw_like iw) url g) as [[r1 g1] t1] eqn:El.
  pose proof (instagramLike_frame _ _ _ _ _ _ El) as Hframe. cbn in Hlike.
  unfold item_body, lift, getPostContent, manual_comment.
  cbn [with_likePost likePost useAI username maxPosts comment rs_globals
       successfulComments attempts_made consecutiveEmptyBatches].
  unfold set_successful, try_catch, bind, perform, sleep, ret, get, put.
  cbn [rs_globals successfulComments attempts_made consecutiveEmptyBatches].
  crunch; cbn [rs_globals successfulComments attempts_made consecutiveEmptyBatches];
    try (split; reflexivity);
    rewrite El; destruct r1 as [[|]|?|]; try contradiction; subst g1;
    cbv beta iota;
    cbn [rs_globals successfulComments attempts_made consecutiveEmptyBatches];
    match goal with
    | |- context [instagramComment ?w ?u ?fc ?un ?sk ?g0] =>
        destruct (instagramComment w u fc un sk g0) as [[[res|?|] g2] t2]
    end;
    cbv beta iota; try (split; reflexivity);
    crunch; split; reflexivity.
Qed.

Lemma X22_witness :
  result_of (item_body (with_likePost (target 3) true) good_item
               "https://www.instagram.com/p/1/" initial_run)
  = result_of (item_body (with_likePost (target 3) false) good_item
                 "https://www.instagram.com/p/1/" initial_run) /\
  state_of (item_body (with_likePost (target 3) true) good_item
              "https://www.instagram.com/p/1/" initial_run)
  = state_of (item_body (with_likePost (target 3) false) good_item
                "https://www.instagram.com/p/1/" initial_run).
Proof.
  apply (X22_failed_like_leaves_the_reply_as_without_likes (target 3) good_item
           "https://www.instagram.com/p/1/" initial_run).
  vm_compute. discriminate.
Defined.

(* ------------------------------------------------------------------------- *)
(** ** Properties of [bot.js] *)
(* ------------------------------------------------------------------------- *)

#[local] Arguments trim : simpl never.

Section SessionNames.

Lemma startsWith_append p s : Js.startsWith p (p +:+ s) = true.
Proof. induction p as [|c p IH]; [reflexivity|]. cbn. now rewrite Ascii.eqb_refl. Qed.

Lemma includes_append_r needle a b :
  Js.includes needle b = true -> Js.includes needle (a +:+ b) = true.
Proof.
  intros H. induction a as [|c a IH]; [exact H|].
  cbn [String.append Js.includes]. rewrite IH. apply orb_true_r.
Qed.

Lemma substring_from_append a b : substring_from (String.length a) (a +:+ b) = b.
Proof. induction a as [|c a IH]; [now destruct b|exact IH]. Qed.

Lemma length_append a b : String.length (a +:+ b) = (String.length a + String.length b)%nat.
Proof. induction a as [|c a IH]; [reflexivity|]. cbn. now rewrite IH. Qed.

Lemma append_assoc a b c : (a +:+ b) +:+ c = a +:+ (b +:+ c).
Proof.
  induction a as [|x a IH]; [reflexivity|].
  change ((String x a +:+ b) +:+ c) with (String x ((a +:+ b) +:+ c)).
  change (String x a +:+ (b +:+ c)) with (String x (a +:+ (b +:+ c))).
  now rewrite IH.
Qed.

Lemma cleanSessionName_prefixed platform name :
  cleanSessionName platform (platform +:+ "_" +:+ name) = name.
Proof.
  unfold cleanSessionName.
  assert (Hi : Js.includes "_" (platform +:+ "_" +:+ name) = true).
  { apply includes_append_r. reflexivity. }
  assert (Hs : Js.startsWith (platform +:+ "_") (platform +:+ "_" +:+ name) = true).
  { rewrite <- append_assoc. apply startsWith_append. }
  rewrite Hi, Hs. cbn [andb].
  replace (String.length platform + 1)%nat with (String.length (platform +:+ "_"))
    by (rewrite length_append; reflexivity).
  rewrite <- append_assoc. apply substring_from_append.
Qed.

Lemma cleanSessionName_bare platform name :
  Js.startsWith (platform +:+ "_") name = false -> cleanSessionName platform name = name.
Proof. intros H. unfold cleanSessionName. rewrite H. now rewrite andb_false_r. Qed.

End SessionNames.

(** X23: both formats of a session name address the same file.  A session
    name [platform_name] is stored in [platform-name.json] under the sessions
    directory, and so is the session name [name] itself unless it starts with
    [platform_]; exactly one such prefix is removed. *)
Theorem X23_both_session_name_formats_name_the_same_file path_join dirname platform name :
  getSessionFilePath path_join dirname platform (platform +:+ "_" +:+ name)
  = (sessionsDir path_join dirname,
     path_join (sessionsDir path_join dirname) (platform +:+ "-" +:+ name +:+ ".json")) /\
  (Js.startsWith (platform +:+ "_") name = false ->
   getSessionFilePath path_join dirname platform name
   = getSessionFilePath path_join dirname platform (platform +:+ "_" +:+ name)).
Proof.
  unfold getSessionFilePath. rewrite cleanSessionName_prefixed. split; [reflexivity|].
  intros H. now rewrite (cleanSessionName_bare platform name H).
Qed.

Lemma X23_witness :
  let join := fun a b => a +:+ "/" +:+ b in
  getSessionFilePath join "/srv/bot" "instagram" "me"
  = getSessionFilePath join "/srv/bot" "instagram" ("instagram" +:+ "_" +:+ "me").
Proof.
  intros join.
  apply (proj2 (X23_both_session_name_formats_name_the_same_file join "/srv/bot"
                  "instagram" "me")).
  reflexivity.
Defined.

(** X24: [generateAIComment] fails before any request to the OpenAI client
    when no API key is configured ('OpenAI API key not configured') and when
    neither the session nor the environment gives an assistant id.  A comment
    it returns is the trimmed text of the first assistant message of a run
    that ended with status 'completed', which may be empty after trimming;
    when the requests return and the run ends with any other status it
    throws 'AI comment generation failed with status: ...'. *)
Theorem X24_generated_comment_comes_from_a_completed_run env w postContent
    sessionAssistantId s :
  let out := generateAIComment env w postContent sessionAssistantId s in
  (Js.truthy (OPENAI_API_KEY env) = false ->
   result_of out = Throw "OpenAI API key not configured" /\ calls (state_of out) = calls s) /\
  (Js.truthy (OPENAI_API_KEY env) = true -> Js.truthy sessionAssistantId = false ->
   Js.truthy (OPENAI_ASSISTANT_ID env) = false ->
   result_of out = Throw "No OpenAI Assistant ID found in session or environment" /\
   calls (state_of out) = calls s) /\
  (forall comment, result_of out = Ok comment ->
     ai_run w = Returns "completed" /\
     exists messages value,
       ai_messages w = Returns messages /\
       assistantMessage messages = Some (Some value) /\
       value <> EmptyString /\ comment = trim value) /\
  (forall status,
     Js.truthy (OPENAI_API_KEY env) = true ->
     Js.truthy sessionAssistantId = true \/ Js.truthy (OPENAI_ASSISTANT_ID env) = true ->
     ai_thread w = Returns tt -> ai_message w = Returns tt ->
     ai_run w = Returns status -> status <> "completed" ->
     result_of out = Throw ("AI comment generation failed with status: " +:+ status)).
Proof.
  cbv zeta. unfold generateAIComment.
  destruct (Js.truthy (OPENAI_API_KEY env)) eqn:Ekey; cbn [negb].
  { split; [discriminate|]. split; [|split].
    - intros _ Hs He. rewrite Hs.
      destruct (OPENAI_ASSISTANT_ID env) as [[|a id]|]; try discriminate; cbn; auto.
    - unfold try_catch, bind, external, throw, ret.
      destruct (if Js.truthy sessionAssistantId then sessionAssistantId
                else OPENAI_ASSISTANT_ID env) as [[|a id]|];
        try (cbn; discriminate).
      crunch;
        try (destruct (assistantMessage a3) as [[[|c value]|]|] eqn:Em);
        cbn; try discriminate.
      apply string_eqb_true in Heqb. subst.
      intros comment [= <-]. split; [reflexivity|].
      eexists _, _; repeat split; eauto; discriminate.
    - intros status _ Hid Ht Hm Hst Hne.
      unfold try_catch, bind, external, throw, ret. rewrite Ht, Hm, Hst.
      assert (Heq : Url.string_eqb status "completed" = false)
        by now apply string_eqb_false.
      assert (Hsome : exists a id,
                (if Js.truthy sessionAssistantId then sessionAssistantId
                 else OPENAI_ASSISTANT_ID env) = Some (String a id)).
      { destruct Hid as [H|H].
        - rewrite H. destruct sessionAssistantId as [[|a id]|]; try discriminate; eauto.
        - destruct (Js.truthy sessionAssistantId) eqn:Es.
          + destruct sessionAssistantId as [[|a id]|]; try discriminate; eauto.
          + destruct (OPENAI_ASSISTANT_ID env) as [[|a id]|]; try discriminate; eauto. }
      destruct Hsome as (a & id & ->). cbv beta iota. rewrite Heq. reflexivity. }
  split; [intros _; cbn; auto|]. split; [discriminate|].
  split; [cbn; discriminate|]. intros; discriminate.
Qed.

(** An assistant that answers with blanks only. *)
Lemma X24_witness :
  let env := mkEnvironment (Some "sk-key") (Some "asst_1") in
  let w := mkAiWorld (Returns tt) (Returns tt) (Returns "completed")
             (Returns [("user", Some "Please write"); ("assistant", Some "  ")]) in
  ai_run w = Returns "completed" /\
  exists messages value,
    ai_messages w = Returns messages /\
    assistantMessage messages = Some (Some value) /\
    value <> EmptyString /\ EmptyString = trim value.
Proof.
  intros env w.
  apply (proj1 (proj2 (proj2 (X24_generated_comment_comes_from_a_completed_run env w
                                "a sunset" None (mkBot initial_globals false ∅ []))))
           EmptyString).
  vm_compute. reflexivity.
Defined.

Section PostText.







End PostText.



Section SessionFiles.

Variables (path_join : string -> string -> string) (dirname : string).

Lemma getSessionAssistantId_reads platform name s :
  result_of (getSessionAssistantId path_join dirname platform name s)
  = Ok match files s !! (getSessionFilePath path_join dirname platform name).2 with
       | Some (SessionFile d) => assistantId_of d
       | _ => None
       end.
Proof.
  unfold getSessionAssistantId, readFile, parse, try_catch, bind, get, external, throw, ret.
  destruct (files s !! (getSessionFilePath path_join dirname platform name).2)
    as [[d|]|]; reflexivity.
Qed.



End SessionFiles.



Section RunAction.

Variables (path_join : string -> string -> string) (dirname : string).

(** A handler that returns a value lets no exception through. *)
Lemma try_catch_ret_no_throw {S A} (m : M S A) (f : string -> A) s msg :
  result_of (try_catch m (fun e => ret (f e)) s) <> Throw msg.
Proof.
  unfold try_catch, ret. destruct (m s) as [[[a|e|] s1] t1]; cbn; discriminate.
Qed.

Lemma result_bind {S A B} (m : M S A) (k : A -> M S B) s :
  result_of (bind m k s)
  = match result_of (m s) with
    | Ok a => result_of (k a (state_of (m s)))
    | Throw msg => Throw msg
    | Pending => Pending
    end.
Proof.
  unfold bind. destruct (m s) as [[[a|msg|] s1] t1]; cbn; auto.
  now destruct (k a s1) as [[r2 s2] t2].
Qed.

Lemma result_on_page {A} (m : M globals A) s :
  result_of (on_page m s) = result_of (m (bs_ig s)).
Proof. unfold on_page. now destruct (m (bs_ig s)) as [[r g] t]. Qed.

Lemma loadSession_returns w platform name s :
  exists d, result_of (loadSession path_join dirname w platform name s) = Ok d.
Proof.
  unfold loadSession, readFile, parse, try_catch, bind, get, external, perform, throw, ret.
  destruct (files s !! (getSessionFilePath path_join dirname platform name).2)
    as [[d|]|]; cbv beta iota; try (eexists; reflexivity).
  destruct (0 <? length (sd_cookies d))%nat; cbv beta iota;
    [destruct (ld_setCookie w) as [[]|?]; cbv beta iota; try (eexists; reflexivity)|];
    destruct (ld_storage w) as [[]|?]; eexists; reflexivity.
Qed.

Lemma getSessionAssistantId_returns platform name s :
  exists a, result_of (getSessionAssistantId path_join dirname platform name s) = Ok a.
Proof. rewrite getSessionAssistantId_reads. eauto. Qed.

Lemma instagramComment_returns w url comment username skipNavigation g :
  exists res, result_of (instagramComment w url comment username skipNavigation g) = Ok res.
Proof.
  pose proof (instagramComment_reasoned w url comment username skipNavigation g) as H.
  destruct (result_of (instagramComment w url comment username skipNavigation g));
    [eauto|destruct H..].
Qed.

(** The login gate does not read the globals. *)
Lemma ensureInstagramLoggedIn_result w username password g g' :
  result_of (ensureInstagramLoggedIn w username password g)
  = result_of (ensureInstagramLoggedIn w username password g').
Proof.
  unfold ensureInstagramLoggedIn, try_catch, bind, perform, sleep, throw, ret.
  crunch; reflexivity.
Qed.

End RunAction.

(** X27: [runAction] reports failures in its result instead of throwing.
    The only exception that can escape it is that of [browser.close()] in the
    [finally] block of a headful run; a headless run never throws. *)
Theorem X27_run_action_reports_failures_in_its_result path_join dirname env w rq s msg :
  result_of (runAction path_join dirname env w rq s) = Throw msg ->
  rq_headful rq = true /\ aw_close w = Throws msg.
Proof.
  unfold runAction. rewrite result_bind.
  pose proof (try_catch_ret_no_throw
                (run launchBrowser (aw_launch w) (rq_headful rq); ret None)
                (fun e => Some e) s) as Hlaunch.
  destruct (try_catch (run launchBrowser (aw_launch w) (rq_headful rq); ret None)
              (fun e => ret (Some e)) s) as [[[launch_error|e|] s0] t0];
    cbn [result_of state_of fst snd] in *; try discriminate.
  2:{ now destruct (Hlaunch e). }
  destruct launch_error as [e|]; [discriminate|].
  unfold finally.
  pose proof (try_catch_ret_no_throw
                (run setupPage (aw_setup w) (rq_headful rq);
                 dispatch path_join dirname env w rq)
                failed s0) as Hbody.
  destruct (try_catch (run setupPage (aw_setup w) (rq_headful rq);
                       dispatch path_join dirname env w rq)
              (fun e => ret (failed e)) s0) as [[[res|e|] s1] t1];
    cbn [result_of fst] in Hbody; try discriminate.
  2:{ now destruct (Hbody e). }
  destruct (rq_headful rq); [|discriminate].
  unfold external. destruct (aw_close w) as [[]|e]; cbn; [discriminate|].
  intros [= ->]. auto.
Qed.

(** A headful run whose browser cannot be closed. *)
Lemma X27_witness :
  let w := mkActionWorld (mkLaunchWorld (Returns tt) (Returns tt))
             (mkSetupWorld (Returns tt) (Returns tt) (Returns tt))
             (mkLoadWorld (Returns tt) (Returns tt)) half_login_world
             (mkSaveWorld (Returns tt) (Returns []) (Returns ([], [])) "" (Returns tt))
             still_world (Returns tt) [] (Returns tt) (fun _ => blocked_like)
             (fun _ => 1500) good_item
             (mkAiWorld (Returns tt) (Returns tt) (Returns "completed") (Returns []))
             unverified_comment
             (mkStatusWorld (Returns tt) "https://www.instagram.com/" (Returns logged_out)
                (Returns (fun _ => false)) (Returns "Instagram") (Returns "Instagram"))
             (mkLogoutWorld (Returns tt) (Returns tt) (Returns []) (Returns tt))
             (Throws "Protocol error: Target closed") in
  let rq := mkRequest "discover" (Some "tiktok") None None None None None None None
              None false true false None "" in
  rq_headful rq = true /\ aw_close w = Throws "Protocol error: Target closed".
Proof.
  intros w rq.
  apply (X27_run_action_reports_failures_in_its_result
           (fun a b => a +:+ "/" +:+ b) "/srv/bot" (mkEnvironment None None) w rq
           (mkBot initial_globals false ∅ []) "Protocol error: Target closed").
  vm_compute. reflexivity.
Defined.

Section LikeAction.

Variable w : action_world.

(** One iteration of the [for] loop of the [like] action. *)
Lemma like_one url s :
  exists r s1 t1,
    try_catch
      (run on_page (instagramLike (aw_like w url) url);
       run sleep (aw_like_delay w url);
       ret (mkLikeResult url true None))
      (fun msg => ret (mkLikeResult url false (Some msg))) s
    = (Ok r, s1, t1) /\
    lr_url r = url /\
    (lr_success r = true \/
     exists msg, lr_success r = false /\ lr_error r = Some msg /\
                 result_of (instagramLike (aw_like w url) url (bs_ig s)) = Throw msg).
Proof.
  unfold try_catch, bind, on_page, sleep, ret.
  destruct (instagramLike (aw_like w url) url (bs_ig s)) as [[[b|msg|] g1] t1] eqn:E.
  - eexists _, _, _. split; [reflexivity|]. cbn. auto.
  - eexists _, _, _. split; [reflexivity|]. cbn. split; [reflexivity|]. right. eauto.
  - now apply instagramLike_frame in E.
Qed.

Lemma like_each_spec posts : forall s,
  exists results,
    result_of (like_each w posts s) = Ok results /\
    map lr_url results = posts /\
    (forall r, r ∈ results ->
       lr_success r = true \/
       exists msg, lr_success r = false /\ lr_error r = Some msg /\
                   exists g, result_of (instagramLike (aw_like w (lr_url r)) (lr_url r) g)
                             = Throw msg).
Proof.
  induction posts as [|url rest IH]; intros s; cbn [like_each].
  - exists []. repeat split. intros r Hr. now apply elem_of_nil in Hr.
  - destruct (like_one url s) as (r & s1 & t1 & E & Hurl & Hr).
    destruct (IH s1) as (results & Hres & Hmap & Hall).
    exists (r :: results). unfold bind at 1. rewrite E.
    unfold bind. destruct (like_each w rest s1) as [[r2 s2] t2].
    cbn in Hres. subst r2. cbn. split; [reflexivity|]. split; [now rewrite Hurl, Hmap|].
    intros r' Hin. apply elem_of_cons in Hin as [->|Hin]; [|auto].
    destruct Hr as [?|(msg & Hf & He & Ht)]; [now left|right].
    exists msg. rewrite Hurl. split; [exact Hf|]. split; [exact He|].
    exists (bs_ig s). exact Ht.
Qed.

End LikeAction.

(** X28: the [like] action counts the posts whose like did not throw, not
    the posts that were liked.  Its [for] loop always returns one result per
    post, in order; a result is a failure only when [instagramLike] threw,
    which it does only when the navigation or one of the reads before the
    first request throws; so when none of these throws, every post is
    counted in 'Liked N Instagram posts', including those for which
    [instagramLike] returned [false]. *)
Theorem X28_like_action_counts_every_post_whose_like_did_not_throw w posts s :
  exists results,
    result_of (like_each w posts s) = Ok results /\
    map lr_url results = posts /\
    (forall r, r ∈ results -> lr_success r = false ->
       exists msg, lr_error r = Some msg /\
         (kw_goto (aw_like w (lr_url r)) = Throws msg \/
          kw_mediaId (aw_like w (lr_url r)) = Throws msg \/
          kw_alreadyLiked (aw_like w (lr_url r)) = Throws msg \/
          kw_headers (aw_like w (lr_url r)) = Throws msg)) /\
    ((forall url msg,
        kw_goto (aw_like w url) <> Throws msg /\ kw_mediaId (aw_like w url) <> Throws msg /\
        kw_alreadyLiked (aw_like w url) <> Throws msg /\
        kw_headers (aw_like w url) <> Throws msg) ->
     liked_count results = length posts).
Proof.
  destruct (like_each_spec w posts s) as (results & Hres & Hmap & Hall).
  exists results. split; [exact Hres|]. split; [exact Hmap|]. split.
  - intros r Hin Hfalse.
    destruct (Hall r Hin) as [Ht|(msg & _ & Herr & g & Hthrow)]; [congruence|].
    exists msg. split; [exact Herr|]. now apply instagramLike_throws in Hthrow.
  - intros Hno. rewrite <- Hmap, length_map. unfold liked_count.
    clear Hres Hmap. induction results as [|r results IH]; [reflexivity|].
    cbn [List.filter].
    assert (Hr : lr_success r = true).
    { destruct (Hall r) as [Ht|(msg & _ & _ & g & Hthrow)];
        [apply list_elem_of_here|exact Ht|].
      apply instagramLike_throws in Hthrow.
      destruct (Hno (lr_url r) msg) as (H1 & H2 & H3 & H4).
      destruct Hthrow as [?|[?|[?|?]]]; contradiction. }
    rewrite Hr. cbn [length]. f_equal. apply IH.
    intros r' Hin. apply Hall. now apply list_elem_of_further.
Qed.

(** Two posts on which every way of liking fails. *)
Lemma X28_witness :
  let w := mkActionWorld (mkLaunchWorld (Returns tt) (Returns tt))
             (mkSetupWorld (Returns tt) (Returns tt) (Returns tt))
             (mkLoadWorld (Returns tt) (Returns tt)) half_login_world
             (mkSaveWorld (Returns tt) (Returns []) (Returns ([], [])) "" (Returns tt))
             still_world (Returns tt) [] (Returns tt) (fun _ => blocked_like)
             (fun _ => 1500) good_item
             (mkAiWorld (Returns tt) (Returns tt) (Returns "completed") (Returns []))
             unverified_comment
             (mkStatusWorld (Returns tt) "https://www.instagram.com/" (Returns logged_out)
                (Returns (fun _ => false)) (Returns "Instagram") (Returns "Instagram"))
             (mkLogoutWorld (Returns tt) (Returns tt) (Returns []) (Returns tt))
             (Returns tt) in
  let posts := ["https://www.instagram.com/p/A/"; "https://www.instagram.com/p/B/"] in
  exists results,
    result_of (like_each w posts (mkBot initial_globals false ∅ [])) = Ok results /\
    likedPosts (bs_ig (state_of (like_each w posts (mkBot initial_globals false ∅ []))))
    = ∅ /\
    liked_count results = 2%nat.
Proof.
  intros w posts.
  destruct (X28_like_action_counts_every_post_whose_like_did_not_throw w posts
              (mkBot initial_globals false ∅ [])) as (results & Hres & _ & _ & Hcount).
  exists results. split; [exact Hres|]. split; [vm_compute; reflexivity|].
  apply Hcount. intros url msg. repeat split; discriminate.
Defined.

Ltac compare_strings :=
  repeat match goal with
         | |- context [Url.string_eqb ?a ?b] =>
             let v := eval vm_compute in (Url.string_eqb a b) in
             lazymatch v with
             | true => change (Url.string_eqb a b) with true
             | false => change (Url.string_eqb a b) with false
             end
         end.

Section Dispatch.

Variables (path_join : string -> string -> string) (dirname : string).
Variables (env : environment) (w : action_world) (rq : request).

Lemma result_try_catch {S A} (m : M S A) (h : string -> M S A) s :
  result_of (try_catch m h s)
  = match result_of (m s) with
    | Throw msg => result_of (h msg (state_of (m s)))
    | r => r
    end.
Proof.
  unfold try_catch. destruct (m s) as [[[a|msg|] s1] t1]; cbn; auto.
  now destruct (h msg s1) as [[r2 s2] t2].
Qed.

Lemma result_finally_ret {S A} (m : M S A) s :
  result_of (finally m (ret tt) s) = result_of (m s).
Proof. unfold finally, ret. destruct (m s) as [[[a|msg|] s1] t1]; reflexivity. Qed.

Lemma launchBrowser_returns lw headful s :
  lb_launch lw = Returns tt -> lb_newPage lw = Returns tt ->
  result_of (launchBrowser lw headful s) = Ok tt.
Proof.
  intros Hl Hn. unfold launchBrowser, bind, get, put, external, ret. rewrite Hl, Hn.
  destruct headful; [reflexivity|]. destruct (globalBrowser s); reflexivity.
Qed.

Lemma setupPage_returns sw headful s :
  su_userAgent sw = Returns tt -> su_viewport sw = Returns tt ->
  su_interception sw = Returns tt ->
  result_of (setupPage sw headful s) = Ok tt.
Proof.
  intros Hu Hv Hi. unfold setupPage, bind, external, ret. rewrite Hu, Hv, Hi.
  destruct headful; reflexivity.
Qed.


(** The actions other than [login] start with the login gate. *)
Lemma dispatch_gate :
  rq_platform rq = Some "instagram" -> rq_action rq <> "login" ->
  forall s,
    result_of (dispatch path_join dirname env w rq s)
    = match result_of (ensureInstagramLoggedIn (aw_login w) (rq_username rq)
                         (rq_password rq) initial_globals) with
      | Ok _ =>
          result_of (dispatch path_join dirname env w rq s)
      | Throw msg => Throw msg
      | Pending => Pending
      end.
Proof.
  intros Hp Ha s.
  destruct (result_of (ensureInstagramLoggedIn (aw_login w) (rq_username rq)
                         (rq_password rq) initial_globals)) as [b|msg|] eqn:Elogin;
    [reflexivity|..];
    unfold dispatch; rewrite Hp; compare_strings; cbn [negb];
    rewrite result_bind;
    destruct (loadSession_returns path_join dirname (aw_load w) "instagram"
                (sessionName_of rq) s) as [d ->];
    cbv beta iota;
    (replace (Url.string_eqb (rq_action rq) "login") with false
       by (symmetry; now apply string_eqb_false));
    rewrite result_bind, result_on_page;
    rewrite (ensureInstagramLoggedIn_result _ _ _ _ initial_globals), Elogin;
    reflexivity.
Qed.

End Dispatch.

(** X29: the [comment] action reports success whatever the reply did.  With
    [useAI] off, once the login gate has passed, [runAction]'s dispatch
    returns [{ ok: true, message: 'Comment posted successfully' }] for every
    page of the post: the outcome of [instagramComment] (a failure, a skip) is
    not read, and [instagramComment] does not throw. *)
Theorem X29_comment_action_does_not_read_the_outcome path_join dirname env w rq s :
  rq_platform rq = Some "instagram" -> rq_action rq = "comment" -> rq_useAI rq = false ->
  result_of (ensureInstagramLoggedIn (aw_login w) (rq_username rq) (rq_password rq)
               initial_globals) = Ok true ->
  result_of (dispatch path_join dirname env w rq s)
  = Ok (mkResult true "Comment posted successfully" NoPayload).
Proof.
  intros Hp Ha Hai Hlogin. unfold dispatch. rewrite Hp, Ha, Hai.
  compare_strings. cbn [negb]. rewrite result_bind.
  destruct (loadSession_returns path_join dirname (aw_load w) "instagram"
              (sessionName_of rq) s) as [d ->].
  cbv beta iota. rewrite result_bind, result_on_page.
  rewrite (ensureInstagramLoggedIn_result _ _ _ _ initial_globals), Hlogin.
  cbv beta iota. rewrite result_bind.
  match goal with
  | |- context [getSessionAssistantId path_join dirname ?p ?n ?s0] =>
      destruct (getSessionAssistantId_returns path_join dirname p n s0) as [a ->]
  end.
  cbv beta iota. rewrite result_bind. cbn [ret result_of fst].
  rewrite result_bind, result_on_page.
  unfold comment_on.
  match goal with
  | |- context [instagramComment ?cw ?u ?c ?un ?sk ?g] =>
      destruct (instagramComment_returns cw u c un sk g) as [res ->]
  end.
  reflexivity.
Qed.

(** A reply on a page without any comment input. *)
Lemma X29_witness :
  let no_input := mkCommentWorld (Returns false) (Returns tt) (Returns false)
                    (fun _ => Returns false) (Returns tt) (fun _ => Returns false)
                    (Returns tt) (Returns tt) (Returns tt) (Returns "") (Returns tt)
                    (Returns false) (Returns false) (Returns false) (Returns false)
                    (Returns tt) (fun _ => Returns false) (Returns false) (Returns tt)
                    (Returns false) (Returns tt) (Returns false) in
  let logged_in := mkLoginWorld "https://www.instagram.com/" (Returns tt)
                     (Returns (mkDom "https://www.instagram.com/" "Instagram"
                                 (fun sel => Url.string_eqb sel "nav[role=navigation]")
                                 (fun _ => "")))
                     (Returns tt) (Returns tt) (fun _ => Returns tt)
                     (Returns logged_out) (Returns tt) in
  let w := mkActionWorld (mkLaunchWorld (Returns tt) (Returns tt))
             (mkSetupWorld (Returns tt) (Returns tt) (Returns tt))
             (mkLoadWorld (Returns tt) (Returns tt)) logged_in
             (mkSaveWorld (Returns tt) (Returns []) (Returns ([], [])) "" (Returns tt))
             still_world (Returns tt) [] (Returns tt) (fun _ => blocked_like)
             (fun _ => 1500) good_item
             (mkAiWorld (Returns tt) (Returns tt) (Returns "completed") (Returns []))
             no_input
             (mkStatusWorld (Returns tt) "https://www.instagram.com/" (Returns logged_out)
                (Returns (fun _ => false)) (Returns "Instagram") (Returns "Instagram"))
             (mkLogoutWorld (Returns tt) (Returns tt) (Returns []) (Returns tt))
             (Returns tt) in
  let rq := mkRequest "comment" (Some "instagram") None None None None None None None
              (Some "Nice shot") false false false None
              "https://www.instagram.com/p/A/" in
  result_of (instagramComment no_input "https://www.instagram.com/p/A/" "Nice shot" None
               false initial_globals)
  = Ok (failure_outcome "Comment input field not found" "https://www.instagram.com/p/A/") /\
  result_of (dispatch (fun a b => a +:+ "/" +:+ b) "/srv/bot" (mkEnvironment None None)
               w rq (mkBot initial_globals false ∅ []))
  = Ok (mkResult true "Comment posted successfully" NoPayload).
Proof.
  intros no_input logged_in w rq. split; [vm_compute; reflexivity|].
  apply (X29_comment_action_does_not_read_the_outcome (fun a b => a +:+ "/" +:+ b)
           "/srv/bot" (mkEnvironment None None) w rq (mkBot initial_globals false ∅ []));
    vm_compute; reflexivity.
Defined.

(** X30: every action but [login] goes through the login gate first, the
    session check, the logout and an unknown action included.  In a headless
    run whose browser and page are set up, when [ensureInstagramLoggedIn]
    throws, [runAction] returns [{ ok: false, message }] with the message of
    the gate, whatever the action is. *)
Theorem X30_actions_start_with_the_login_gate path_join dirname env w rq s msg :
  rq_platform rq = Some "instagram" -> rq_action rq <> "login" ->
  rq_headful rq = false ->
  lb_launch (aw_launch w) = Returns tt -> lb_newPage (aw_launch w) = Returns tt ->
  su_userAgent (aw_setup w) = Returns tt -> su_viewport (aw_setup w) = Returns tt ->
  su_interception (aw_setup w) = Returns tt ->
  result_of (ensureInstagramLoggedIn (aw_login w) (rq_username rq) (rq_password rq)
               initial_globals) = Throw msg ->
  result_of (runAction path_join dirname env w rq s) = Ok (failed msg).
Proof.
  intros Hp Ha Hh Hl Hn Hu Hv Hi Hlogin.
  unfold runAction. rewrite result_bind, result_try_catch, result_bind.
  rewrite (launchBrowser_returns _ _ _ Hl Hn). cbn [ret result_of fst].
  rewrite Hh, result_finally_ret, result_try_catch, result_bind.
  rewrite (setupPage_returns _ _ _ Hu Hv Hi).
  rewrite (dispatch_gate path_join dirname env w rq Hp Ha), Hlogin.
  reflexivity.
Qed.

(** A session check without a session and without credentials. *)
Lemma X30_witness :
  let w := mkActionWorld (mkLaunchWorld (Returns tt) (Returns tt))
             (mkSetupWorld (Returns tt) (Returns tt) (Returns tt))
             (mkLoadWorld (Returns tt) (Returns tt)) half_login_world
             (mkSaveWorld (Returns tt) (Returns []) (Returns ([], [])) "" (Returns tt))
             still_world (Returns tt) [] (Returns tt) (fun _ => blocked_like)
             (fun _ => 1500) good_item
             (mkAiWorld (Returns tt) (Returns tt) (Returns "completed") (Returns []))
             unverified_comment
             (mkStatusWorld (Returns tt) "https://www.instagram.com/" (Returns logged_out)
                (Returns (fun _ => false)) (Returns "Instagram") (Returns "Instagram"))
             (mkLogoutWorld (Returns tt) (Returns tt) (Returns []) (Returns tt))
             (Returns tt) in
  let rq := mkRequest "check-session" (Some "instagram") None None None None None None
              None None false false false None "" in
  result_of (runAction (fun a b => a +:+ "/" +:+ b) "/srv/bot" (mkEnvironment None None)
               w rq (mkBot initial_globals false ∅ []))
  = Ok (failed "Instagram session missing and no credentials provided. Provide username/password or login headfully and save a session.").
Proof.
  intros w rq.
  apply (X30_actions_start_with_the_login_gate (fun a b => a +:+ "/" +:+ b) "/srv/bot"
           (mkEnvironment None None) w rq (mkBot initial_globals false ∅ []));
    first [reflexivity | discriminate | vm_compute; reflexivity].
Defined.
